(** * Fixed-point DSP core of the Nucleo-G431 PCM audio pedal

    Shallow embedding of the C sources under [Core/Src] and [Core/Src/dsp]:
    the fixed-point helpers, the filter primitives, the distortion, delay and
    reverb effects, and the frame processor with its mode / mask / parameter
    interface.

    Conventions.
    - A C [int32_t], [uint32_t], [int16_t] or [uint8_t] value is a [Z]; every
      place where the C code computes in, or casts to, one of these types is
      written with the matching wrap-around ([to_int32], [to_uint32], ...).
    - Intermediate [int64_t] values are plain [Z]: every 64-bit expression of
      the sources is a sum of at most two products of two 32-bit operands, a
      sum of five products of a 32-bit operand with a coefficient below
      [2^29], or a 32-bit value shifted left by 15, so none of them can
      leave the 64-bit range.
    - [>>] on signed operands is the arithmetic shift [Z.shiftr]; C's [/] and
      [%] truncate toward zero ([Z.quot], [Z.rem]).
    - A C array is a [list Z] read with [arr_get] and written with [arr_set]; a pointer
      to a state struct becomes a value passed in and returned. *)

From Stdlib Require Import ZArith Lia List Bool.
From stdpp Require Import base list.

Local Open Scope Z_scope.

(** ** Machine integers *)

Definition to_int32 (x : Z) : Z := (x + 2147483648) mod 4294967296 - 2147483648.
Definition to_uint32 (x : Z) : Z := x mod 4294967296.
Definition to_int16 (x : Z) : Z := (x + 32768) mod 65536 - 32768.
Definition to_uint8 (x : Z) : Z := x mod 256.

Definition add32 (a b : Z) : Z := to_int32 (a + b).
Definition sub32 (a b : Z) : Z := to_int32 (a - b).
Definition mul32 (a b : Z) : Z := to_int32 (a * b).
Definition neg32 (a : Z) : Z := to_int32 (- a).

(** Array access. The sources only index with masked cursors, so the
    out-of-range case (undefined in C) is never reached; here it reads 0 and
    leaves the array unchanged. *)
Definition arr_get (buf : list Z) (i : Z) : Z := default 0 (buf !! Z.to_nat i).
Definition arr_set (buf : list Z) (i : Z) (v : Z) : list Z := <[Z.to_nat i := v]> buf.

(** ** Helpers shared by all translation units *)

Definition clamp_s24 (x : Z) : Z :=
  if x >? 8388607 then 8388607
  else if x <? -8388608 then -8388608
  else x.

Definition gain_s32_q8 (x gain_q8 : Z) : Z :=
  to_int32 (Z.shiftr (x * gain_q8) 8).

Definition mix_s24 (dry wet mix_q15 : Z) : Z :=
  let a := sub32 32768 mix_q15 in
  to_int32 (Z.shiftr (dry * a + wet * mix_q15) 15).

Definition abs_s32 (x : Z) : Z := if x >=? 0 then x else neg32 x.

Definition s24_to_s16 (x : Z) : Z :=
  let x := clamp_s24 x in
  let x := Z.shiftr x 8 in
  if x >? 32767 then 32767
  else if x <? -32768 then -32768
  else to_int16 x.

(** [onepole_lpf_s24 x st a] returns the new value of [*st] and the result
    (the C function makes them equal). *)
Definition onepole_lpf_s24 (x st a_q15 : Z) : Z * Z :=
  let y := st in
  let y := add32 y (to_int32 (Z.shiftr (a_q15 * sub32 x y) 15)) in
  let y := clamp_s24 y in
  (y, y).

(** The predicates the claims speak about. *)
Definition in_s24 (x : Z) : Prop := -8388608 <= x <= 8388607.
Definition in_s16 (x : Z) : Prop := -32768 <= x <= 32767.
Definition in_int32 (x : Z) : Prop := -2147483648 <= x <= 2147483647.
Definition in_uint32 (x : Z) : Prop := 0 <= x < 4294967296.

(** ** dsp_filters.c *)

Definition AUDIO_LIMITER_THRESH_S24 : Z := 6500000.
Definition AUDIO_LIMITER_RELEASE_Q15 : Z := 16.
Definition CLEAN_COMP_THRESH_S24 : Z := 3000000.
Definition CLEAN_COMP_RATIO : Z := 2.
Definition CLEAN_COMP_ENV_ATTACK_Q15 : Z := 4096.
Definition CLEAN_COMP_ENV_RELEASE_Q15 : Z := 256.
Definition CLEAN_COMP_GAIN_ATTACK_Q15 : Z := 8192.
Definition CLEAN_COMP_GAIN_RELEASE_Q15 : Z := 512.

Definition CAB_B0_Q28 : Z := 19407624.
Definition CAB_B1_Q28 : Z := 38815248.
Definition CAB_B2_Q28 : Z := 19407624.
Definition CAB_A1_Q28 : Z := -297323915.
Definition CAB_A2_Q28 : Z := 106689359.

Record DcBlockState := { dc_x1 : Z; dc_y1 : Z }.
Record CompState := { comp_env : Z; comp_gain_q15 : Z }.
Record BiquadState := { bq_x1 : Z; bq_x2 : Z; bq_y1 : Z; bq_y2 : Z }.
Record LimiterState := { lim_gain_q15 : Z }.

Record FiltersState := {
  s_limiter : LimiterState;
  s_dc_l : DcBlockState;
  s_dc_r : DcBlockState;
  s_clean_hpf_l : DcBlockState;
  s_clean_hpf_r : DcBlockState;
  s_wet_hpf_delay_l : DcBlockState;
  s_wet_hpf_delay_r : DcBlockState;
  s_wet_hpf_reverb_l : DcBlockState;
  s_wet_hpf_reverb_r : DcBlockState;
  s_comp_l : CompState;
  s_comp_r : CompState;
  s_cab_l : BiquadState;
  s_cab_r : BiquadState;
  s_wet_lpf_delay_l : Z;
  s_wet_lpf_delay_r : Z;
  s_wet_lpf_reverb_l : Z;
  s_wet_lpf_reverb_r : Z
}.

Definition dc_zero : DcBlockState := {| dc_x1 := 0; dc_y1 := 0 |}.
Definition comp_unity : CompState := {| comp_env := 0; comp_gain_q15 := 32768 |}.
Definition biquad_zero : BiquadState :=
  {| bq_x1 := 0; bq_x2 := 0; bq_y1 := 0; bq_y2 := 0 |}.

(** [DspFilters_Init] overwrites every static of the unit. *)
Definition DspFilters_Init : FiltersState :=
  {| s_limiter := {| lim_gain_q15 := 32768 |};
     s_dc_l := dc_zero; s_dc_r := dc_zero;
     s_clean_hpf_l := dc_zero; s_clean_hpf_r := dc_zero;
     s_wet_hpf_delay_l := dc_zero; s_wet_hpf_delay_r := dc_zero;
     s_wet_hpf_reverb_l := dc_zero; s_wet_hpf_reverb_r := dc_zero;
     s_comp_l := comp_unity; s_comp_r := comp_unity;
     s_cab_l := biquad_zero; s_cab_r := biquad_zero;
     s_wet_lpf_delay_l := 0; s_wet_lpf_delay_r := 0;
     s_wet_lpf_reverb_l := 0; s_wet_lpf_reverb_r := 0 |}.

Definition DspFilters_Hpf1 (st : DcBlockState) (x r_q15 : Z) : DcBlockState * Z :=
  let y := add32 (sub32 x (dc_x1 st)) (to_int32 (Z.shiftr (r_q15 * dc_y1 st) 15)) in
  ({| dc_x1 := x; dc_y1 := y |}, clamp_s24 y).

Definition DspFilters_DcBlock (st : DcBlockState) (x : Z) : DcBlockState * Z :=
  let r_q15 := 32684 in
  let y := add32 (sub32 x (dc_x1 st)) (to_int32 (Z.shiftr (r_q15 * dc_y1 st) 15)) in
  ({| dc_x1 := x; dc_y1 := y |}, clamp_s24 y).

Definition DspFilters_CompressOne (st : CompState) (x_s24 : Z) : CompState * Z :=
  let x := abs_s32 x_s24 in
  let env := comp_env st in
  let diff := sub32 x env in
  let k_env := if diff >? 0 then CLEAN_COMP_ENV_ATTACK_Q15
               else CLEAN_COMP_ENV_RELEASE_Q15 in
  let env := add32 env (to_int32 (Z.shiftr (k_env * diff) 15)) in
  let env := if env <? 0 then 0 else env in
  let target_gain_q15 :=
    if env >? CLEAN_COMP_THRESH_S24 then
      let over := sub32 env CLEAN_COMP_THRESH_S24 in
      let out_env := add32 CLEAN_COMP_THRESH_S24 (Z.quot over CLEAN_COMP_RATIO) in
      let t := to_int32 (Z.quot (Z.shiftl out_env 15) env) in
      let t := if t <? 0 then 0 else t in
      if t >? 32768 then 32768 else t
    else 32768 in
  let g := comp_gain_q15 st in
  let gd := sub32 target_gain_q15 g in
  let k_g := if gd <? 0 then CLEAN_COMP_GAIN_ATTACK_Q15
             else CLEAN_COMP_GAIN_RELEASE_Q15 in
  let g := add32 g (to_int32 (Z.shiftr (k_g * gd) 15)) in
  let g := if g <? 0 then 0 else g in
  let g := if g >? 32768 then 32768 else g in
  ({| comp_env := env; comp_gain_q15 := g |},
   clamp_s24 (to_int32 (Z.shiftr (x_s24 * g) 15))).

Definition DspFilters_Limiter (st : LimiterState) (l r : Z) : LimiterState * (Z * Z) :=
  let a := abs_s32 l in
  let b := abs_s32 r in
  let peak := if a >? b then a else b in
  let target :=
    if peak >? AUDIO_LIMITER_THRESH_S24 then
      let t := to_int32 (Z.quot (Z.shiftl AUDIO_LIMITER_THRESH_S24 15) peak) in
      let t := if t <? 0 then 0 else t in
      if t >? 32768 then 32768 else t
    else 32768 in
  let g := lim_gain_q15 st in
  let g :=
    if target <? g then target
    else
      let g := add32 g (to_int32 (Z.shiftr (AUDIO_LIMITER_RELEASE_Q15 * sub32 target g) 15)) in
      if g >? 32768 then 32768 else g in
  ({| lim_gain_q15 := g |},
   (clamp_s24 (to_int32 (Z.shiftr (l * g) 15)),
    clamp_s24 (to_int32 (Z.shiftr (r * g) 15)))).

Definition DspFilters_CabSim (st : BiquadState) (x : Z) : BiquadState * Z :=
  let acc := 0 in
  let acc := acc + CAB_B0_Q28 * x in
  let acc := acc + CAB_B1_Q28 * bq_x1 st in
  let acc := acc + CAB_B2_Q28 * bq_x2 st in
  let acc := acc - CAB_A1_Q28 * bq_y1 st in
  let acc := acc - CAB_A2_Q28 * bq_y2 st in
  let y := to_int32 (Z.shiftr acc 28) in
  let y := clamp_s24 y in
  ({| bq_x1 := x; bq_x2 := bq_x1 st; bq_y1 := y; bq_y2 := bq_y1 st |}, y).

Definition DspFilters_OnePole (x st a_q15 : Z) : Z * Z :=
  let y := st in
  let y := add32 y (to_int32 (Z.shiftr (a_q15 * sub32 x y) 15)) in
  let y := clamp_s24 y in
  (y, y).

(** ** dsp_distortion.c *)

Record DistState := { hp_x1 : Z; hp_y1 : Z; lp_y1 : Z; os_x1 : Z }.

Record DistModule := {
  s_dist_drive_q8 : Z;
  s_dist_l : DistState;
  s_dist_r : DistState
}.

Definition dist_zero : DistState :=
  {| hp_x1 := 0; hp_y1 := 0; lp_y1 := 0; os_x1 := 0 |}.

(** Static initialisers of the unit (the value at start-up). *)
Definition DspDistortion_static : DistModule :=
  {| s_dist_drive_q8 := 40960; s_dist_l := dist_zero; s_dist_r := dist_zero |}.

Definition hard_tube_clip_s24 (x : Z) : Z :=
  let thr_pos := 1200000 in
  let thr_neg := 900000 in
  if x >? thr_pos then
    let over := sub32 x thr_pos in
    add32 thr_pos (Z.shiftr over 10)
  else if x <? - thr_neg then
    let over := add32 x thr_neg in
    add32 (- thr_neg) (Z.shiftr over 10)
  else x.

(** [DspDistortion_Init] resets the two channel states and does not assign
    [s_dist_drive_q8]. *)
Definition DspDistortion_Init (m : DistModule) : DistModule :=
  {| s_dist_drive_q8 := s_dist_drive_q8 m;
     s_dist_l := dist_zero; s_dist_r := dist_zero |}.

Definition DspDistortion_SetDrive (drive_q8 : Z) (m : DistModule) : DistModule :=
  let drive_q8 := if drive_q8 <? 0 then 0 else drive_q8 in
  let drive_q8 := if drive_q8 >? 131072 then 131072 else drive_q8 in
  {| s_dist_drive_q8 := drive_q8; s_dist_l := s_dist_l m; s_dist_r := s_dist_r m |}.

Definition DspDistortion_GetDrive (m : DistModule) : Z := s_dist_drive_q8 m.

(** The drive is the module's [s_dist_drive_q8], read once per call. *)
Definition DspDistortion_Process (drive_q8 : Z) (st : DistState) (x : Z) : DistState * Z :=
  let hp_r_q15 := 32113 in
  let hp_y := add32 (sub32 x (hp_x1 st)) (to_int32 (Z.shiftr (hp_r_q15 * hp_y1 st) 15)) in
  let d24 := to_int32 (Z.shiftr (hp_y * drive_q8) 8) in
  let d24_mid := Z.shiftr (add32 d24 (os_x1 st)) 1 in
  let y0 := hard_tube_clip_s24 (clamp_s24 d24) in
  let y1 := hard_tube_clip_s24 (clamp_s24 d24_mid) in
  let y24 := Z.shiftr (add32 y0 y1) 1 in
  let lp_a_q15 := 12000 in
  let lp := add32 (lp_y1 st) (to_int32 (Z.shiftr (lp_a_q15 * sub32 y24 (lp_y1 st)) 15)) in
  let y24 := lp in
  let level_q8 := 256 in
  let y24 := to_int32 (Z.shiftr (y24 * level_q8) 8) in
  ({| hp_x1 := x; hp_y1 := hp_y; lp_y1 := lp; os_x1 := d24 |}, clamp_s24 y24).

(** ** dsp_delay.c *)

Definition DELAY_LEN : Z := 1024.
Definition DELAY_MASK : Z := DELAY_LEN - 1.
Definition DELAY_FEEDBACK_Q15 : Z := 16384.
Definition DELAY_MIX_Q15 : Z := 11469.
Definition DELAY_DECIM : Z := 8.
Definition DELAY_FB_LPF_A_Q15 : Z := 1024.

Record DelayState := {
  idx : Z;            (* uint32_t *)
  phase : Z;          (* uint8_t *)
  last_out_s24 : Z;
  fb_lp_s24 : Z
}.

Record DelayModule := {
  s_delay_mix_q15 : Z;
  s_delay_feedback_q15 : Z;
  s_delay_buf_l : list Z;   (* int16_t [DELAY_LEN] *)
  s_delay_buf_r : list Z;
  s_delay_l : DelayState;
  s_delay_r : DelayState
}.

Definition delay_zero : DelayState :=
  {| idx := 0; phase := 0; last_out_s24 := 0; fb_lp_s24 := 0 |}.

Definition zeros (n : Z) : list Z := replicate (Z.to_nat n) 0.

Definition DspDelay_static : DelayModule :=
  {| s_delay_mix_q15 := DELAY_MIX_Q15;
     s_delay_feedback_q15 := DELAY_FEEDBACK_Q15;
     s_delay_buf_l := zeros DELAY_LEN; s_delay_buf_r := zeros DELAY_LEN;
     s_delay_l := delay_zero; s_delay_r := delay_zero |}.

(** [DspDelay_Init] clears the buffers and the channel states; the two
    parameters are not assigned. *)
Definition DspDelay_Init (m : DelayModule) : DelayModule :=
  {| s_delay_mix_q15 := s_delay_mix_q15 m;
     s_delay_feedback_q15 := s_delay_feedback_q15 m;
     s_delay_buf_l := zeros DELAY_LEN; s_delay_buf_r := zeros DELAY_LEN;
     s_delay_l := delay_zero; s_delay_r := delay_zero |}.

Definition clamp_0_32768 (v : Z) : Z :=
  let v := if v <? 0 then 0 else v in
  if v >? 32768 then 32768 else v.

Definition DspDelay_SetMix (mix_q15 : Z) (m : DelayModule) : DelayModule :=
  {| s_delay_mix_q15 := clamp_0_32768 mix_q15;
     s_delay_feedback_q15 := s_delay_feedback_q15 m;
     s_delay_buf_l := s_delay_buf_l m; s_delay_buf_r := s_delay_buf_r m;
     s_delay_l := s_delay_l m; s_delay_r := s_delay_r m |}.

Definition DspDelay_GetMix (m : DelayModule) : Z := s_delay_mix_q15 m.

Definition DspDelay_SetFeedback (feedback_q15 : Z) (m : DelayModule) : DelayModule :=
  {| s_delay_mix_q15 := s_delay_mix_q15 m;
     s_delay_feedback_q15 := clamp_0_32768 feedback_q15;
     s_delay_buf_l := s_delay_buf_l m; s_delay_buf_r := s_delay_buf_r m;
     s_delay_l := s_delay_l m; s_delay_r := s_delay_r m |}.

Definition DspDelay_GetFeedback (m : DelayModule) : Z := s_delay_feedback_q15 m.

(** [feedback_q15] is the module's [s_delay_feedback_q15]. The result is the
    updated buffer, the updated state and the returned sample. *)
Definition DspDelay_Process (feedback_q15 : Z) (x : Z) (delay : list Z) (st : DelayState)
  : list Z * DelayState * Z :=
  let '(delay, st) :=
    if phase st =? 0 then
      let i := idx st in
      let d := to_int32 (Z.shiftl (arr_get delay i) 8) in
      let '(lp_st, lp_out) := onepole_lpf_s24 d (fb_lp_s24 st) DELAY_FB_LPF_A_Q15 in
      let fb_lp := lp_out in
      let fb := to_int32 (Z.shiftr (feedback_q15 * fb_lp) 15) in
      let delay := arr_set delay i (s24_to_s16 (clamp_s24 (add32 x fb))) in
      (delay,
       {| idx := Z.land (to_uint32 (i + 1)) DELAY_MASK;
          phase := phase st;
          last_out_s24 := d;
          fb_lp_s24 := fb_lp |})
    else (delay, st) in
  let st := {| idx := idx st;
               phase := to_uint8 (Z.rem (to_uint32 (phase st + 1)) DELAY_DECIM);
               last_out_s24 := last_out_s24 st;
               fb_lp_s24 := fb_lp_s24 st |} in
  (delay, st, last_out_s24 st).

(** ** dsp_reverb.c *)

Definition REVERB_DELAY_LEN : Z := 2048.
Definition REVERB_DELAY_MASK : Z := REVERB_DELAY_LEN - 1.
Definition REVERB_AP_LEN : Z := 128.
Definition REVERB_AP1_LEN : Z := 64.
Definition REVERB_AP2_LEN : Z := 64.
Definition REVERB_AP1_MASK : Z := REVERB_AP1_LEN - 1.
Definition REVERB_AP2_MASK : Z := REVERB_AP2_LEN - 1.
Definition REVERB_FEEDBACK_Q15 : Z := 22000.
Definition REVERB_DAMP_Q15 : Z := 8192.
Definition REVERB_AP_G_Q15 : Z := 22938.
Definition REVERB_MIX_Q15 : Z := 9830.
Definition REVERB_MOD_AMP_SAMPLES : Z := 0.

(** The statics of one channel, which [DspReverb_Process] receives through
    its pointer arguments. *)
Record ReverbChan := {
  rv_delay : list Z;       (* int32_t [REVERB_DELAY_LEN] *)
  rv_delay_idx : Z;        (* uint32_t *)
  rv_lp : Z;
  rv_ap : list Z;          (* int32_t [REVERB_AP_LEN] *)
  rv_ap1_idx : Z;          (* uint32_t *)
  rv_ap2_idx : Z;          (* uint32_t *)
  rv_lfo : Z               (* uint32_t *)
}.

Record ReverbModule := {
  s_reverb_mix_q15 : Z;
  s_reverb_feedback_q15 : Z;
  s_reverb_damp_q15 : Z;
  s_reverb_l : ReverbChan;
  s_reverb_r : ReverbChan
}.

Definition reverb_chan_zero : ReverbChan :=
  {| rv_delay := zeros REVERB_DELAY_LEN; rv_delay_idx := 0; rv_lp := 0;
     rv_ap := zeros REVERB_AP_LEN; rv_ap1_idx := 0; rv_ap2_idx := 0;
     rv_lfo := 0 |}.

Definition DspReverb_static : ReverbModule :=
  {| s_reverb_mix_q15 := REVERB_MIX_Q15;
     s_reverb_feedback_q15 := REVERB_FEEDBACK_Q15;
     s_reverb_damp_q15 := REVERB_DAMP_Q15;
     s_reverb_l := reverb_chan_zero; s_reverb_r := reverb_chan_zero |}.

(** [DspReverb_Init] clears buffers, cursors, filters and LFOs; the three
    parameters are not assigned. *)
Definition DspReverb_Init (m : ReverbModule) : ReverbModule :=
  {| s_reverb_mix_q15 := s_reverb_mix_q15 m;
     s_reverb_feedback_q15 := s_reverb_feedback_q15 m;
     s_reverb_damp_q15 := s_reverb_damp_q15 m;
     s_reverb_l := reverb_chan_zero; s_reverb_r := reverb_chan_zero |}.

Definition DspReverb_SetMix (mix_q15 : Z) (m : ReverbModule) : ReverbModule :=
  {| s_reverb_mix_q15 := clamp_0_32768 mix_q15;
     s_reverb_feedback_q15 := s_reverb_feedback_q15 m;
     s_reverb_damp_q15 := s_reverb_damp_q15 m;
     s_reverb_l := s_reverb_l m; s_reverb_r := s_reverb_r m |}.

Definition DspReverb_GetMix (m : ReverbModule) : Z := s_reverb_mix_q15 m.

Definition DspReverb_SetFeedback (feedback_q15 : Z) (m : ReverbModule) : ReverbModule :=
  {| s_reverb_mix_q15 := s_reverb_mix_q15 m;
     s_reverb_feedback_q15 := clamp_0_32768 feedback_q15;
     s_reverb_damp_q15 := s_reverb_damp_q15 m;
     s_reverb_l := s_reverb_l m; s_reverb_r := s_reverb_r m |}.

Definition DspReverb_GetFeedback (m : ReverbModule) : Z := s_reverb_feedback_q15 m.

Definition DspReverb_SetDamp (damp_q15 : Z) (m : ReverbModule) : ReverbModule :=
  {| s_reverb_mix_q15 := s_reverb_mix_q15 m;
     s_reverb_feedback_q15 := s_reverb_feedback_q15 m;
     s_reverb_damp_q15 := clamp_0_32768 damp_q15;
     s_reverb_l := s_reverb_l m; s_reverb_r := s_reverb_r m |}.

Definition DspReverb_GetDamp (m : ReverbModule) : Z := s_reverb_damp_q15 m.

(** Returns the advanced phase and the offset in Q8. *)
Definition triangle_lfo_offset_q8 (phase step amp_samples : Z) : Z * Z :=
  let phase := to_uint32 (phase + step) in
  let t := to_uint8 (Z.shiftr phase 24) in
  let tri := if t <? 128 then t else to_uint8 (255 - t) in
  let off := sub32 tri 64 in
  let off_q8 := Z.quot (mul32 off (mul32 amp_samples 256)) 64 in
  let lim := mul32 amp_samples 256 in
  let off_q8 := if off_q8 >? lim then lim else off_q8 in
  let off_q8 := if off_q8 <? neg32 lim then neg32 lim else off_q8 in
  (phase, off_q8).

(** [buf] is the whole allpass array and [base] the offset of the stage's
    first element in it (the C caller passes [&ap_buf[base]]). Returns the
    array, the advanced cursor and the stage output. *)
Definition allpass_process_s24_len (x : Z) (buf : list Z) (base : Z) (i : Z) (mask : Z)
  : list Z * Z * Z :=
  let b := arr_get buf (base + i) in
  let y := sub32 b (to_int32 (Z.shiftr (REVERB_AP_G_Q15 * x) 15)) in
  let new_b := add32 x (to_int32 (Z.shiftr (REVERB_AP_G_Q15 * y) 15)) in
  let buf := arr_set buf (base + i) (clamp_s24 new_b) in
  (buf, Z.land (to_uint32 (i + 1)) mask, clamp_s24 y).

(** [feedback_q15] and [damp_q15] are the module's [s_reverb_feedback_q15]
    and [s_reverb_damp_q15]. *)
Definition DspReverb_Process (feedback_q15 damp_q15 : Z) (x : Z) (c : ReverbChan)
    (lfo_step : Z) : ReverbChan * Z :=
  let i := rv_delay_idx c in
  let '(lfo_phase, mod_q8) :=
    triangle_lfo_offset_q8 (rv_lfo c) lfo_step REVERB_MOD_AMP_SAMPLES in
  let mod_i := Z.shiftr mod_q8 8 in
  let frac := Z.land mod_q8 255 in
  let ri0 := add32 (to_int32 i) mod_i in
  let ri0 := Z.land (add32 ri0 REVERB_DELAY_LEN) REVERB_DELAY_MASK in
  let ri1 := Z.land (add32 ri0 1) REVERB_DELAY_MASK in
  let d0 := arr_get (rv_delay c) ri0 in
  let d1 := arr_get (rv_delay c) ri1 in
  let d := add32 d0 (to_int32 (Z.shiftr (sub32 d1 d0 * frac) 8)) in
  let lpv := rv_lp c in
  let lpv := add32 lpv (to_int32 (Z.shiftr (damp_q15 * sub32 d lpv) 15)) in
  let fb := to_int32 (Z.shiftr (feedback_q15 * lpv) 15) in
  let delay := arr_set (rv_delay c) i (clamp_s24 (add32 x fb)) in
  let delay_idx := Z.land (to_uint32 (i + 1)) REVERB_DELAY_MASK in
  let '(ap, ap1_idx, y) :=
    allpass_process_s24_len d (rv_ap c) 0 (rv_ap1_idx c) REVERB_AP1_MASK in
  let '(ap, ap2_idx, y) :=
    allpass_process_s24_len y ap REVERB_AP1_LEN (rv_ap2_idx c) REVERB_AP2_MASK in
  ({| rv_delay := delay; rv_delay_idx := delay_idx; rv_lp := lpv;
      rv_ap := ap; rv_ap1_idx := ap1_idx; rv_ap2_idx := ap2_idx;
      rv_lfo := lfo_phase |}, y).

(** ** app_dsp.h *)

Inductive AppFxMode :=
| APP_FX_MODE_BYPASS
| APP_FX_MODE_DISTORTION
| APP_FX_MODE_REVERB
| APP_FX_MODE_DELAY
| APP_FX_MODE_ALL.

Definition APP_FX_BIT_DISTORTION : Z := Z.shiftl 1 0.
Definition APP_FX_BIT_REVERB : Z := Z.shiftl 1 1.
Definition APP_FX_BIT_DELAY : Z := Z.shiftl 1 2.

Inductive AppDspParamId :=
| APP_DSP_PARAM_DIST_DRIVE_Q8
| APP_DSP_PARAM_DELAY_MIX_Q15
| APP_DSP_PARAM_DELAY_FEEDBACK_Q15
| APP_DSP_PARAM_REVERB_MIX_Q15
| APP_DSP_PARAM_REVERB_FEEDBACK_Q15
| APP_DSP_PARAM_REVERB_DAMP_Q15
| APP_DSP_PARAM_GAIN_Q15.

Definition AppFxMode_eqb (a b : AppFxMode) : bool :=
  match a, b with
  | APP_FX_MODE_BYPASS, APP_FX_MODE_BYPASS
  | APP_FX_MODE_DISTORTION, APP_FX_MODE_DISTORTION
  | APP_FX_MODE_REVERB, APP_FX_MODE_REVERB
  | APP_FX_MODE_DELAY, APP_FX_MODE_DELAY
  | APP_FX_MODE_ALL, APP_FX_MODE_ALL => true
  | _, _ => false
  end.

(** ** dsp/app_dsp.c: the modular frame processor *)

Definition AUDIO_INPUT_GAIN_Q8 : Z := 1536.
Definition AUDIO_MAKEUP_GAIN_Q8 : Z := 1000.
Definition CLEAN_HPF_R_Q15 : Z := 32384.
Definition WET_HPF_R_Q15 : Z := 32004.
Definition WET_LPF_A_Q15 : Z := 2048.

(** All statics the frame processor reaches: its own four and, through the
    accessor functions, those of the four DSP units. *)
Record AppState := {
  s_mode : AppFxMode;
  s_button_last_ms : Z;     (* uint32_t *)
  s_fx_mask : Z;            (* AppFxMask = uint32_t *)
  s_gain_q15 : Z;
  filters : FiltersState;
  dist : DistModule;
  delay : DelayModule;
  reverb : ReverbModule
}.

(** The value of every static before any call (C static initialisers). *)
Definition power_on : AppState :=
  {| s_mode := APP_FX_MODE_BYPASS; s_button_last_ms := 0; s_fx_mask := 0;
     s_gain_q15 := 32768;
     filters := DspFilters_Init;
     dist := DspDistortion_static;
     delay := DspDelay_static;
     reverb := DspReverb_static |}.

Definition AppDsp_Init (st : AppState) : AppState :=
  {| s_mode := APP_FX_MODE_BYPASS;
     s_button_last_ms := 0;
     s_fx_mask := 0;
     s_gain_q15 := 32768;
     filters := DspFilters_Init;
     dist := DspDistortion_Init (dist st);
     delay := DspDelay_Init (delay st);
     reverb := DspReverb_Init (reverb st) |}.

Definition set_mode_mask (m : AppFxMode) (last_ms mask : Z) (st : AppState) : AppState :=
  {| s_mode := m; s_button_last_ms := last_ms; s_fx_mask := mask;
     s_gain_q15 := s_gain_q15 st; filters := filters st; dist := dist st;
     delay := delay st; reverb := reverb st |}.

Definition AppDsp_OnButtonPress (now_ms : Z) (st : AppState) : AppState :=
  if to_uint32 (now_ms - s_button_last_ms st) <? 300 then st
  else
    let last := now_ms in
    let mode :=
      match s_mode st with
      | APP_FX_MODE_BYPASS => APP_FX_MODE_DISTORTION
      | APP_FX_MODE_DISTORTION => APP_FX_MODE_REVERB
      | APP_FX_MODE_REVERB => APP_FX_MODE_DELAY
      | APP_FX_MODE_DELAY => APP_FX_MODE_ALL
      | _ => APP_FX_MODE_BYPASS
      end in
    let mask :=
      if AppFxMode_eqb mode APP_FX_MODE_BYPASS then 0
      else if AppFxMode_eqb mode APP_FX_MODE_DISTORTION then APP_FX_BIT_DISTORTION
      else if AppFxMode_eqb mode APP_FX_MODE_REVERB then APP_FX_BIT_REVERB
      else if AppFxMode_eqb mode APP_FX_MODE_DELAY then APP_FX_BIT_DELAY
      else if AppFxMode_eqb mode APP_FX_MODE_ALL then
        Z.lor (Z.lor APP_FX_BIT_DISTORTION APP_FX_BIT_REVERB) APP_FX_BIT_DELAY
      else s_fx_mask st in
    set_mode_mask mode last mask st.

Definition AppDsp_GetMode (st : AppState) : AppFxMode := s_mode st.

Definition AppDsp_SetFxMask (mask : Z) (st : AppState) : AppState :=
  let mask :=
    Z.land mask (Z.lor (Z.lor APP_FX_BIT_DISTORTION APP_FX_BIT_REVERB) APP_FX_BIT_DELAY) in
  let mode :=
    if mask =? 0 then APP_FX_MODE_BYPASS
    else if mask =? APP_FX_BIT_DISTORTION then APP_FX_MODE_DISTORTION
    else if mask =? APP_FX_BIT_REVERB then APP_FX_MODE_REVERB
    else if mask =? APP_FX_BIT_DELAY then APP_FX_MODE_DELAY
    else APP_FX_MODE_ALL in
  set_mode_mask mode (s_button_last_ms st) mask st.

Definition AppDsp_GetFxMask (st : AppState) : Z := s_fx_mask st.

Definition with_units (g : Z) (d : DistModule) (dl : DelayModule) (rv : ReverbModule)
    (st : AppState) : AppState :=
  {| s_mode := s_mode st; s_button_last_ms := s_button_last_ms st;
     s_fx_mask := s_fx_mask st; s_gain_q15 := g; filters := filters st;
     dist := d; delay := dl; reverb := rv |}.

Definition AppDsp_SetParam (id : AppDspParamId) (value : Z) (st : AppState) : AppState :=
  match id with
  | APP_DSP_PARAM_DIST_DRIVE_Q8 =>
      with_units (s_gain_q15 st) (DspDistortion_SetDrive value (dist st))
                 (delay st) (reverb st) st
  | APP_DSP_PARAM_DELAY_MIX_Q15 =>
      with_units (s_gain_q15 st) (dist st) (DspDelay_SetMix value (delay st))
                 (reverb st) st
  | APP_DSP_PARAM_DELAY_FEEDBACK_Q15 =>
      with_units (s_gain_q15 st) (dist st) (DspDelay_SetFeedback value (delay st))
                 (reverb st) st
  | APP_DSP_PARAM_REVERB_MIX_Q15 =>
      with_units (s_gain_q15 st) (dist st) (delay st)
                 (DspReverb_SetMix value (reverb st)) st
  | APP_DSP_PARAM_REVERB_FEEDBACK_Q15 =>
      with_units (s_gain_q15 st) (dist st) (delay st)
                 (DspReverb_SetFeedback value (reverb st)) st
  | APP_DSP_PARAM_REVERB_DAMP_Q15 =>
      with_units (s_gain_q15 st) (dist st) (delay st)
                 (DspReverb_SetDamp value (reverb st)) st
  | APP_DSP_PARAM_GAIN_Q15 =>
      let value := if value <? 0 then 0 else value in
      let value := if value >? 65536 then 65536 else value in
      with_units value (dist st) (delay st) (reverb st) st
  end.

Definition AppDsp_GetParam (id : AppDspParamId) (st : AppState) : Z :=
  match id with
  | APP_DSP_PARAM_DIST_DRIVE_Q8 => DspDistortion_GetDrive (dist st)
  | APP_DSP_PARAM_DELAY_MIX_Q15 => DspDelay_GetMix (delay st)
  | APP_DSP_PARAM_DELAY_FEEDBACK_Q15 => DspDelay_GetFeedback (delay st)
  | APP_DSP_PARAM_REVERB_MIX_Q15 => DspReverb_GetMix (reverb st)
  | APP_DSP_PARAM_REVERB_FEEDBACK_Q15 => DspReverb_GetFeedback (reverb st)
  | APP_DSP_PARAM_REVERB_DAMP_Q15 => DspReverb_GetDamp (reverb st)
  | APP_DSP_PARAM_GAIN_Q15 => s_gain_q15 st
  end.

Definition DspFilters_CompressStereo (cl cr : CompState) (l r : Z)
  : CompState * CompState * (Z * Z) :=
  let '(cl, l) := DspFilters_CompressOne cl l in
  let '(cr, r) := DspFilters_CompressOne cr r in
  (cl, cr, (l, r)).

(** One stereo frame, in place: returns the new state and the new [( *l, *r)]. *)
Definition AppDsp_ProcessFrame (st : AppState) (l r : Z) : AppState * (Z * Z) :=
  let F := filters st in
  let mask := s_fx_mask st in
  let has_dist := negb (Z.land mask APP_FX_BIT_DISTORTION =? 0) in
  let has_rev := negb (Z.land mask APP_FX_BIT_REVERB =? 0) in
  let has_del := negb (Z.land mask APP_FX_BIT_DELAY =? 0) in
  let fx_count := (if has_dist then 1 else 0) + (if has_rev then 1 else 0)
                  + (if has_del then 1 else 0) in
  (* pre-processing *)
  let '(dc_l, l) := DspFilters_DcBlock (s_dc_l F) l in
  let '(dc_r, r) := DspFilters_DcBlock (s_dc_r F) r in
  let '(chpf_l, l) := DspFilters_Hpf1 (s_clean_hpf_l F) l CLEAN_HPF_R_Q15 in
  let '(chpf_r, r) := DspFilters_Hpf1 (s_clean_hpf_r F) r CLEAN_HPF_R_Q15 in
  let l := gain_s32_q8 l AUDIO_INPUT_GAIN_Q8 in
  let r := gain_s32_q8 r AUDIO_INPUT_GAIN_Q8 in
  let '(comp_l, comp_r, (l, r)) := DspFilters_CompressStereo (s_comp_l F) (s_comp_r F) l r in
  (* distortion, then cabinet simulation *)
  let '(dist', cab_l, cab_r, (l, r)) :=
    if has_dist then
      let drive := s_dist_drive_q8 (dist st) in
      let '(dl, l) := DspDistortion_Process drive (s_dist_l (dist st)) (clamp_s24 l) in
      let '(dr, r) := DspDistortion_Process drive (s_dist_r (dist st)) (clamp_s24 r) in
      let '(cab_l, l) := DspFilters_CabSim (s_cab_l F) l in
      let '(cab_r, r) := DspFilters_CabSim (s_cab_r F) r in
      ({| s_dist_drive_q8 := drive; s_dist_l := dl; s_dist_r := dr |},
       cab_l, cab_r, (l, r))
    else (dist st, s_cab_l F, s_cab_r F, (l, r)) in
  (* delay *)
  let '(delay', whd_l, whd_r, wld_l, wld_r, (l, r)) :=
    if has_del then
      let D := delay st in
      let fbk := s_delay_feedback_q15 D in
      let '(buf_l, dst_l, wl) :=
        DspDelay_Process fbk (clamp_s24 l) (s_delay_buf_l D) (s_delay_l D) in
      let '(buf_r, dst_r, wr) :=
        DspDelay_Process fbk (clamp_s24 r) (s_delay_buf_r D) (s_delay_r D) in
      let '(whd_l, wl) := DspFilters_Hpf1 (s_wet_hpf_delay_l F) wl WET_HPF_R_Q15 in
      let '(whd_r, wr) := DspFilters_Hpf1 (s_wet_hpf_delay_r F) wr WET_HPF_R_Q15 in
      let '(wld_l, wl) := DspFilters_OnePole wl (s_wet_lpf_delay_l F) WET_LPF_A_Q15 in
      let '(wld_r, wr) := DspFilters_OnePole wr (s_wet_lpf_delay_r F) WET_LPF_A_Q15 in
      let mix := DspDelay_GetMix D in
      let mix := if fx_count >? 1 then Z.quot (mul32 mix 3) 4 else mix in
      let l := mix_s24 (clamp_s24 l) wl mix in
      let r := mix_s24 (clamp_s24 r) wr mix in
      ({| s_delay_mix_q15 := s_delay_mix_q15 D;
          s_delay_feedback_q15 := fbk;
          s_delay_buf_l := buf_l; s_delay_buf_r := buf_r;
          s_delay_l := dst_l; s_delay_r := dst_r |},
       whd_l, whd_r, wld_l, wld_r, (l, r))
    else (delay st, s_wet_hpf_delay_l F, s_wet_hpf_delay_r F,
          s_wet_lpf_delay_l F, s_wet_lpf_delay_r F, (l, r)) in
  (* reverb *)
  let '(reverb', whr_l, whr_r, wlr_l, wlr_r, (l, r)) :=
    if has_rev then
      let R := reverb st in
      let fbk := s_reverb_feedback_q15 R in
      let damp := s_reverb_damp_q15 R in
      let '(ch_l, wl) := DspReverb_Process fbk damp (clamp_s24 l) (s_reverb_l R) 65536 in
      let '(ch_r, wr) := DspReverb_Process fbk damp (clamp_s24 r) (s_reverb_r R) 77824 in
      let '(whr_l, wl) := DspFilters_Hpf1 (s_wet_hpf_reverb_l F) wl WET_HPF_R_Q15 in
      let '(whr_r, wr) := DspFilters_Hpf1 (s_wet_hpf_reverb_r F) wr WET_HPF_R_Q15 in
      let '(wlr_l, wl) := DspFilters_OnePole wl (s_wet_lpf_reverb_l F) WET_LPF_A_Q15 in
      let '(wlr_r, wr) := DspFilters_OnePole wr (s_wet_lpf_reverb_r F) WET_LPF_A_Q15 in
      let mix := if fx_count >? 1 then Z.quot (DspReverb_GetMix R) 2
                 else DspReverb_GetMix R in
      let l := mix_s24 (clamp_s24 l) wl mix in
      let r := mix_s24 (clamp_s24 r) wr mix in
      ({| s_reverb_mix_q15 := s_reverb_mix_q15 R;
          s_reverb_feedback_q15 := fbk; s_reverb_damp_q15 := damp;
          s_reverb_l := ch_l; s_reverb_r := ch_r |},
       whr_l, whr_r, wlr_l, wlr_r, (l, r))
    else (reverb st, s_wet_hpf_reverb_l F, s_wet_hpf_reverb_r F,
          s_wet_lpf_reverb_l F, s_wet_lpf_reverb_r F, (l, r)) in
  (* post-processing *)
  let makeup_q8 := AUDIO_MAKEUP_GAIN_Q8 in
  let makeup_q8 := if negb (mask =? 0) then Z.quot (mul32 makeup_q8 3) 4 else makeup_q8 in
  let l := gain_s32_q8 l makeup_q8 in
  let r := gain_s32_q8 r makeup_q8 in
  let l := clamp_s24 (to_int32 (Z.shiftr (l * s_gain_q15 st) 15)) in
  let r := clamp_s24 (to_int32 (Z.shiftr (r * s_gain_q15 st) 15)) in
  let '(lim, (l, r)) := DspFilters_Limiter (s_limiter F) l r in
  ({| s_mode := s_mode st; s_button_last_ms := s_button_last_ms st;
      s_fx_mask := s_fx_mask st; s_gain_q15 := s_gain_q15 st;
      filters :=
        {| s_limiter := lim;
           s_dc_l := dc_l; s_dc_r := dc_r;
           s_clean_hpf_l := chpf_l; s_clean_hpf_r := chpf_r;
           s_wet_hpf_delay_l := whd_l; s_wet_hpf_delay_r := whd_r;
           s_wet_hpf_reverb_l := whr_l; s_wet_hpf_reverb_r := whr_r;
           s_comp_l := comp_l; s_comp_r := comp_r;
           s_cab_l := cab_l; s_cab_r := cab_r;
           s_wet_lpf_delay_l := wld_l; s_wet_lpf_delay_r := wld_r;
           s_wet_lpf_reverb_l := wlr_l; s_wet_lpf_reverb_r := wlr_r |};
      dist := dist'; delay := delay'; reverb := reverb' |},
   (clamp_s24 l, clamp_s24 r)).

(** Repeated calls on a stream of frames; the outputs in call order. *)
Fixpoint process_frames (st : AppState) (frames : list (Z * Z)) : AppState * list (Z * Z) :=
  match frames with
  | [] => (st, [])
  | (l, r) :: rest =>
      let '(st, out) := AppDsp_ProcessFrame st l r in
      let '(st, outs) := process_frames st rest in
      (st, out :: outs)
  end.

(** ** app_dsp.c: the monolithic frame processor

    The older single-file variant keeps every static in one unit. Its filter
    and effect helpers have, statement for statement, the bodies of the
    modular units above, so they are introduced under their own names as
    the same functions; what differs (initialisation, parameter setters, the
    coloration stage and the stacked reverb mix) is written out. *)
Module Mono.

Definition INPUT_COLOR_DRIVE_Q8 : Z := 384.
Definition REVERB_MIX_ALL_Q15 : Z := 4915.
Definition DELAY_MIX_ALL_Q15 : Z := 6554.
Definition REVERB_MOD_STEP_L : Z := 65536.
Definition REVERB_MOD_STEP_R : Z := 77824.

Record State := {
  core : AppState;
  s_delay_mix_all_q15 : Z;
  s_reverb_mix_all_q15 : Z
}.

Definition power_on : State :=
  {| core := power_on;
     s_delay_mix_all_q15 := DELAY_MIX_ALL_Q15;
     s_reverb_mix_all_q15 := REVERB_MIX_ALL_Q15 |}.

Definition q15_mul (a b : Z) : Z := to_int32 (Z.shiftr (a * b) 15).

Definition softclip_q15 (xq15 : Z) : Z :=
  let x2 := q15_mul xq15 xq15 in
  let x3 := q15_mul x2 xq15 in
  sub32 xq15 (Z.quot x3 3).

Definition input_color_process_s24 (x : Z) : Z :=
  let y := gain_s32_q8 x INPUT_COLOR_DRIVE_Q8 in
  let y := clamp_s24 y in
  let yq15 := Z.shiftr y 8 in
  let yq15 := softclip_q15 yq15 in
  clamp_s24 (to_int32 (Z.shiftl yq15 8)).

Definition limiter_process_s24 := DspFilters_Limiter.
Definition dc_block_s24 := DspFilters_DcBlock.
Definition hpf1_s24 := DspFilters_Hpf1.
Definition clean_comp_process_one_s24 := DspFilters_CompressOne.
Definition clean_comp_process_s24 := DspFilters_CompressStereo.
Definition distortion_process_s24 := DspDistortion_Process.
Definition cab_lpf_process_s24 := DspFilters_CabSim.
Definition reverb_process_s24 := DspReverb_Process.
Definition delay_process_s24 := DspDelay_Process.

Definition clamp_q15 (x : Z) : Z :=
  if x <? 0 then 0 else if x >? 32768 then 32768 else x.

Definition clamp_gain_q15 (x : Z) : Z :=
  if x <? 0 then 0 else if x >? 65536 then 65536 else x.

(** Assigns the mode, timestamp, mask and every filter, delay and reverb
    state; assigns none of the nine parameters. *)
Definition AppDsp_Init (st : State) : State :=
  let c := core st in
  {| core :=
       {| s_mode := APP_FX_MODE_BYPASS; s_button_last_ms := 0; s_fx_mask := 0;
          s_gain_q15 := s_gain_q15 c;
          filters := DspFilters_Init;
          dist := {| s_dist_drive_q8 := s_dist_drive_q8 (dist c);
                     s_dist_l := dist_zero; s_dist_r := dist_zero |};
          delay := {| s_delay_mix_q15 := s_delay_mix_q15 (delay c);
                      s_delay_feedback_q15 := s_delay_feedback_q15 (delay c);
                      s_delay_buf_l := zeros DELAY_LEN;
                      s_delay_buf_r := zeros DELAY_LEN;
                      s_delay_l := delay_zero; s_delay_r := delay_zero |};
          reverb := {| s_reverb_mix_q15 := s_reverb_mix_q15 (reverb c);
                       s_reverb_feedback_q15 := s_reverb_feedback_q15 (reverb c);
                       s_reverb_damp_q15 := s_reverb_damp_q15 (reverb c);
                       s_reverb_l := reverb_chan_zero;
                       s_reverb_r := reverb_chan_zero |} |};
     s_delay_mix_all_q15 := s_delay_mix_all_q15 st;
     s_reverb_mix_all_q15 := s_reverb_mix_all_q15 st |}.

Definition on_core (f : AppState -> AppState) (st : State) : State :=
  {| core := f (core st);
     s_delay_mix_all_q15 := s_delay_mix_all_q15 st;
     s_reverb_mix_all_q15 := s_reverb_mix_all_q15 st |}.

(** Same statements as in the modular unit. *)
Definition AppDsp_OnButtonPress (now_ms : Z) : State -> State :=
  on_core (AppDsp_OnButtonPress now_ms).
Definition AppDsp_GetMode (st : State) : AppFxMode := s_mode (core st).
Definition AppDsp_SetFxMask (mask : Z) : State -> State :=
  on_core (AppDsp_SetFxMask mask).
Definition AppDsp_GetFxMask (st : State) : Z := s_fx_mask (core st).

Definition set_drive (v : Z) (c : AppState) : AppState :=
  with_units (s_gain_q15 c)
    {| s_dist_drive_q8 := v; s_dist_l := s_dist_l (dist c); s_dist_r := s_dist_r (dist c) |}
    (delay c) (reverb c) c.

Definition set_delay_params (mix fbk : Z) (c : AppState) : AppState :=
  let D := delay c in
  with_units (s_gain_q15 c) (dist c)
    {| s_delay_mix_q15 := mix; s_delay_feedback_q15 := fbk;
       s_delay_buf_l := s_delay_buf_l D; s_delay_buf_r := s_delay_buf_r D;
       s_delay_l := s_delay_l D; s_delay_r := s_delay_r D |}
    (reverb c) c.

Definition set_reverb_params (mix fbk damp : Z) (c : AppState) : AppState :=
  let R := reverb c in
  with_units (s_gain_q15 c) (dist c) (delay c)
    {| s_reverb_mix_q15 := mix; s_reverb_feedback_q15 := fbk;
       s_reverb_damp_q15 := damp;
       s_reverb_l := s_reverb_l R; s_reverb_r := s_reverb_r R |} c.

Definition AppDsp_SetParam (id : AppDspParamId) (value : Z) (st : State) : State :=
  let c := core st in
  let D := delay c in
  let R := reverb c in
  match id with
  | APP_DSP_PARAM_DIST_DRIVE_Q8 =>
      let value := if value <? 0 then 0 else value in
      let value := if value >? 131072 then 131072 else value in
      on_core (set_drive value) st
  | APP_DSP_PARAM_DELAY_MIX_Q15 =>
      on_core (set_delay_params (clamp_q15 value) (s_delay_feedback_q15 D)) st
  | APP_DSP_PARAM_DELAY_FEEDBACK_Q15 =>
      on_core (set_delay_params (s_delay_mix_q15 D) (clamp_q15 value)) st
  | APP_DSP_PARAM_REVERB_MIX_Q15 =>
      on_core (set_reverb_params (clamp_q15 value) (s_reverb_feedback_q15 R)
                                 (s_reverb_damp_q15 R)) st
  | APP_DSP_PARAM_REVERB_FEEDBACK_Q15 =>
      on_core (set_reverb_params (s_reverb_mix_q15 R) (clamp_q15 value)
                                 (s_reverb_damp_q15 R)) st
  | APP_DSP_PARAM_REVERB_DAMP_Q15 =>
      on_core (set_reverb_params (s_reverb_mix_q15 R) (s_reverb_feedback_q15 R)
                                 (clamp_q15 value)) st
  | APP_DSP_PARAM_GAIN_Q15 =>
      on_core (fun c => with_units (clamp_gain_q15 value) (dist c) (delay c) (reverb c) c) st
  end.

Definition AppDsp_GetParam (id : AppDspParamId) (st : State) : Z :=
  let c := core st in
  match id with
  | APP_DSP_PARAM_DIST_DRIVE_Q8 => s_dist_drive_q8 (dist c)
  | APP_DSP_PARAM_DELAY_MIX_Q15 => s_delay_mix_q15 (delay c)
  | APP_DSP_PARAM_DELAY_FEEDBACK_Q15 => s_delay_feedback_q15 (delay c)
  | APP_DSP_PARAM_REVERB_MIX_Q15 => s_reverb_mix_q15 (reverb c)
  | APP_DSP_PARAM_REVERB_FEEDBACK_Q15 => s_reverb_feedback_q15 (reverb c)
  | APP_DSP_PARAM_REVERB_DAMP_Q15 => s_reverb_damp_q15 (reverb c)
  | APP_DSP_PARAM_GAIN_Q15 => s_gain_q15 c
  end.

Definition AppDsp_ProcessFrame (st : State) (l r : Z) : State * (Z * Z) :=
  let c := core st in
  let F := filters c in
  let mask := s_fx_mask c in
  let has_dist := negb (Z.land mask APP_FX_BIT_DISTORTION =? 0) in
  let has_rev := negb (Z.land mask APP_FX_BIT_REVERB =? 0) in
  let has_del := negb (Z.land mask APP_FX_BIT_DELAY =? 0) in
  let fx_count := (if has_dist then 1 else 0) + (if has_rev then 1 else 0)
                  + (if has_del then 1 else 0) in
  let '(dc_l, l) := dc_block_s24 (s_dc_l F) l in
  let '(dc_r, r) := dc_block_s24 (s_dc_r F) r in
  let '(chpf_l, l) := hpf1_s24 (s_clean_hpf_l F) l CLEAN_HPF_R_Q15 in
  let '(chpf_r, r) := hpf1_s24 (s_clean_hpf_r F) r CLEAN_HPF_R_Q15 in
  let l := gain_s32_q8 l AUDIO_INPUT_GAIN_Q8 in
  let r := gain_s32_q8 r AUDIO_INPUT_GAIN_Q8 in
  let '(comp_l, comp_r, (l, r)) := clean_comp_process_s24 (s_comp_l F) (s_comp_r F) l r in
  (* always-on coloration *)
  let l := input_color_process_s24 l in
  let r := input_color_process_s24 r in
  let '(dist', cab_l, cab_r, (l, r)) :=
    if has_dist then
      let drive := s_dist_drive_q8 (dist c) in
      let '(dl, l) := distortion_process_s24 drive (s_dist_l (dist c)) (clamp_s24 l) in
      let '(dr, r) := distortion_process_s24 drive (s_dist_r (dist c)) (clamp_s24 r) in
      let '(cab_l, l) := cab_lpf_process_s24 (s_cab_l F) l in
      let '(cab_r, r) := cab_lpf_process_s24 (s_cab_r F) r in
      ({| s_dist_drive_q8 := drive; s_dist_l := dl; s_dist_r := dr |},
       cab_l, cab_r, (l, r))
    else (dist c, s_cab_l F, s_cab_r F, (l, r)) in
  let '(delay', whd_l, whd_r, wld_l, wld_r, (l, r)) :=
    if has_del then
      let D := delay c in
      let fbk := s_delay_feedback_q15 D in
      let '(buf_l, dst_l, wl) :=
        delay_process_s24 fbk (clamp_s24 l) (s_delay_buf_l D) (s_delay_l D) in
      let '(buf_r, dst_r, wr) :=
        delay_process_s24 fbk (clamp_s24 r) (s_delay_buf_r D) (s_delay_r D) in
      let '(whd_l, wl) := hpf1_s24 (s_wet_hpf_delay_l F) wl WET_HPF_R_Q15 in
      let '(whd_r, wr) := hpf1_s24 (s_wet_hpf_delay_r F) wr WET_HPF_R_Q15 in
      let '(wld_l, wl) := onepole_lpf_s24 wl (s_wet_lpf_delay_l F) WET_LPF_A_Q15 in
      let '(wld_r, wr) := onepole_lpf_s24 wr (s_wet_lpf_delay_r F) WET_LPF_A_Q15 in
      let mix := s_delay_mix_q15 D in
      let mix := if fx_count >? 1 then Z.quot (mul32 mix 3) 4 else mix in
      let l := mix_s24 (clamp_s24 l) wl mix in
      let r := mix_s24 (clamp_s24 r) wr mix in
      ({| s_delay_mix_q15 := s_delay_mix_q15 D;
          s_delay_feedback_q15 := fbk;
          s_delay_buf_l := buf_l; s_delay_buf_r := buf_r;
          s_delay_l := dst_l; s_delay_r := dst_r |},
       whd_l, whd_r, wld_l, wld_r, (l, r))
    else (delay c, s_wet_hpf_delay_l F, s_wet_hpf_delay_r F,
          s_wet_lpf_delay_l F, s_wet_lpf_delay_r F, (l, r)) in
  let '(reverb', whr_l, whr_r, wlr_l, wlr_r, (l, r)) :=
    if has_rev then
      let R := reverb c in
      let fbk := s_reverb_feedback_q15 R in
      let damp := s_reverb_damp_q15 R in
      let '(ch_l, wl) :=
        reverb_process_s24 fbk damp (clamp_s24 l) (s_reverb_l R) REVERB_MOD_STEP_L in
      let '(ch_r, wr) :=
        reverb_process_s24 fbk damp (clamp_s24 r) (s_reverb_r R) REVERB_MOD_STEP_R in
      let '(whr_l, wl) := hpf1_s24 (s_wet_hpf_reverb_l F) wl WET_HPF_R_Q15 in
      let '(whr_r, wr) := hpf1_s24 (s_wet_hpf_reverb_r F) wr WET_HPF_R_Q15 in
      let '(wlr_l, wl) := onepole_lpf_s24 wl (s_wet_lpf_reverb_l F) WET_LPF_A_Q15 in
      let '(wlr_r, wr) := onepole_lpf_s24 wr (s_wet_lpf_reverb_r F) WET_LPF_A_Q15 in
      let mix := if fx_count >? 1 then s_reverb_mix_all_q15 st
                 else s_reverb_mix_q15 R in
      let l := mix_s24 (clamp_s24 l) wl mix in
      let r := mix_s24 (clamp_s24 r) wr mix in
      ({| s_reverb_mix_q15 := s_reverb_mix_q15 R;
          s_reverb_feedback_q15 := fbk; s_reverb_damp_q15 := damp;
          s_reverb_l := ch_l; s_reverb_r := ch_r |},
       whr_l, whr_r, wlr_l, wlr_r, (l, r))
    else (reverb c, s_wet_hpf_reverb_l F, s_wet_hpf_reverb_r F,
          s_wet_lpf_reverb_l F, s_wet_lpf_reverb_r F, (l, r)) in
  let makeup_q8 := AUDIO_MAKEUP_GAIN_Q8 in
  let makeup_q8 := if negb (mask =? 0) then Z.quot (mul32 makeup_q8 3) 4 else makeup_q8 in
  let l := gain_s32_q8 l makeup_q8 in
  let r := gain_s32_q8 r makeup_q8 in
  let l := clamp_s24 (to_int32 (Z.shiftr (l * s_gain_q15 c) 15)) in
  let r := clamp_s24 (to_int32 (Z.shiftr (r * s_gain_q15 c) 15)) in
  let '(lim, (l, r)) := limiter_process_s24 (s_limiter F) l r in
  ({| core :=
        {| s_mode := s_mode c; s_button_last_ms := s_button_last_ms c;
           s_fx_mask := s_fx_mask c; s_gain_q15 := s_gain_q15 c;
           filters :=
             {| s_limiter := lim;
                s_dc_l := dc_l; s_dc_r := dc_r;
                s_clean_hpf_l := chpf_l; s_clean_hpf_r := chpf_r;
                s_wet_hpf_delay_l := whd_l; s_wet_hpf_delay_r := whd_r;
                s_wet_hpf_reverb_l := whr_l; s_wet_hpf_reverb_r := whr_r;
                s_comp_l := comp_l; s_comp_r := comp_r;
                s_cab_l := cab_l; s_cab_r := cab_r;
                s_wet_lpf_delay_l := wld_l; s_wet_lpf_delay_r := wld_r;
                s_wet_lpf_reverb_l := wlr_l; s_wet_lpf_reverb_r := wlr_r |};
           dist := dist'; delay := delay'; reverb := reverb' |};
      s_delay_mix_all_q15 := s_delay_mix_all_q15 st;
      s_reverb_mix_all_q15 := s_reverb_mix_all_q15 st |},
   (clamp_s24 l, clamp_s24 r)).

Fixpoint process_frames (st : State) (frames : list (Z * Z)) : State * list (Z * Z) :=
  match frames with
  | [] => (st, [])
  | (l, r) :: rest =>
      let '(st, out) := AppDsp_ProcessFrame st l r in
      let '(st, outs) := process_frames st rest in
      (st, out :: outs)
  end.

End Mono.

(** ** audio/app_audio.c: sample packing and the RX-to-TX frame ring

    The interrupt masking of the C code is not modelled: each function is
    one atomic step on the statics it touches. *)

Definition to_uint16 (x : Z) : Z := x mod 65536.

Definition AUDIO_FRAMES_PER_HALF : Z := 64.
Definition AUDIO_HALFWORDS_PER_FRAME : Z := 2 * 2.
Definition AUDIO_HALFWORDS_PER_HALF : Z := AUDIO_FRAMES_PER_HALF * AUDIO_HALFWORDS_PER_FRAME.
Definition AUDIO_HALFWORDS_TOTAL : Z := 2 * AUDIO_HALFWORDS_PER_HALF.
Definition AUDIO_RING_FRAMES : Z := 256.
Definition AUDIO_RING_MASK : Z := AUDIO_RING_FRAMES - 1.

Record AudioState := {
  s_i2s_rx_buf : list Z;     (* uint16_t [AUDIO_HALFWORDS_TOTAL] *)
  s_i2s_tx_buf : list Z;     (* uint16_t [AUDIO_HALFWORDS_TOTAL] *)
  s_ring_l : list Z;         (* int32_t [AUDIO_RING_FRAMES] *)
  s_ring_r : list Z;
  s_ring_w : Z;              (* uint32_t, frame index *)
  s_ring_r_q16 : Z;          (* uint32_t, Q16.16 frame index *)
  s_ring_underrun : Z;       (* uint32_t *)
  s_ring_overflow : Z;       (* uint32_t *)
  fill_err_filt : Z          (* static local of tx_fill_half *)
}.

Definition ring_fill_frames (w r_int : Z) : Z :=
  Z.land (to_uint32 (w - r_int)) AUDIO_RING_MASK.

(** [p0], [p1] are the two halfwords [p[0]], [p[1]] of the slot. *)
Definition lj24in32_to_s24 (p0 p1 : Z) : Z :=
  let w := Z.lor (to_uint32 (Z.shiftl p0 16)) p1 in
  Z.shiftr (to_int32 w) 8.

(** Returns the halfwords written to [p[0]] and [p[1]]. *)
Definition s24_to_lj24in32 (s24 : Z) : Z * Z :=
  let x := clamp_s24 s24 in
  let w := to_uint32 (to_int32 (Z.shiftl x 8)) in
  (to_uint16 (Z.shiftr w 16), to_uint16 (Z.land w 65535)).

Definition ring_push_frames_s24 (l r : Z) (a : AudioState) : AudioState :=
  let w := s_ring_w a in
  let r_int := Z.shiftr (s_ring_r_q16 a) 16 in
  let fill := ring_fill_frames w r_int in
  let drop := fill >=? AUDIO_RING_FRAMES - 2 in
  {| s_i2s_rx_buf := s_i2s_rx_buf a;
     s_i2s_tx_buf := s_i2s_tx_buf a;
     s_ring_l := arr_set (s_ring_l a) w l;
     s_ring_r := arr_set (s_ring_r a) w r;
     s_ring_w := Z.land (to_uint32 (w + 1)) AUDIO_RING_MASK;
     s_ring_r_q16 :=
       if drop then to_uint32 (s_ring_r_q16 a + Z.shiftl 1 16) else s_ring_r_q16 a;
     s_ring_underrun := s_ring_underrun a;
     s_ring_overflow :=
       if drop then to_uint32 (s_ring_overflow a + 1) else s_ring_overflow a;
     fill_err_filt := fill_err_filt a |}.

(** The body of the frame loop of [process_rx_half], for frames
    [frame, frame + 1, ..., frame + count - 1] of the half at [base]. *)
Fixpoint process_rx_frames (count : nat) (frame base : Z) (st : AppState) (a : AudioState)
  : AppState * AudioState :=
  match count with
  | O => (st, a)
  | S count' =>
      let o := frame * AUDIO_HALFWORDS_PER_FRAME in
      let rx := s_i2s_rx_buf a in
      let l := lj24in32_to_s24 (arr_get rx (base + o + 0)) (arr_get rx (base + o + 0 + 1)) in
      let r := lj24in32_to_s24 (arr_get rx (base + o + 2)) (arr_get rx (base + o + 2 + 1)) in
      let '(st, (l, r)) := AppDsp_ProcessFrame st l r in
      let a := ring_push_frames_s24 l r a in
      process_rx_frames count' (frame + 1) base st a
  end.

Definition process_rx_half (half_index : Z) (st : AppState) (a : AudioState)
  : AppState * AudioState :=
  let base := if half_index =? 0 then 0 else AUDIO_HALFWORDS_PER_HALF in
  process_rx_frames (Z.to_nat AUDIO_FRAMES_PER_HALF) 0 base st a.

(** The body of the frame loop of [tx_fill_half]: [r_q16] is the local read
    cursor, [w_snapshot] and [step_q16] are fixed before the loop. *)
Fixpoint tx_fill_frames (count : nat) (frame base w_snapshot step_q16 r_q16 : Z)
    (a : AudioState) : Z * AudioState :=
  match count with
  | O => (r_q16, a)
  | S count' =>
      let idx0 := Z.land (Z.shiftr r_q16 16) AUDIO_RING_MASK in
      let idx1 := Z.land (to_uint32 (idx0 + 1)) AUDIO_RING_MASK in
      let frac := Z.land r_q16 65535 in
      let have := ring_fill_frames w_snapshot (Z.shiftr r_q16 16) in
      let l0 := arr_get (s_ring_l a) idx0 in
      let l1 := arr_get (s_ring_l a) idx1 in
      let r0s := arr_get (s_ring_r a) idx0 in
      let r1s := arr_get (s_ring_r a) idx1 in
      let l_out :=
        if have >=? 2 then add32 l0 (to_int32 (Z.shiftr (sub32 l1 l0 * frac) 16)) else 0 in
      let r_out :=
        if have >=? 2 then add32 r0s (to_int32 (Z.shiftr (sub32 r1s r0s * frac) 16)) else 0 in
      let underrun :=
        if have >=? 2 then s_ring_underrun a else to_uint32 (s_ring_underrun a + 1) in
      let o := frame * AUDIO_HALFWORDS_PER_FRAME in
      let pl := s24_to_lj24in32 l_out in
      let pr := s24_to_lj24in32 r_out in
      let tx := s_i2s_tx_buf a in
      let tx := arr_set (arr_set tx (base + o + 0) pl.1) (base + o + 0 + 1) pl.2 in
      let tx := arr_set (arr_set tx (base + o + 2) pr.1) (base + o + 2 + 1) pr.2 in
      let a := {| s_i2s_rx_buf := s_i2s_rx_buf a;
                  s_i2s_tx_buf := tx;
                  s_ring_l := s_ring_l a;
                  s_ring_r := s_ring_r a;
                  s_ring_w := s_ring_w a;
                  s_ring_r_q16 := s_ring_r_q16 a;
                  s_ring_underrun := underrun;
                  s_ring_overflow := s_ring_overflow a;
                  fill_err_filt := fill_err_filt a |} in
      tx_fill_frames count' (frame + 1) base w_snapshot step_q16
        (to_uint32 (r_q16 + to_uint32 step_q16)) a
  end.

Definition tx_fill_half (half_index : Z) (a : AudioState) : AudioState :=
  let base := if half_index =? 0 then 0 else AUDIO_HALFWORDS_PER_HALF in
  let target := to_int32 (AUDIO_RING_FRAMES / 2) in
  let step_base_q16 := Z.shiftl 1 16 in
  let step_limit := 128 in
  let w_snapshot := s_ring_w a in
  let r_q16 := s_ring_r_q16 a in
  let r_int := Z.shiftr r_q16 16 in
  let fill := to_int32 (ring_fill_frames w_snapshot r_int) in
  let err := sub32 fill target in
  let filt := add32 (fill_err_filt a) (Z.shiftr (sub32 err (fill_err_filt a)) 4) in
  let step_q16 := add32 step_base_q16 filt in
  let step_q16 :=
    if step_q16 <? step_base_q16 - step_limit then step_base_q16 - step_limit
    else step_q16 in
  let step_q16 :=
    if step_q16 >? step_base_q16 + step_limit then step_base_q16 + step_limit
    else step_q16 in
  let a := {| s_i2s_rx_buf := s_i2s_rx_buf a;
              s_i2s_tx_buf := s_i2s_tx_buf a;
              s_ring_l := s_ring_l a;
              s_ring_r := s_ring_r a;
              s_ring_w := s_ring_w a;
              s_ring_r_q16 := s_ring_r_q16 a;
              s_ring_underrun := s_ring_underrun a;
              s_ring_overflow := s_ring_overflow a;
              fill_err_filt := filt |} in
  let '(r_q16, a) :=
    tx_fill_frames (Z.to_nat AUDIO_FRAMES_PER_HALF) 0 base w_snapshot step_q16 r_q16 a in
  {| s_i2s_rx_buf := s_i2s_rx_buf a;
     s_i2s_tx_buf := s_i2s_tx_buf a;
     s_ring_l := s_ring_l a;
     s_ring_r := s_ring_r a;
     s_ring_w := s_ring_w a;
     s_ring_r_q16 := r_q16;
     s_ring_underrun := s_ring_underrun a;
     s_ring_overflow := s_ring_overflow a;
     fill_err_filt := fill_err_filt a |}.

(** ** communication/app_com.c: the UART byte rings and line assembly

    The UART handle is taken to be set (the state after [AppCom_Init] with
    a handle). Interrupt masking is not modelled: each function is one
    atomic step. What the HAL does is a parameter: the byte or burst it
    received, and whether [HAL_UART_Transmit_IT] accepted a transfer. *)

Definition APP_COM_TX_RING_SIZE : Z := 512.
Definition APP_COM_RX_RING_SIZE : Z := 1024.
Definition APP_COM_LINE_MAX : Z := 160.
Definition APP_COM_RX_DMA_SIZE : Z := 512.

Inductive AppComRxMode :=
  | APP_COM_RX_MODE_BYTE
  | APP_COM_RX_MODE_IDLE_IT
  | APP_COM_RX_MODE_IDLE_DMA.

Record ComState := {
  s_rx_ring : list Z;        (* uint8_t [APP_COM_RX_RING_SIZE] *)
  s_rx_wr : Z;               (* uint16_t *)
  s_rx_rd : Z;               (* uint16_t *)
  s_line : list Z;           (* char [APP_COM_LINE_MAX] *)
  s_line_len : Z;            (* uint16_t *)
  s_tx_ring : list Z;        (* uint8_t [APP_COM_TX_RING_SIZE] *)
  s_tx_wr : Z;               (* uint16_t *)
  s_tx_rd : Z;               (* uint16_t *)
  s_tx_busy : Z;             (* uint8_t *)
  s_tx_last_len : Z;         (* uint16_t *)
  s_rx_mode : AppComRxMode
}.

Definition set_rx (c : ComState) (ring : list Z) (wr rd : Z) : ComState :=
  {| s_rx_ring := ring; s_rx_wr := wr; s_rx_rd := rd;
     s_line := s_line c; s_line_len := s_line_len c;
     s_tx_ring := s_tx_ring c; s_tx_wr := s_tx_wr c; s_tx_rd := s_tx_rd c;
     s_tx_busy := s_tx_busy c; s_tx_last_len := s_tx_last_len c;
     s_rx_mode := s_rx_mode c |}.

Definition set_line (c : ComState) (line : list Z) (len : Z) : ComState :=
  {| s_rx_ring := s_rx_ring c; s_rx_wr := s_rx_wr c; s_rx_rd := s_rx_rd c;
     s_line := line; s_line_len := len;
     s_tx_ring := s_tx_ring c; s_tx_wr := s_tx_wr c; s_tx_rd := s_tx_rd c;
     s_tx_busy := s_tx_busy c; s_tx_last_len := s_tx_last_len c;
     s_rx_mode := s_rx_mode c |}.

Definition set_tx (c : ComState) (ring : list Z) (wr rd busy last_len : Z) : ComState :=
  {| s_rx_ring := s_rx_ring c; s_rx_wr := s_rx_wr c; s_rx_rd := s_rx_rd c;
     s_line := s_line c; s_line_len := s_line_len c;
     s_tx_ring := ring; s_tx_wr := wr; s_tx_rd := rd;
     s_tx_busy := busy; s_tx_last_len := last_len;
     s_rx_mode := s_rx_mode c |}.

Definition ring_next (idx : Z) : Z :=
  to_uint16 (Z.rem (to_uint32 (idx + 1)) APP_COM_RX_RING_SIZE).

Definition tx_ring_next (idx : Z) : Z :=
  to_uint16 (Z.rem (to_uint32 (idx + 1)) APP_COM_TX_RING_SIZE).

Definition tx_ring_free (c : ComState) : Z :=
  let rd := s_tx_rd c in
  let wr := s_tx_wr c in
  if wr >=? rd
  then to_uint16 (to_uint32 (to_uint32 (APP_COM_TX_RING_SIZE - (wr - rd)) - 1))
  else to_uint16 (to_uint32 ((rd - wr) - 1)).

(** [tx_kick]: [hal_ok] is whether [HAL_UART_Transmit_IT] returns [HAL_OK];
    the second component is the transfer requested of the HAL, as the
    offset into [s_tx_ring] and the length. *)
Definition tx_kick (hal_ok : bool) (c : ComState) : ComState * option (Z * Z) :=
  if negb (s_tx_busy c =? 0) then (c, None)
  else
    let rd := s_tx_rd c in
    let wr := s_tx_wr c in
    if rd =? wr then (c, None)
    else
      let len :=
        if wr >? rd then to_uint16 (wr - rd)
        else to_uint16 (to_uint32 (APP_COM_TX_RING_SIZE - rd)) in
      if hal_ok
      then (set_tx c (s_tx_ring c) wr rd 1 len, Some (rd, len))
      else (set_tx c (s_tx_ring c) wr rd 0 0, Some (rd, len)).

(** The copy loop of [tx_enqueue_bytes]. *)
Fixpoint tx_copy (data : list Z) (c : ComState) : ComState :=
  match data with
  | [] => c
  | b :: data' =>
      let c := set_tx c (arr_set (s_tx_ring c) (s_tx_wr c) b)
                 (tx_ring_next (s_tx_wr c)) (s_tx_rd c)
                 (s_tx_busy c) (s_tx_last_len c) in
      tx_copy data' c
  end.

(** [tx_enqueue_bytes (data, len)] with [len] the number of bytes of [data]. *)
Definition tx_enqueue_bytes (hal_ok : bool) (data : list Z) (c : ComState)
  : ComState * option (Z * Z) :=
  let len := Z.of_nat (length data) in
  if len =? 0 then (c, None)
  else if tx_ring_free c <? len then (c, None)
  else tx_kick hal_ok (tx_copy data c).

Definition AppCom_OnUartTxCplt (hal_ok : bool) (c : ComState)
  : ComState * option (Z * Z) :=
  let sent := s_tx_last_len c in
  let rd :=
    if sent >? 0
    then to_uint16 (Z.rem (to_uint32 (s_tx_rd c + sent)) APP_COM_TX_RING_SIZE)
    else s_tx_rd c in
  tx_kick hal_ok (set_tx c (s_tx_ring c) (s_tx_wr c) rd 0 0).

(** The ring write both receive callbacks perform for a byte [b]: the byte
    is dropped when the ring is full. *)
Definition rx_store (b : Z) (c : ComState) : ComState :=
  let next := ring_next (s_rx_wr c) in
  if negb (next =? s_rx_rd c)
  then set_rx c (arr_set (s_rx_ring c) (s_rx_wr c) b) next (s_rx_rd c)
  else c.

(** [AppCom_OnUartRxCplt]; [rx_byte] is what the HAL left in [s_rx_byte]. *)
Definition AppCom_OnUartRxCplt (rx_byte : Z) (c : ComState) : ComState :=
  match s_rx_mode c with
  | APP_COM_RX_MODE_BYTE => rx_store rx_byte c
  | _ => c
  end.

Fixpoint rx_store_burst (count : nat) (i : Z) (rx_dma : list Z) (c : ComState) : ComState :=
  match count with
  | O => c
  | S count' => rx_store_burst count' (i + 1) rx_dma (rx_store (arr_get rx_dma i) c)
  end.

(** [AppCom_OnUartRxEvent]; [rx_dma] is what the HAL left in [s_rx_dma]. *)
Definition AppCom_OnUartRxEvent (rx_dma : list Z) (size : Z) (c : ComState) : ComState :=
  match s_rx_mode c with
  | APP_COM_RX_MODE_BYTE => c
  | _ =>
      let n := if size >? APP_COM_RX_DMA_SIZE then APP_COM_RX_DMA_SIZE else size in
      rx_store_burst (Z.to_nat n) 0 rx_dma c
  end.

(** The C string that starts a buffer: its bytes before the first NUL. *)
Fixpoint c_string (buf : list Z) : list Z :=
  match buf with
  | [] => []
  | b :: buf' => if b =? 0 then [] else b :: c_string buf'
  end.

(** The loop of [AppCom_Poll]. [handle_line] is not part of the model: the
    second component collects the strings it is called with, and
    [edit] stands for what it leaves in the line buffer, which it
    modifies in place. The loop runs at most once for each ring entry. *)
Fixpoint poll_loop (edit : list Z -> list Z) (fuel : nat) (c : ComState)
    (lines : list (list Z)) : ComState * list (list Z) :=
  match fuel with
  | O => (c, lines)
  | S fuel' =>
      if s_rx_rd c =? s_rx_wr c then (c, lines)
      else
        let b := arr_get (s_rx_ring c) (s_rx_rd c) in
        let c := set_rx c (s_rx_ring c) (s_rx_wr c) (ring_next (s_rx_rd c)) in
        if b =? 10 then
          let line := arr_set (s_line c) (s_line_len c) 0 in
          poll_loop edit fuel' (set_line c (edit line) 0) (lines ++ [c_string line])
        else if b =? 13 then poll_loop edit fuel' c lines
        else if to_uint32 (s_line_len c + 1) <? APP_COM_LINE_MAX
        then poll_loop edit fuel'
               (set_line c (arr_set (s_line c) (s_line_len c) b)
                  (to_uint16 (s_line_len c + 1))) lines
        else poll_loop edit fuel' (set_line c (s_line c) 0) lines
  end.

Definition AppCom_Poll (edit : list Z -> list Z) (c : ComState)
  : ComState * list (list Z) :=
  poll_loop edit (Z.to_nat APP_COM_RX_RING_SIZE) c [].

(** ** Specification-side vocabulary *)

(** The mask that stands for a legacy mode. *)
Definition mask_for_mode (m : AppFxMode) : Z :=
  match m with
  | APP_FX_MODE_BYPASS => 0
  | APP_FX_MODE_DISTORTION => 1
  | APP_FX_MODE_REVERB => 2
  | APP_FX_MODE_DELAY => 4
  | APP_FX_MODE_ALL => 7
  end.

(** The cycle bypass, distortion, reverb, delay, all, bypass. *)
Definition next_mode (m : AppFxMode) : AppFxMode :=
  match m with
  | APP_FX_MODE_BYPASS => APP_FX_MODE_DISTORTION
  | APP_FX_MODE_DISTORTION => APP_FX_MODE_REVERB
  | APP_FX_MODE_REVERB => APP_FX_MODE_DELAY
  | APP_FX_MODE_DELAY => APP_FX_MODE_ALL
  | APP_FX_MODE_ALL => APP_FX_MODE_BYPASS
  end.

(** Number of effect bits set in a mask. *)
Definition fx_bits_set (mask : Z) : Z :=
  Z.b2z (Z.testbit mask 0) + Z.b2z (Z.testbit mask 1) + Z.b2z (Z.testbit mask 2).

(** Documented upper bound of each parameter (the lower bound is 0). *)
Definition param_max (id : AppDspParamId) : Z :=
  match id with
  | APP_DSP_PARAM_DIST_DRIVE_Q8 => 131072
  | APP_DSP_PARAM_GAIN_Q15 => 65536
  | _ => 32768
  end.

(** Documented default of each parameter. *)
Definition param_default (id : AppDspParamId) : Z :=
  match id with
  | APP_DSP_PARAM_DIST_DRIVE_Q8 => 40960
  | APP_DSP_PARAM_DELAY_MIX_Q15 => 11469
  | APP_DSP_PARAM_DELAY_FEEDBACK_Q15 => 16384
  | APP_DSP_PARAM_REVERB_MIX_Q15 => 9830
  | APP_DSP_PARAM_REVERB_FEEDBACK_Q15 => 22000
  | APP_DSP_PARAM_REVERB_DAMP_Q15 => 8192
  | APP_DSP_PARAM_GAIN_Q15 => 32768
  end.

(** [v] clamped into [[lo, hi]]. *)
Definition clamp_into (lo hi v : Z) : Z := Z.max lo (Z.min hi v).

(** A press at [now_ms] passes the debounce test of [AppDsp_OnButtonPress]. *)
Definition press_accepted (now_ms : Z) (st : AppState) : Prop :=
  300 <= to_uint32 (now_ms - s_button_last_ms st).

(** Every filter memory, buffer and cursor has its reset value. *)
Definition state_cleared (st : AppState) : Prop :=
  filters st = DspFilters_Init /\
  s_dist_l (dist st) = dist_zero /\ s_dist_r (dist st) = dist_zero /\
  s_delay_l (delay st) = delay_zero /\ s_delay_r (delay st) = delay_zero /\
  s_delay_buf_l (delay st) = zeros DELAY_LEN /\
  s_delay_buf_r (delay st) = zeros DELAY_LEN /\
  s_reverb_l (reverb st) = reverb_chan_zero /\
  s_reverb_r (reverb st) = reverb_chan_zero.

(** The gain the limiter stores, written without machine arithmetic:
    [target] when it is below the stored gain (attack), else the stored gain
    moved toward [target] by 16/32768 of the distance (release). *)
Definition limiter_next_gain (g target : Z) : Z :=
  if target <? g then target
  else g + AUDIO_LIMITER_RELEASE_Q15 * (target - g) / 32768.

(** The limiter's target gain in Q15: threshold over peak above the
    threshold, unity otherwise. *)
Definition limiter_target (peak : Z) : Z :=
  if peak >? AUDIO_LIMITER_THRESH_S24
  then AUDIO_LIMITER_THRESH_S24 * 32768 / peak
  else 32768.

(** The limiter state after a run of frames. *)
Definition limiter_run (st : LimiterState) (frames : list (Z * Z)) : LimiterState :=
  fold_left (fun st f => (DspFilters_Limiter st f.1 f.2).1) frames st.

(** A run of the delay over a stream of input samples: the final buffer
    and state, and the returned samples in call order. *)
Fixpoint delay_run (feedback_q15 : Z) (xs : list Z) (buf : list Z) (st : DelayState)
  : list Z * DelayState * list Z :=
  match xs with
  | [] => (buf, st, [])
  | x :: rest =>
      let '(buf, st, y) := DspDelay_Process feedback_q15 x buf st in
      let '(buf, st, ys) := delay_run feedback_q15 rest buf st in
      (buf, st, y :: ys)
  end.

(** A run of one reverb channel over a stream of input samples. *)
Fixpoint reverb_run (feedback_q15 damp_q15 lfo_step : Z) (xs : list Z) (c : ReverbChan)
  : ReverbChan * list Z :=
  match xs with
  | [] => (c, [])
  | x :: rest =>
      let '(c, y) := DspReverb_Process feedback_q15 damp_q15 x c lfo_step in
      let '(c, ys) := reverb_run feedback_q15 damp_q15 lfo_step rest c in
      (c, y :: ys)
  end.

(** What the delay keeps true between calls. *)
Definition delay_inv (buf : list Z) (st : DelayState) : Prop :=
  Forall in_s16 buf /\
  0 <= idx st < DELAY_LEN /\
  0 <= phase st < DELAY_DECIM /\
  in_s24 (last_out_s24 st) /\
  in_s24 (fb_lp_s24 st).

(** What one reverb channel keeps true between calls. *)
Definition reverb_inv (c : ReverbChan) : Prop :=
  Forall in_s24 (rv_delay c) /\ Forall in_s24 (rv_ap c).

(** An update tick of the delay in the words of the specification, in
    plain integer arithmetic: read at the cursor, low-pass the read value
    into the feedback filter, scale by the feedback, add the input,
    saturate, write at the cursor (at the 16-bit depth of the storage),
    advance the cursor modulo the length, hold the value read. *)
Definition delay_update_tick (feedback_q15 x : Z) (buf : list Z) (st : DelayState)
  : list Z * DelayState * Z :=
  let cursor := idx st in
  let delayed := arr_get buf cursor * 256 in
  let damped :=
    clamp_s24 (fb_lp_s24 st + DELAY_FB_LPF_A_Q15 * (delayed - fb_lp_s24 st) / 32768) in
  let fed_back := feedback_q15 * damped / 32768 in
  let written := clamp_s24 (x + fed_back) in
  (arr_set buf cursor (written / 256),
   {| idx := (cursor + 1) mod DELAY_LEN; phase := 1;
      last_out_s24 := delayed; fb_lp_s24 := damped |},
   delayed).

(** A hold tick: only the phase counter moves. *)
Definition delay_hold_tick (buf : list Z) (st : DelayState) : list Z * DelayState * Z :=
  (buf,
   {| idx := idx st; phase := (phase st + 1) mod DELAY_DECIM;
      last_out_s24 := last_out_s24 st; fb_lp_s24 := fb_lp_s24 st |},
   last_out_s24 st).

(** The reverb as the specification words it: the two allpass stages are
    fed with the damped tap [lpv]. Everything else is as in
    [DspReverb_Process]. *)
Definition reverb_process_damped_diffusion (feedback_q15 damp_q15 : Z) (x : Z)
    (c : ReverbChan) (lfo_step : Z) : ReverbChan * Z :=
  let i := rv_delay_idx c in
  let '(lfo_phase, mod_q8) :=
    triangle_lfo_offset_q8 (rv_lfo c) lfo_step REVERB_MOD_AMP_SAMPLES in
  let mod_i := Z.shiftr mod_q8 8 in
  let frac := Z.land mod_q8 255 in
  let ri0 := add32 (to_int32 i) mod_i in
  let ri0 := Z.land (add32 ri0 REVERB_DELAY_LEN) REVERB_DELAY_MASK in
  let ri1 := Z.land (add32 ri0 1) REVERB_DELAY_MASK in
  let d0 := arr_get (rv_delay c) ri0 in
  let d1 := arr_get (rv_delay c) ri1 in
  let d := add32 d0 (to_int32 (Z.shiftr (sub32 d1 d0 * frac) 8)) in
  let lpv := rv_lp c in
  let lpv := add32 lpv (to_int32 (Z.shiftr (damp_q15 * sub32 d lpv) 15)) in
  let fb := to_int32 (Z.shiftr (feedback_q15 * lpv) 15) in
  let delay := arr_set (rv_delay c) i (clamp_s24 (add32 x fb)) in
  let delay_idx := Z.land (to_uint32 (i + 1)) REVERB_DELAY_MASK in
  let '(ap, ap1_idx, y) :=
    allpass_process_s24_len lpv (rv_ap c) 0 (rv_ap1_idx c) REVERB_AP1_MASK in
  let '(ap, ap2_idx, y) :=
    allpass_process_s24_len y ap REVERB_AP1_LEN (rv_ap2_idx c) REVERB_AP2_MASK in
  ({| rv_delay := delay; rv_delay_idx := delay_idx; rv_lp := lpv;
      rv_ap := ap; rv_ap1_idx := ap1_idx; rv_ap2_idx := ap2_idx;
      rv_lfo := lfo_phase |}, y).

(** The two diffusion stages in series on an input [d]: the single
    coefficient allpass [y = b - g x], [b' = x + g y] with [g = 22938] in
    Q15, first on the lower half of the allpass array, then on the upper. *)
Definition diffuse (d : Z) (c : ReverbChan) : Z :=
  let '(ap, _, y) :=
    allpass_process_s24_len d (rv_ap c) 0 (rv_ap1_idx c) REVERB_AP1_MASK in
  let '(_, _, y) :=
    allpass_process_s24_len y ap REVERB_AP1_LEN (rv_ap2_idx c) REVERB_AP2_MASK in
  y.

(** ** Ranges and invariants of the filter states *)

(** The range the asymmetric clipper maps 24-bit samples into: the two
    thresholds plus the 1/1024 knee on what is beyond them. *)
Definition in_clip_range (v : Z) : Prop := -907314 <= v <= 1207020.

(** A first-order high-pass state fed with 24-bit samples: the previous
    input is a 24-bit sample and the previous output is within
    [2^23 + 391] of it. *)
Definition hpf_inv (st : DcBlockState) : Prop :=
  in_s24 (dc_x1 st) /\ -8388999 <= dc_y1 st - dc_x1 st <= 8388999.

Definition biquad_inv (st : BiquadState) : Prop :=
  in_s24 (bq_x1 st) /\ in_s24 (bq_x2 st) /\ in_s24 (bq_y1 st) /\ in_s24 (bq_y2 st).

Definition comp_inv (st : CompState) : Prop :=
  0 <= comp_env st <= 2147483647 /\ 0 <= comp_gain_q15 st <= 32768.

(** [y] lies between 0 and [x], on the side of [x]. *)
Definition attenuated (x y : Z) : Prop :=
  (0 <= x -> 0 <= y <= x) /\ (x <= 0 -> x <= y <= 0).

(** The compressor's envelope follower in plain arithmetic: the envelope
    moves toward the rectified input, by 4096/32768 of the distance when
    rising and by 256/32768 when falling. *)
Definition comp_env_next (env ax : Z) : Z :=
  env + (if ax - env >? 0 then CLEAN_COMP_ENV_ATTACK_Q15
         else CLEAN_COMP_ENV_RELEASE_Q15) * (ax - env) / 32768.

(** What the frame processor needs of its state to bound its output: the
    limiter gain is in its Q15 range. *)
Definition frame_inv (st : AppState) : Prop :=
  0 <= lim_gain_q15 (s_limiter (filters st)) <= 32768.

(** The part of the state the control interface owns: mode, mask, press
    timestamp and the seven parameters. *)
Definition control_view (st : AppState) : AppFxMode * Z * Z * list Z :=
  (s_mode st, s_fx_mask st, s_button_last_ms st,
   [ s_dist_drive_q8 (dist st);
     s_delay_mix_q15 (delay st); s_delay_feedback_q15 (delay st);
     s_reverb_mix_q15 (reverb st); s_reverb_feedback_q15 (reverb st);
     s_reverb_damp_q15 (reverb st); s_gain_q15 st ]).

(** The part of the state the audio path owns: every filter memory,
    buffer and cursor. *)
Definition effect_state_view (st : AppState) :=
  (filters st, s_dist_l (dist st), s_dist_r (dist st),
   s_delay_buf_l (delay st), s_delay_buf_r (delay st),
   s_delay_l (delay st), s_delay_r (delay st),
   s_reverb_l (reverb st), s_reverb_r (reverb st)).

(** The content of slot [j] of the delay buffer after [U] update ticks of
    a run without feedback over the input stream [xs]: update tick [u]
    (counted from 0) stores the input of sample [8 u], at 16-bit depth, in
    slot [u mod 1024]. *)
Fixpoint slot_hist (xs : list Z) (U : nat) (j : Z) : Z :=
  match U with
  | O => 0
  | S U' =>
      if j =? Z.of_nat U' mod DELAY_LEN then nth (8 * U') xs 0 / 256
      else slot_hist xs U' j
  end.

(** State of the delay after the input stream [xs], run without feedback
    from the reset state. *)
Definition delay_hist_inv (xs : list Z) (buf : list Z) (st : DelayState) : Prop :=
  let n := length xs in
  let U := ((n + 7) / 8)%nat in
  length buf = Z.to_nat DELAY_LEN /\
  phase st = Z.of_nat (n mod 8) /\
  idx st = Z.of_nat U mod DELAY_LEN /\
  (forall j, 0 <= j < DELAY_LEN -> arr_get buf j = slot_hist xs U j) /\
  last_out_s24 st =
    match U with
    | O => 0
    | S U' => slot_hist xs U' (Z.of_nat U' mod DELAY_LEN) * 256
    end.

(** The sample the delay returns at position [n] of a stream [xs] when run
    without feedback: silence for the first 8192 samples, then the input
    of 8192 samples before the start of the current 8-sample period, with
    its low 8 bits cleared. *)
Definition delay_echo (xs : list Z) (n : nat) : Z :=
  if (n / 8 <? 1024)%nat then 0
  else nth (8 * (n / 8 - 1024)) xs 0 / 256 * 256.

(** What the frame ring keeps true: cursors in range, both arrays of full
    length, and at most 254 frames queued. *)
Definition ring_inv (a : AudioState) : Prop :=
  length (s_ring_l a) = Z.to_nat AUDIO_RING_FRAMES /\
  length (s_ring_r a) = Z.to_nat AUDIO_RING_FRAMES /\
  0 <= s_ring_w a < AUDIO_RING_FRAMES /\
  0 <= s_ring_r_q16 a < 4294967296 /\
  ring_fill_frames (s_ring_w a) (Z.shiftr (s_ring_r_q16 a) 16) <= 254.

(** Frames queued in the ring, as the reader computes it. *)
Definition ring_fill (a : AudioState) : Z :=
  ring_fill_frames (s_ring_w a) (Z.shiftr (s_ring_r_q16 a) 16).

(** The frame the resampler produces on one channel when its cursor is at
    [r_q16]: the linear interpolation between the two ring entries at the
    cursor, or silence when fewer than two frames are queued. *)
Definition resampled (ring : list Z) (w_snapshot r_q16 : Z) : Z :=
  let idx0 := (r_q16 / 65536) mod 256 in
  let idx1 := (idx0 + 1) mod 256 in
  let frac := r_q16 mod 65536 in
  if ring_fill_frames w_snapshot (Z.shiftr r_q16 16) >=? 2
  then arr_get ring idx0 + (arr_get ring idx1 - arr_get ring idx0) * frac / 65536
  else 0.

(** The read cursor after [k] steps of [step_q16]. *)
Definition cursor_after (r_q16 step_q16 k : Z) : Z :=
  (r_q16 + k * step_q16) mod 4294967296.

(** The sample a TX slot decodes to. *)
Definition tx_slot (tx : list Z) (i : Z) : Z :=
  lj24in32_to_s24 (arr_get tx i) (arr_get tx (i + 1)).

(** What the resampler needs of the audio state. *)
Definition tx_inv (a : AudioState) : Prop :=
  length (s_ring_l a) = Z.to_nat AUDIO_RING_FRAMES /\
  length (s_ring_r a) = Z.to_nat AUDIO_RING_FRAMES /\
  length (s_i2s_tx_buf a) = Z.to_nat AUDIO_HALFWORDS_TOTAL /\
  Forall in_s24 (s_ring_l a) /\ Forall in_s24 (s_ring_r a) /\
  0 <= s_ring_w a < AUDIO_RING_FRAMES /\
  0 <= s_ring_r_q16 a < 4294967296 /\
  -128 <= fill_err_filt a <= 127.

(** The filtered fill error after one more call of [tx_fill_half]. *)
Definition filt_next (a : AudioState) : Z :=
  fill_err_filt a + (ring_fill a - 128 - fill_err_filt a) / 16.

(** Start of the TX half a call addresses. *)
Definition tx_base (half_index : Z) : Z :=
  if half_index =? 0 then 0 else 256.

(** An audio state with idle buffers and the given cursors. *)
Definition idle_audio (w r_q16 : Z) : AudioState :=
  {| s_i2s_rx_buf := zeros AUDIO_HALFWORDS_TOTAL;
     s_i2s_tx_buf := zeros AUDIO_HALFWORDS_TOTAL;
     s_ring_l := zeros AUDIO_RING_FRAMES; s_ring_r := zeros AUDIO_RING_FRAMES;
     s_ring_w := w; s_ring_r_q16 := r_q16;
     s_ring_underrun := 0; s_ring_overflow := 0; fill_err_filt := 0 |}.

(** The bytes queued in a ring of [N] entries, oldest first: those from
    the read index up to the write index, wrapping at [N]. *)
Definition ring_pending (N : Z) (ring : list Z) (rd wr : Z) : list Z :=
  map (fun k => arr_get ring ((rd + Z.of_nat k) mod N))
      (seq 0 (Z.to_nat ((wr - rd) mod N))).

Definition tx_pending (c : ComState) : list Z :=
  ring_pending APP_COM_TX_RING_SIZE (s_tx_ring c) (s_tx_rd c) (s_tx_wr c).

Definition rx_pending (c : ComState) : list Z :=
  ring_pending APP_COM_RX_RING_SIZE (s_rx_ring c) (s_rx_rd c) (s_rx_wr c).

Definition tx_ok (c : ComState) : Prop :=
  length (s_tx_ring c) = Z.to_nat APP_COM_TX_RING_SIZE /\
  0 <= s_tx_rd c < APP_COM_TX_RING_SIZE /\
  0 <= s_tx_wr c < APP_COM_TX_RING_SIZE.

Definition rx_ok (c : ComState) : Prop :=
  length (s_rx_ring c) = Z.to_nat APP_COM_RX_RING_SIZE /\
  0 <= s_rx_rd c < APP_COM_RX_RING_SIZE /\
  0 <= s_rx_wr c < APP_COM_RX_RING_SIZE /\
  length (s_line c) = Z.to_nat APP_COM_LINE_MAX /\
  0 <= s_line_len c < APP_COM_LINE_MAX.

(** The bytes of a transfer requested of the HAL. *)
Definition tx_chunk (c : ComState) (req : Z * Z) : list Z :=
  map (fun k => arr_get (s_tx_ring c) (req.1 + Z.of_nat k)) (seq 0 (Z.to_nat req.2)).

(** A command line as the host sends it: no NUL, CR or LF inside, and
    short enough for the line buffer. *)
Definition clean_line (l : list Z) : Prop :=
  Forall (fun b => b <> 0 /\ b <> 10 /\ b <> 13) l /\
  Z.of_nat (length l) < APP_COM_LINE_MAX.

(** A line on the wire, ended by LF or by CR LF. *)
Definition wire (l : bool * list Z) : list Z :=
  l.2 ++ (if l.1 then [13; 10] else [10]).

(** What line assembly does with a byte stream: the characters collected
    so far and the lines completed. *)
Fixpoint assemble (cur : list Z) (bytes : list Z) : list Z * list (list Z) :=
  match bytes with
  | [] => (cur, [])
  | b :: bytes' =>
      if b =? 10 then
        let out := assemble [] bytes' in (out.1, cur :: out.2)
      else if b =? 13 then assemble cur bytes'
      else if Z.of_nat (length cur) + 1 <? APP_COM_LINE_MAX
      then assemble (cur ++ [b]) bytes'
      else assemble [] bytes'
  end.

(** A byte that does not end a line and is not skipped. *)
Definition line_char (b : Z) : Prop := b <> 10 /\ b <> 13.

(** The characters collected in the line buffer. *)
Definition line_so_far (c : ComState) : list Z :=
  take (Z.to_nat (s_line_len c)) (s_line c).

(** A communication state with empty rings and the given receive mode. *)
Definition idle_com (mode : AppComRxMode) : ComState :=
  {| s_rx_ring := zeros APP_COM_RX_RING_SIZE; s_rx_wr := 0; s_rx_rd := 0;
     s_line := zeros APP_COM_LINE_MAX; s_line_len := 0;
     s_tx_ring := zeros APP_COM_TX_RING_SIZE; s_tx_wr := 0; s_tx_rd := 0;
     s_tx_busy := 0; s_tx_last_len := 0;
     s_rx_mode := mode |}.

(** The triangle the LFO draws from the top byte [t] of its phase: up
    from 0 to 127, then down from 127 to 0. *)
Definition triangle (t : Z) : Z := if t <? 128 then t else 255 - t.

(** A sample within the limiter threshold. *)
Definition within_threshold (v : Z) : Prop :=
  - AUDIO_LIMITER_THRESH_S24 <= v <= AUDIO_LIMITER_THRESH_S24.

(** * Properties *)

(** ** Arithmetic of the machine types *)

Lemma to_int32_id x : in_int32 x -> to_int32 x = x.
Proof.
  unfold in_int32, to_int32. intros H.
  rewrite Z.mod_small by lia. lia.
Qed.

Lemma to_int32_range x : in_int32 (to_int32 x).
Proof.
  unfold in_int32, to_int32.
  pose proof (Z.mod_pos_bound (x + 2147483648) 4294967296). lia.
Qed.

Lemma to_int16_range x : in_s16 (to_int16 x).
Proof.
  unfold in_s16, to_int16.
  pose proof (Z.mod_pos_bound (x + 32768) 65536). lia.
Qed.

Lemma clamp_s24_range x : in_s24 (clamp_s24 x).
Proof.
  unfold in_s24, clamp_s24.
  destruct (Z.gtb_spec x 8388607); [lia|].
  destruct (Z.ltb_spec x (-8388608)); lia.
Qed.

Lemma clamp_s24_id x : in_s24 x -> clamp_s24 x = x.
Proof.
  unfold in_s24, clamp_s24. intros H.
  destruct (Z.gtb_spec x 8388607); [lia|].
  destruct (Z.ltb_spec x (-8388608)); lia.
Qed.

Lemma land_mask_range x k : 0 <= k -> 0 <= Z.land x (2 ^ k - 1) < 2 ^ k.
Proof.
  intros Hk. replace (2 ^ k - 1) with (Z.ones k) by (rewrite Z.ones_equiv; lia).
  rewrite Z.land_ones by assumption.
  apply Z.mod_pos_bound. apply Z.pow_pos_nonneg; lia.
Qed.

Lemma land_mask_mod x k : 0 <= k -> Z.land x (2 ^ k - 1) = x mod 2 ^ k.
Proof.
  intros Hk. replace (2 ^ k - 1) with (Z.ones k) by (rewrite Z.ones_equiv; lia).
  now apply Z.land_ones.
Qed.

Lemma clamp_0_32768_spec v : clamp_0_32768 v = clamp_into 0 32768 v.
Proof.
  unfold clamp_0_32768, clamp_into.
  destruct (Z.ltb_spec v 0); [simpl; lia|].
  destruct (Z.gtb_spec v 32768); lia.
Qed.

(** ** Parameters, mask and mode *)

Section ControlInterface.

Variable st : AppState.
Variable mst : Mono.State.

Lemma clamp_q15_spec v : Mono.clamp_q15 v = clamp_into 0 32768 v.
Proof.
  unfold Mono.clamp_q15, clamp_into.
  destruct (Z.ltb_spec v 0); [lia|].
  destruct (Z.gtb_spec v 32768); lia.
Qed.

Lemma clamp_gain_q15_spec v : Mono.clamp_gain_q15 v = clamp_into 0 65536 v.
Proof.
  unfold Mono.clamp_gain_q15, clamp_into.
  destruct (Z.ltb_spec v 0); [lia|].
  destruct (Z.gtb_spec v 65536); lia.
Qed.

Lemma clamp_steps_spec hi v :
  0 <= hi ->
  (let v := if v <? 0 then 0 else v in if v >? hi then hi else v) = clamp_into 0 hi v.
Proof.
  intros Hhi. unfold clamp_into. cbv zeta.
  destruct (Z.ltb_spec v 0).
  - destruct (Z.gtb_spec 0 hi); lia.
  - destruct (Z.gtb_spec v hi); lia.
Qed.

(** C4. For each of the seven parameter identifiers and every value [v],
    [AppDsp_SetParam id v] followed by [AppDsp_GetParam id] returns [v]
    clamped into [[0, param_max id]]: 131072 for the drive, 65536 for the
    master gain, 32768 for the five Q15 effect parameters. The setter is
    total, so an out-of-range value is stored clamped and never refused.
    Both the modular and the monolithic unit behave so. *)
Theorem set_then_get_param_clamps (id : AppDspParamId) (v : Z) :
  AppDsp_GetParam id (AppDsp_SetParam id v st) = clamp_into 0 (param_max id) v /\
  Mono.AppDsp_GetParam id (Mono.AppDsp_SetParam id v mst) = clamp_into 0 (param_max id) v.
Proof.
  split.
  - destruct id; cbn -[clamp_into Z.ltb Z.gtb];
      first [ apply clamp_0_32768_spec | apply clamp_steps_spec; lia ].
  - destruct id; cbn -[clamp_into Z.ltb Z.gtb Mono.clamp_q15 Mono.clamp_gain_q15];
      first [ apply clamp_q15_spec | apply clamp_gain_q15_spec
            | apply clamp_steps_spec; lia ].
Qed.

Lemma land_7_cases m :
  let k := Z.land m 7 in
  k = 0 \/ k = 1 \/ k = 2 \/ k = 3 \/ k = 4 \/ k = 5 \/ k = 6 \/ k = 7.
Proof.
  pose proof (land_mask_range m 3 ltac:(lia)) as H.
  change (2 ^ 3 - 1) with 7 in H. change (2 ^ 3) with 8 in H.
  cbv zeta. lia.
Qed.

Lemma all_bits_value :
  Z.lor (Z.lor APP_FX_BIT_DISTORTION APP_FX_BIT_REVERB) APP_FX_BIT_DELAY = 7.
Proof. reflexivity. Qed.

Lemma SetFxMask_mask m : AppDsp_GetFxMask (AppDsp_SetFxMask m st) = Z.land m 7.
Proof. reflexivity. Qed.

Lemma SetFxMask_mode m :
  AppDsp_GetMode (AppDsp_SetFxMask m st) =
    let k := Z.land m 7 in
    if k =? 0 then APP_FX_MODE_BYPASS
    else if k =? 1 then APP_FX_MODE_DISTORTION
    else if k =? 2 then APP_FX_MODE_REVERB
    else if k =? 4 then APP_FX_MODE_DELAY
    else APP_FX_MODE_ALL.
Proof. reflexivity. Qed.

(** C9. [AppDsp_SetFxMask m] keeps exactly the bits of [m] that belong to
    distortion, reverb and delay: [AppDsp_GetFxMask] then returns [m]
    intersected with those three bits (a value in [[0, 7]]; other bits are
    dropped, the call is never refused); the remaining state is untouched
    but for the mode, which is recomputed from the sanitized mask: a
    single-bit mask gives its own mode, the empty mask gives bypass, and
    any mask with two or more bits set gives mode ALL. The monolithic unit
    does the same. *)
Theorem set_fx_mask_sanitizes (m : Z) :
  let st' := AppDsp_SetFxMask m st in
  let k := Z.land m (Z.lor (Z.lor APP_FX_BIT_DISTORTION APP_FX_BIT_REVERB) APP_FX_BIT_DELAY) in
  AppDsp_GetFxMask st' = k /\
  0 <= k <= 7 /\
  (forall n, 3 <= n -> Z.testbit (AppDsp_GetFxMask st') n = false) /\
  (forall mode, k = mask_for_mode mode -> AppDsp_GetMode st' = mode) /\
  (2 <= fx_bits_set k -> AppDsp_GetMode st' = APP_FX_MODE_ALL) /\
  (fx_bits_set k < 2 -> k = mask_for_mode (AppDsp_GetMode st')) /\
  Mono.AppDsp_GetFxMask (Mono.AppDsp_SetFxMask m mst) = k /\
  Mono.AppDsp_GetMode (Mono.AppDsp_SetFxMask m mst) = AppDsp_GetMode st'.
Proof.
  cbv zeta. rewrite all_bits_value.
  rewrite SetFxMask_mask, SetFxMask_mode. cbv zeta.
  pose proof (land_7_cases m) as Hk. cbv zeta in Hk.
  repeat split.
  - lia.
  - lia.
  - intros n Hn. rewrite Z.land_spec.
    replace (Z.testbit 7 n) with false; [apply andb_false_r|].
    change 7 with (Z.ones 3). symmetry. apply Z.ones_spec_high. lia.
  - intros mode Hm. rewrite Hm. now destruct mode.
  - destruct Hk as [-> | [-> | [-> | [-> | [-> | [-> | [-> | ->]]]]]]];
      first [ reflexivity | vm_compute; intros Hb; now contradiction Hb ].
  - destruct Hk as [-> | [-> | [-> | [-> | [-> | [-> | [-> | ->]]]]]]];
      first [ reflexivity | vm_compute; discriminate ].
Qed.

End ControlInterface.

Lemma set_fx_mask_sanitizes_witness :
  AppDsp_GetMode (AppDsp_SetFxMask 255 power_on) = APP_FX_MODE_ALL.
Proof.
  pose proof (set_fx_mask_sanitizes power_on Mono.power_on 255) as H.
  cbv zeta in H. destruct H as (_ & _ & _ & _ & H & _).
  apply H. vm_compute. discriminate.
Defined.

(** ** Debounced mode cycling *)

Section ButtonPress.

Lemma press_rejected now st :
  to_uint32 (now - s_button_last_ms st) < 300 -> AppDsp_OnButtonPress now st = st.
Proof.
  intros H. unfold AppDsp_OnButtonPress.
  destruct (Z.ltb_spec (to_uint32 (now - s_button_last_ms st)) 300); [reflexivity | lia].
Qed.

Lemma press_accepted_step now st :
  press_accepted now st ->
  AppDsp_OnButtonPress now st =
    set_mode_mask (next_mode (s_mode st)) now (mask_for_mode (next_mode (s_mode st))) st.
Proof.
  unfold press_accepted. intros H. unfold AppDsp_OnButtonPress.
  destruct (Z.ltb_spec (to_uint32 (now - s_button_last_ms st)) 300); [lia|].
  now destruct (s_mode st).
Qed.

(** Unsigned distance between a timestamp and the same timestamp advanced by
    [d], whatever the wrap-around of the 32-bit tick in between. *)
Lemma uint32_distance t d :
  0 <= d < 4294967296 -> to_uint32 (to_uint32 (t + d) - t) = d.
Proof.
  intros Hd. unfold to_uint32.
  rewrite Zminus_mod_idemp_l.
  replace (t + d - t) with d by lia.
  now apply Z.mod_small.
Qed.

(** C10. [AppDsp_Init] leaves the stored timestamp at 0, so a first press
    at a tick [t < 300] fails the debounce test and leaves the whole state,
    in particular the mode and the mask, as initialisation set it, although
    no press was accepted before. Both units behave so. *)
Theorem first_press_before_300ms_ignored (st : AppState) (mst : Mono.State) (t : Z) :
  0 <= t < 300 ->
  s_button_last_ms (AppDsp_Init st) = 0 /\
  AppDsp_OnButtonPress t (AppDsp_Init st) = AppDsp_Init st /\
  AppDsp_GetMode (AppDsp_OnButtonPress t (AppDsp_Init st)) = APP_FX_MODE_BYPASS /\
  AppDsp_GetFxMask (AppDsp_OnButtonPress t (AppDsp_Init st)) = 0 /\
  s_button_last_ms (Mono.core (Mono.AppDsp_Init mst)) = 0 /\
  Mono.AppDsp_OnButtonPress t (Mono.AppDsp_Init mst) = Mono.AppDsp_Init mst.
Proof.
  intros Ht.
  assert (Hr : AppDsp_OnButtonPress t (AppDsp_Init st) = AppDsp_Init st).
  { apply press_rejected. cbn [AppDsp_Init s_button_last_ms].
    unfold to_uint32. rewrite Z.sub_0_r, Z.mod_small; lia. }
  rewrite Hr. repeat split.
  unfold Mono.AppDsp_OnButtonPress, Mono.on_core.
  rewrite press_rejected; [reflexivity|].
  cbn [Mono.AppDsp_Init Mono.core s_button_last_ms].
  unfold to_uint32. rewrite Z.sub_0_r, Z.mod_small; lia.
Qed.

Lemma first_press_before_300ms_ignored_witness :
  AppDsp_OnButtonPress 299 (AppDsp_Init power_on) = AppDsp_Init power_on.
Proof.
  exact (proj1 (proj2
    (first_press_before_300ms_ignored power_on Mono.power_on 299 ltac:(lia)))).
Defined.

(** C5 (as amended). For each of the five legacy modes, setting the exact
    mask of the mode makes [AppDsp_GetMode] return that mode. A press that
    passes the debounce test, that is, whose tick [t] is at least 300 ms
    (in wrap-around 32-bit subtraction) after the stored one, advances the
    mode one step along bypass, distortion, reverb, delay, all, bypass,
    stores the exact mask of the new mode and records [t]. After such an
    accepted press at [t], a press at [t + 299] changes nothing (one mode
    change in total) and a press at [t + 300] advances the mode once more
    (two in total), also when the tick wraps past [2^32] in between. A
    press that fails the test changes nothing. *)
Theorem mode_cycle_and_debounce :
  (forall mode st, AppDsp_GetMode (AppDsp_SetFxMask (mask_for_mode mode) st) = mode) /\
  (forall t st,
     press_accepted t st ->
     let st1 := AppDsp_OnButtonPress t st in
     AppDsp_GetMode st1 = next_mode (AppDsp_GetMode st) /\
     AppDsp_GetFxMask st1 = mask_for_mode (AppDsp_GetMode st1) /\
     s_button_last_ms st1 = t /\
     AppDsp_OnButtonPress (to_uint32 (t + 299)) st1 = st1 /\
     let st2 := AppDsp_OnButtonPress (to_uint32 (t + 300)) st1 in
     AppDsp_GetMode st2 = next_mode (next_mode (AppDsp_GetMode st)) /\
     AppDsp_GetFxMask st2 = mask_for_mode (AppDsp_GetMode st2)) /\
  (forall t st, ~ press_accepted t st -> AppDsp_OnButtonPress t st = st).
Proof.
  split; [|split].
  - intros mode st. now destruct mode.
  - intros t st Hacc. cbv zeta.
    rewrite (press_accepted_step t st Hacc).
    assert (H299 : to_uint32 (to_uint32 (t + 299) - t) = 299)
      by (apply uint32_distance; lia).
    assert (H300 : to_uint32 (to_uint32 (t + 300) - t) = 300)
      by (apply uint32_distance; lia).
    split; [reflexivity|]. split; [reflexivity|]. split; [reflexivity|].
    split.
    + apply press_rejected. cbn [set_mode_mask s_button_last_ms]. lia.
    + rewrite press_accepted_step.
      * split; reflexivity.
      * unfold press_accepted. cbn [set_mode_mask s_button_last_ms]. lia.
  - intros t st Hn. apply press_rejected. unfold press_accepted in Hn. lia.
Qed.

Lemma mode_cycle_and_debounce_witness :
  let st := AppDsp_Init power_on in
  AppDsp_GetMode (AppDsp_OnButtonPress 1000 st) = APP_FX_MODE_DISTORTION /\
  AppDsp_OnButtonPress 1299 (AppDsp_OnButtonPress 1000 st) = AppDsp_OnButtonPress 1000 st /\
  AppDsp_GetMode (AppDsp_OnButtonPress 1300 (AppDsp_OnButtonPress 1000 st))
    = APP_FX_MODE_REVERB.
Proof.
  cbv zeta.
  assert (Hacc : press_accepted 1000 (AppDsp_Init power_on))
    by (unfold press_accepted; vm_compute; discriminate).
  pose proof (proj1 (proj2 mode_cycle_and_debounce) 1000 (AppDsp_Init power_on) Hacc) as H.
  cbv zeta in H.
  destruct H as (H1 & _ & _ & H2 & H3 & _).
  split; [exact H1|]. split; [exact H2 | exact H3].
Defined.

(** C5, the claim as first stated, fails when the press at [t] is itself
    debounced: after initialisation the presses at ticks 0 and 300 change
    the mode once (to distortion), not twice (to reverb). *)
Lemma two_presses_300ms_apart_one_change :
  let st := AppDsp_Init power_on in
  AppDsp_GetMode (AppDsp_OnButtonPress (0 + 300) (AppDsp_OnButtonPress 0 st))
    = next_mode (AppDsp_GetMode st) /\
  AppDsp_GetMode (AppDsp_OnButtonPress (0 + 300) (AppDsp_OnButtonPress 0 st))
    <> next_mode (next_mode (AppDsp_GetMode st)).
Proof. split; [reflexivity | discriminate]. Qed.

End ButtonPress.

(** ** Initialisation *)

Section Initialisation.

(** C3 (as amended). [AppDsp_Init] puts every filter, delay and reverb
    state back to its reset value (memories, buffers and cursors zero, the
    compressor and limiter gains at unity), selects mask 0 and mode bypass,
    clears the stored press timestamp and sets the master gain to 32768.
    The six effect parameters are left as they are: they read back their
    documented defaults when initialisation runs on the start-up values of
    the statics, and keep the last value set otherwise. *)
Theorem init_resets_state_and_keeps_effect_params (st : AppState) :
  let st' := AppDsp_Init st in
  state_cleared st' /\
  AppDsp_GetFxMask st' = 0 /\
  AppDsp_GetMode st' = APP_FX_MODE_BYPASS /\
  s_button_last_ms st' = 0 /\
  AppDsp_GetParam APP_DSP_PARAM_GAIN_Q15 st' = 32768 /\
  (forall id, id <> APP_DSP_PARAM_GAIN_Q15 ->
     AppDsp_GetParam id st' = AppDsp_GetParam id st) /\
  (forall id, AppDsp_GetParam id (AppDsp_Init power_on) = param_default id) /\
  AppDsp_Init st' = st'.
Proof.
  cbv zeta. unfold state_cleared. repeat split.
  intros id Hid. destruct id; try reflexivity. now contradiction Hid.
Qed.

Lemma init_resets_state_and_keeps_effect_params_witness :
  AppDsp_GetParam APP_DSP_PARAM_DELAY_FEEDBACK_Q15
    (AppDsp_Init (AppDsp_SetParam APP_DSP_PARAM_DELAY_FEEDBACK_Q15 32768 power_on))
  = AppDsp_GetParam APP_DSP_PARAM_DELAY_FEEDBACK_Q15
      (AppDsp_SetParam APP_DSP_PARAM_DELAY_FEEDBACK_Q15 32768 power_on).
Proof.
  pose proof (init_resets_state_and_keeps_effect_params
                (AppDsp_SetParam APP_DSP_PARAM_DELAY_FEEDBACK_Q15 32768 power_on)) as H.
  cbv zeta in H. destruct H as (_ & _ & _ & _ & _ & H & _).
  apply H. discriminate.
Defined.

(** C3, the claim as first stated, fails for a second initialisation: a
    drive set to 100 survives [AppDsp_Init] and does not read back 40960. *)
Lemma reinit_keeps_changed_drive :
  let st := AppDsp_SetParam APP_DSP_PARAM_DIST_DRIVE_Q8 100 (AppDsp_Init power_on) in
  AppDsp_GetParam APP_DSP_PARAM_DIST_DRIVE_Q8 (AppDsp_Init st) = 100 /\
  AppDsp_GetParam APP_DSP_PARAM_DIST_DRIVE_Q8 (AppDsp_Init st)
    <> param_default APP_DSP_PARAM_DIST_DRIVE_Q8.
Proof. split; [reflexivity | discriminate]. Qed.

(** The monolithic unit assigns no parameter at all in its initialisation,
    the master gain included. *)
Lemma mono_init_keeps_all_params (mst : Mono.State) (id : AppDspParamId) :
  Mono.AppDsp_GetParam id (Mono.AppDsp_Init mst) = Mono.AppDsp_GetParam id mst.
Proof. now destruct id. Qed.

End Initialisation.

(** ** Silence *)

Section Silence.

Lemma silent_frame_fixpoint (st : AppState) :
  AppDsp_ProcessFrame (AppDsp_Init st) 0 0 = (AppDsp_Init st, (0, 0)).
Proof. vm_compute. reflexivity. Qed.

Lemma mono_silent_frame_fixpoint (mst : Mono.State) :
  Mono.AppDsp_ProcessFrame (Mono.AppDsp_Init mst) 0 0 = (Mono.AppDsp_Init mst, (0, 0)).
Proof. vm_compute. reflexivity. Qed.

(** C8. After [AppDsp_Init] (mask 0, bypass; in particular with the
    default parameters of [power_on]) any number [n] of consecutive calls of
    [AppDsp_ProcessFrame] on the all-zero frame, so also 10 of them, return
    the all-zero frame every time, exactly and not only approximately, and
    leave the state as initialisation set it. This holds for the modular
    and for the monolithic frame processor. *)
Theorem silence_in_silence_out (st : AppState) (mst : Mono.State) (n : nat) :
  process_frames (AppDsp_Init st) (replicate n (0, 0))
    = (AppDsp_Init st, replicate n (0, 0)) /\
  Mono.process_frames (Mono.AppDsp_Init mst) (replicate n (0, 0))
    = (Mono.AppDsp_Init mst, replicate n (0, 0)) /\
  AppDsp_GetFxMask (AppDsp_Init st) = 0 /\
  (forall id, AppDsp_GetParam id (AppDsp_Init power_on) = param_default id).
Proof.
  split; [|split; [|split]].
  - induction n as [|n IH]; [reflexivity|].
    cbn [replicate process_frames].
    rewrite silent_frame_fixpoint, IH. reflexivity.
  - induction n as [|n IH]; [reflexivity|].
    cbn [replicate Mono.process_frames].
    rewrite mono_silent_frame_fixpoint, IH. reflexivity.
  - reflexivity.
  - intros id. now destruct id.
Qed.

End Silence.

(** ** Limiter *)

Section Limiter.

Lemma shiftr_15_div x : Z.shiftr x 15 = x / 32768.
Proof. now rewrite Z.shiftr_div_pow2 by lia. Qed.

Lemma shiftr_8_div x : Z.shiftr x 8 = x / 256.
Proof. now rewrite Z.shiftr_div_pow2 by lia. Qed.

Lemma abs_s32_spec x : -2147483648 < x <= 2147483647 -> abs_s32 x = Z.abs x.
Proof.
  intros H. unfold abs_s32, neg32.
  destruct (Z.geb_spec x 0); [lia|].
  rewrite to_int32_id by (unfold in_int32; lia). lia.
Qed.

Lemma gtb_max a b : (if a >? b then a else b) = Z.max a b.
Proof. destruct (Z.gtb_spec a b); lia. Qed.

(** Threshold over peak in Q15, for a peak above the threshold. *)
Lemma limiter_target_range peak :
  AUDIO_LIMITER_THRESH_S24 < peak <= 2147483647 ->
  0 < AUDIO_LIMITER_THRESH_S24 * 32768 / peak < 32768.
Proof.
  unfold AUDIO_LIMITER_THRESH_S24. intros H.
  pose proof (Z_div_mod_eq_full (6500000 * 32768) peak) as E.
  pose proof (Z.mod_pos_bound (6500000 * 32768) peak ltac:(lia)) as B.
  split; nia.
Qed.

Lemma release_step_bounds g target :
  g <= target ->
  0 <= AUDIO_LIMITER_RELEASE_Q15 * (target - g) / 32768 <= target - g.
Proof.
  unfold AUDIO_LIMITER_RELEASE_Q15. intros H.
  pose proof (Z_div_mod_eq_full (16 * (target - g)) 32768) as E.
  pose proof (Z.mod_pos_bound (16 * (target - g)) 32768 ltac:(lia)) as B.
  split; lia.
Qed.

Lemma scaled_sample_in_int32 x g :
  in_int32 x -> 0 <= g <= 32768 -> in_int32 (x * g / 32768).
Proof.
  unfold in_int32. intros Hx Hg.
  pose proof (Z_div_mod_eq_full (x * g) 32768) as E.
  pose proof (Z.mod_pos_bound (x * g) 32768 ltac:(lia)) as B.
  split; nia.
Qed.

Lemma limiter_target_bounds peak :
  peak <= 2147483647 -> 0 < limiter_target peak <= 32768.
Proof.
  intros H. unfold limiter_target.
  destruct (Z.gtb_spec peak AUDIO_LIMITER_THRESH_S24); [|lia].
  pose proof (limiter_target_range peak ltac:(lia)). lia.
Qed.

Lemma limiter_next_gain_bounds g target :
  0 <= g <= 32768 -> 0 <= target <= 32768 ->
  0 <= limiter_next_gain g target <= 32768.
Proof.
  intros Hg Ht. unfold limiter_next_gain.
  destruct (Z.ltb_spec target g); [lia|].
  pose proof (release_step_bounds g target ltac:(lia)). lia.
Qed.

Lemma limiter_target_eq peak :
  0 <= peak <= 2147483647 ->
  (if peak >? AUDIO_LIMITER_THRESH_S24
   then
     if (if to_int32 (Z.shiftl AUDIO_LIMITER_THRESH_S24 15 ÷ peak) <? 0 then 0
         else to_int32 (Z.shiftl AUDIO_LIMITER_THRESH_S24 15 ÷ peak)) >? 32768
     then 32768
     else if to_int32 (Z.shiftl AUDIO_LIMITER_THRESH_S24 15 ÷ peak) <? 0 then 0
          else to_int32 (Z.shiftl AUDIO_LIMITER_THRESH_S24 15 ÷ peak)
   else 32768) = limiter_target peak.
Proof.
  intros Hpeak. unfold limiter_target.
  destruct (Z.gtb_spec peak AUDIO_LIMITER_THRESH_S24) as [Hgt|]; [|reflexivity].
  rewrite Z.shiftl_mul_pow2 by lia. change (2 ^ 15) with 32768.
  rewrite Z.quot_div_nonneg by (unfold AUDIO_LIMITER_THRESH_S24 in *; lia).
  pose proof (limiter_target_range peak ltac:(lia)) as B.
  rewrite to_int32_id by (unfold in_int32; lia).
  destruct (Z.ltb_spec (AUDIO_LIMITER_THRESH_S24 * 32768 / peak) 0); [lia|].
  destruct (Z.gtb_spec (AUDIO_LIMITER_THRESH_S24 * 32768 / peak) 32768); lia.
Qed.

Lemma limiter_gain_eq g target :
  0 <= g <= 32768 -> 0 <= target <= 32768 ->
  (if target <? g then target
   else if add32 g (to_int32 (Z.shiftr (AUDIO_LIMITER_RELEASE_Q15 * sub32 target g) 15))
           >? 32768
        then 32768
        else add32 g (to_int32 (Z.shiftr (AUDIO_LIMITER_RELEASE_Q15 * sub32 target g) 15)))
  = limiter_next_gain g target.
Proof.
  intros Hg Ht. unfold limiter_next_gain.
  destruct (Z.ltb_spec target g); [reflexivity|].
  unfold add32, sub32.
  rewrite (to_int32_id (target - g)) by (unfold in_int32; lia).
  rewrite shiftr_15_div.
  pose proof (release_step_bounds g target ltac:(lia)) as B.
  rewrite (to_int32_id (AUDIO_LIMITER_RELEASE_Q15 * (target - g) / 32768))
    by (unfold in_int32; lia).
  rewrite !to_int32_id by (unfold in_int32; lia).
  destruct (Z.gtb_spec (g + AUDIO_LIMITER_RELEASE_Q15 * (target - g) / 32768) 32768);
    lia.
Qed.

Lemma DspFilters_Limiter_eq g l r :
  0 <= g <= 32768 ->
  -2147483648 < l <= 2147483647 ->
  -2147483648 < r <= 2147483647 ->
  DspFilters_Limiter {| lim_gain_q15 := g |} l r =
    let g' := limiter_next_gain g (limiter_target (Z.max (Z.abs l) (Z.abs r))) in
    ({| lim_gain_q15 := g' |},
     (clamp_s24 (l * g' / 32768), clamp_s24 (r * g' / 32768))).
Proof.
  intros Hg Hl Hr. unfold DspFilters_Limiter. cbv zeta.
  cbn [lim_gain_q15].
  rewrite !abs_s32_spec by assumption. rewrite gtb_max.
  set (peak := Z.max (Z.abs l) (Z.abs r)).
  assert (Hpeak : 0 <= peak <= 2147483647) by lia.
  rewrite (limiter_target_eq peak Hpeak).
  pose proof (limiter_target_bounds peak ltac:(lia)) as Htb.
  rewrite (limiter_gain_eq g (limiter_target peak) Hg ltac:(lia)).
  pose proof (limiter_next_gain_bounds g (limiter_target peak) Hg ltac:(lia)) as Hng.
  rewrite !shiftr_15_div.
  rewrite !to_int32_id by (apply scaled_sample_in_int32; [unfold in_int32; lia | lia]).
  reflexivity.
Qed.

(** The limiter step in plain arithmetic, the part of C2 that holds of the
    code: [DspFilters_Limiter] takes the stereo-linked peak
    [max(|l|, |r|)]. When the peak is above 6500000 the target gain is
    [6500000 / peak] in Q15, which lies in [[0, 32768]], else the target is
    unity (32768). A target below the stored gain replaces it in the same
    call (instant attack); otherwise the stored gain moves up toward the
    target by 16/32768 of the distance (release) and never passes it. The
    one new gain scales both channels in the same call, and both outputs
    are saturated, so they lie in [[-8388608, 8388607]] for inputs of any
    size. The limiter of the monolithic unit is the same function. *)
Theorem limiter_instant_attack_and_range (st : LimiterState) (l r : Z) :
  let out := DspFilters_Limiter st l r in
  let g := lim_gain_q15 st in
  let g' := lim_gain_q15 out.1 in
  let l' := out.2.1 in
  let r' := out.2.2 in
  (in_s24 l' /\ in_s24 r') /\
  (0 <= g <= 32768 ->
   -2147483648 < l <= 2147483647 ->
   -2147483648 < r <= 2147483647 ->
   let peak := Z.max (Z.abs l) (Z.abs r) in
   let target := limiter_target peak in
   (AUDIO_LIMITER_THRESH_S24 < peak ->
      target = AUDIO_LIMITER_THRESH_S24 * 32768 / peak) /\
   (peak <= AUDIO_LIMITER_THRESH_S24 -> target = 32768) /\
   0 <= target <= 32768 /\
   (target < g -> g' = target) /\
   (g <= target ->
      g' = g + AUDIO_LIMITER_RELEASE_Q15 * (target - g) / 32768 /\ g <= g' <= target) /\
   0 <= g' <= 32768 /\
   l' = clamp_s24 (l * g' / 32768) /\
   r' = clamp_s24 (r * g' / 32768)) /\
  Mono.limiter_process_s24 st l r = out.
Proof.
  cbv zeta. split; [|split; [|reflexivity]].
  - unfold DspFilters_Limiter. cbv zeta. cbn [fst snd].
    split; apply clamp_s24_range.
  - intros Hg Hl Hr. destruct st as [g]. cbn [lim_gain_q15] in Hg |- *.
    rewrite (DspFilters_Limiter_eq g l r Hg Hl Hr). cbv zeta.
    cbn [fst snd lim_gain_q15].
    set (peak := Z.max (Z.abs l) (Z.abs r)).
    pose proof (limiter_target_bounds peak ltac:(lia)) as Ht.
    set (target := limiter_target peak) in *.
    pose proof (limiter_next_gain_bounds g target Hg ltac:(lia)) as Hn.
    split.
    { intros Hgt. subst target. unfold limiter_target.
      destruct (Z.gtb_spec peak AUDIO_LIMITER_THRESH_S24); [reflexivity | lia]. }
    split.
    { intros Hle. subst target. unfold limiter_target.
      destruct (Z.gtb_spec peak AUDIO_LIMITER_THRESH_S24); [lia | reflexivity]. }
    split; [lia|]. split; [|split; [|split; [lia | split; reflexivity]]].
    + intros Hlt. unfold limiter_next_gain.
      destruct (Z.ltb_spec target g); [reflexivity | lia].
    + intros Hle. unfold limiter_next_gain.
      destruct (Z.ltb_spec target g); [lia|].
      pose proof (release_step_bounds g target Hle) as B.
      split; [reflexivity | lia].
Qed.

Lemma limiter_instant_attack_and_range_witness :
  lim_gain_q15 (DspFilters_Limiter {| lim_gain_q15 := 32768 |} 8000000 (-8000000)).1
    = limiter_target (Z.max (Z.abs 8000000) (Z.abs (-8000000))).
Proof.
  pose proof (limiter_instant_attack_and_range
                {| lim_gain_q15 := 32768 |} 8000000 (-8000000)) as H.
  cbv zeta in H. destruct H as [_ [H _]].
  specialize (H ltac:(cbn; lia) ltac:(lia) ltac:(lia)).
  destruct H as (_ & _ & _ & Hatt & _).
  apply Hatt. vm_compute. reflexivity.
Defined.

(** The concrete attack of that witness: full-scale input pulled down to
    the threshold within the call. *)
Example limiter_attack_example :
  DspFilters_Limiter {| lim_gain_q15 := 32768 |} 8000000 (-8000000)
    = ({| lim_gain_q15 := 26624 |}, (6500000, -6500000)).
Proof. vm_compute. reflexivity. Qed.

Lemma limiter_quiet_step g l r :
  30721 <= g <= 32768 ->
  Z.max (Z.abs l) (Z.abs r) <= AUDIO_LIMITER_THRESH_S24 ->
  DspFilters_Limiter {| lim_gain_q15 := g |} l r =
    ({| lim_gain_q15 := g |}, (l * g / 32768, r * g / 32768)).
Proof.
  intros Hg Hpeak. unfold AUDIO_LIMITER_THRESH_S24 in Hpeak.
  rewrite DspFilters_Limiter_eq by lia. cbv zeta.
  assert (Ht : limiter_target (Z.max (Z.abs l) (Z.abs r)) = 32768).
  { unfold limiter_target, AUDIO_LIMITER_THRESH_S24.
    destruct (Z.gtb_spec (Z.max (Z.abs l) (Z.abs r)) 6500000); [lia | reflexivity]. }
  assert (Hn : limiter_next_gain g 32768 = g).
  { unfold limiter_next_gain, AUDIO_LIMITER_RELEASE_Q15.
    destruct (Z.ltb_spec 32768 g); [lia|].
    rewrite Z.div_small by lia. lia. }
  rewrite Ht, Hn.
  assert (Hs : forall x, Z.abs x <= 6500000 -> in_s24 (x * g / 32768)).
  { intros x Hx. unfold in_s24.
    assert (-6500000 * g <= x * g <= 6500000 * g) by nia.
    Z.div_mod_to_equations. lia. }
  rewrite !clamp_s24_id by (apply Hs; lia). reflexivity.
Qed.

(** C2. The release of [DspFilters_Limiter] does not bring the gain back
    to unity. Its step, [16 * (target - g) >> 15], is zero as soon as the
    stored gain is within 2047 of the target: a stored gain in
    [[30721, 32767]] stays where it is over any run of frames whose peak is
    at most the threshold, however long, and a frame within the threshold
    that follows is returned scaled by that gain instead of unchanged. The
    limiter of the monolithic unit is the same function. *)
Theorem limiter_release_stalls (g : Z) (frames : list (Z * Z)) (l r : Z) :
  30721 <= g <= 32767 ->
  Forall (fun f => Z.max (Z.abs f.1) (Z.abs f.2) <= AUDIO_LIMITER_THRESH_S24) frames ->
  Z.max (Z.abs l) (Z.abs r) <= AUDIO_LIMITER_THRESH_S24 ->
  let st := limiter_run {| lim_gain_q15 := g |} frames in
  lim_gain_q15 st = g /\
  lim_gain_q15 st < 32768 /\
  DspFilters_Limiter st l r =
    ({| lim_gain_q15 := g |}, (l * g / 32768, r * g / 32768)) /\
  Mono.limiter_process_s24 st l r = DspFilters_Limiter st l r.
Proof.
  intros Hg Hframes Hpeak. cbv zeta.
  assert (E : limiter_run {| lim_gain_q15 := g |} frames = {| lim_gain_q15 := g |}).
  { unfold limiter_run. induction Hframes as [|f frames Hf _ IH]; [reflexivity|].
    cbn [fold_left]. rewrite limiter_quiet_step by (try assumption; lia).
    exact IH. }
  rewrite E. cbn [lim_gain_q15].
  split; [reflexivity|]. split; [lia|].
  split; [apply limiter_quiet_step; try assumption; lia | reflexivity].
Qed.

Lemma limiter_release_stalls_witness :
  DspFilters_Limiter
    (limiter_run (DspFilters_Limiter {| lim_gain_q15 := 32768 |} 6600000 0).1
       (replicate 1000 (0, 0)))
    6000000 6000000
  = ({| lim_gain_q15 := 32271 |},
     (6000000 * 32271 / 32768, 6000000 * 32271 / 32768)).
Proof.
  change (DspFilters_Limiter {| lim_gain_q15 := 32768 |} 6600000 0).1
    with {| lim_gain_q15 := 32271 |}.
  refine (proj1 (proj2 (proj2
            (limiter_release_stalls 32271 (replicate 1000 (0, 0)) 6000000 6000000 _ _ _)))).
  - lia.
  - apply Forall_replicate. cbn. unfold AUDIO_LIMITER_THRESH_S24. lia.
  - unfold AUDIO_LIMITER_THRESH_S24. lia.
Defined.

(** The same run evaluated: a frame 1.5 % over the threshold, a thousand
    silent frames, and then a frame within the threshold comes back 1.5 %
    low. *)
Example limiter_stall_example :
  DspFilters_Limiter {| lim_gain_q15 := 32768 |} 6600000 0
    = ({| lim_gain_q15 := 32271 |}, (6499896, 0)) /\
  DspFilters_Limiter
    (limiter_run {| lim_gain_q15 := 32271 |} (replicate 1000 (0, 0))) 6000000 6000000
    = ({| lim_gain_q15 := 32271 |}, (5908996, 5908996)).
Proof. vm_compute. split; reflexivity. Qed.

End Limiter.

(** ** Delay *)

Section Delay.

Lemma arr_get_Forall (P : Z -> Prop) buf i : P 0 -> Forall P buf -> P (arr_get buf i).
Proof.
  intros H0 Hall. unfold arr_get.
  destruct (buf !! Z.to_nat i) as [v|] eqn:E; cbn; [|exact H0].
  exact (Forall_lookup_1 P buf _ _ Hall E).
Qed.

Lemma arr_set_Forall (P : Z -> Prop) buf i v :
  Forall P buf -> P v -> Forall P (arr_set buf i v).
Proof. intros. now apply Forall_insert. Qed.

Lemma zeros_Forall (P : Z -> Prop) n : P 0 -> Forall P (zeros n).
Proof. intros. now apply Forall_replicate. Qed.

Lemma in_s16_in_s24 v : in_s16 v -> in_s24 v.
Proof. unfold in_s16, in_s24. lia. Qed.

Lemma s24_to_s16_range x : in_s16 (s24_to_s16 x).
Proof.
  unfold s24_to_s16. cbv zeta.
  destruct (Z.gtb_spec (Z.shiftr (clamp_s24 x) 8) 32767); [unfold in_s16; lia|].
  destruct (Z.ltb_spec (Z.shiftr (clamp_s24 x) 8) (-32768)); [unfold in_s16; lia|].
  apply to_int16_range.
Qed.

Lemma s24_to_s16_div x : in_s24 x -> s24_to_s16 x = x / 256.
Proof.
  intros Hx. unfold s24_to_s16. cbv zeta.
  rewrite clamp_s24_id by assumption. rewrite shiftr_8_div.
  unfold in_s24 in Hx.
  pose proof (Z_div_mod_eq_full x 256) as E.
  pose proof (Z.mod_pos_bound x 256 ltac:(lia)) as B.
  destruct (Z.gtb_spec (x / 256) 32767); [lia|].
  destruct (Z.ltb_spec (x / 256) (-32768)); [lia|].
  unfold to_int16. rewrite Z.mod_small by lia. lia.
Qed.

Lemma widen_s16 v : in_s16 v -> to_int32 (Z.shiftl v 8) = v * 256 /\ in_s24 (v * 256).
Proof.
  unfold in_s16, in_s24. intros H.
  rewrite Z.shiftl_mul_pow2 by lia. change (2 ^ 8) with 256.
  rewrite to_int32_id by (unfold in_int32; lia). lia.
Qed.

(** The one-pole low-pass stays between its state and its input when the
    coefficient is at most unity. *)
Lemma lowpass_step_between a y x :
  0 <= a <= 32768 ->
  Z.min y x <= y + a * (x - y) / 32768 <= Z.max y x.
Proof.
  intros Ha.
  pose proof (Z_div_mod_eq_full (a * (x - y)) 32768) as E.
  pose proof (Z.mod_pos_bound (a * (x - y)) 32768 ltac:(lia)) as B.
  destruct (Z.le_gt_cases y x); split; nia.
Qed.

Lemma onepole_lpf_s24_eq x y a :
  in_s24 x -> in_s24 y -> 0 <= a <= 32768 ->
  onepole_lpf_s24 x y a =
    (clamp_s24 (y + a * (x - y) / 32768), clamp_s24 (y + a * (x - y) / 32768)).
Proof.
  unfold in_s24. intros Hx Hy Ha. unfold onepole_lpf_s24, add32, sub32. cbv zeta.
  rewrite (to_int32_id (x - y)) by (unfold in_int32; lia).
  rewrite shiftr_15_div.
  pose proof (lowpass_step_between a y x Ha) as B.
  rewrite (to_int32_id (a * (x - y) / 32768)) by (unfold in_int32; lia).
  rewrite to_int32_id by (unfold in_int32; lia).
  reflexivity.
Qed.

Lemma feedback_scaled_range fbk v :
  0 <= fbk <= 32768 -> in_s24 v -> in_s24 (fbk * v / 32768).
Proof.
  unfold in_s24. intros Hf Hv.
  pose proof (Z_div_mod_eq_full (fbk * v) 32768) as E.
  pose proof (Z.mod_pos_bound (fbk * v) 32768 ltac:(lia)) as B.
  split; nia.
Qed.

Lemma delay_cursor_advance i :
  0 <= i < DELAY_LEN -> Z.land (to_uint32 (i + 1)) DELAY_MASK = (i + 1) mod DELAY_LEN.
Proof.
  unfold DELAY_MASK, DELAY_LEN. intros Hi.
  unfold to_uint32. rewrite (Z.mod_small (i + 1)) by lia.
  exact (land_mask_mod (i + 1) 10 ltac:(lia)).
Qed.

Lemma delay_phase_advance p :
  0 <= p < 256 ->
  to_uint8 (Z.rem (to_uint32 (p + 1)) DELAY_DECIM) = (p + 1) mod DELAY_DECIM.
Proof.
  unfold DELAY_DECIM, to_uint8, to_uint32. intros Hp.
  rewrite (Z.mod_small (p + 1)) by lia.
  rewrite Z.rem_mod_nonneg by lia.
  pose proof (Z.mod_pos_bound (p + 1) 8 ltac:(lia)).
  apply Z.mod_small. lia.
Qed.

Lemma DspDelay_Process_update fbk x buf st :
  0 <= fbk <= 32768 -> in_s24 x -> delay_inv buf st -> phase st = 0 ->
  DspDelay_Process fbk x buf st = delay_update_tick fbk x buf st.
Proof.
  intros Hf Hx (Hbuf & Hidx & Hph & Hlast & Hlp) Hp0.
  unfold DspDelay_Process, delay_update_tick. rewrite Hp0. cbn [Z.eqb].
  pose proof (arr_get_Forall in_s16 buf (idx st) ltac:(unfold in_s16; lia) Hbuf) as Hv.
  destruct (widen_s16 _ Hv) as [Hd Hd24]. rewrite Hd.
  rewrite onepole_lpf_s24_eq by (try assumption; unfold DELAY_FB_LPF_A_Q15; lia).
  cbv zeta.
  set (d := arr_get buf (idx st) * 256) in *.
  set (lp := clamp_s24 (fb_lp_s24 st + DELAY_FB_LPF_A_Q15 * (d - fb_lp_s24 st) / 32768)).
  pose proof (clamp_s24_range
    (fb_lp_s24 st + DELAY_FB_LPF_A_Q15 * (d - fb_lp_s24 st) / 32768)) as Hlp'.
  fold lp in Hlp'.
  rewrite shiftr_15_div.
  pose proof (feedback_scaled_range fbk lp Hf Hlp') as Hfb.
  unfold in_s24 in Hx, Hfb |-.
  rewrite (to_int32_id (fbk * lp / 32768)) by (unfold in_int32; lia).
  unfold add32. rewrite to_int32_id by (unfold in_int32; lia).
  rewrite s24_to_s16_div by apply clamp_s24_range.
  rewrite delay_cursor_advance by assumption.
  cbn [phase idx last_out_s24 fb_lp_s24].
  reflexivity.
Qed.

Lemma DspDelay_Process_hold fbk x buf st :
  0 <= phase st < 256 -> phase st <> 0 ->
  DspDelay_Process fbk x buf st = delay_hold_tick buf st.
Proof.
  intros Hp Hne. unfold DspDelay_Process, delay_hold_tick.
  destruct (Z.eqb_spec (phase st) 0); [contradiction|].
  rewrite delay_phase_advance by assumption. reflexivity.
Qed.

(** The invariant needs no assumption on the feedback or on the input:
    every value that reaches the buffer passes [s24_to_s16]. *)
Lemma DspDelay_Process_inv fbk x buf st :
  delay_inv buf st ->
  let '(buf', st', y) := DspDelay_Process fbk x buf st in
  delay_inv buf' st' /\ in_s24 y.
Proof.
  intros (Hbuf & Hidx & Hph & Hlast & Hlp).
  assert (Hph' : 0 <= (phase st + 1) mod DELAY_DECIM < DELAY_DECIM)
    by (apply Z.mod_pos_bound; unfold DELAY_DECIM; lia).
  destruct (Z.eq_dec (phase st) 0) as [Hp0|Hne].
  - unfold DspDelay_Process. rewrite Hp0. cbn [Z.eqb].
    pose proof (arr_get_Forall in_s16 buf (idx st) ltac:(unfold in_s16; lia) Hbuf) as Hv.
    destruct (widen_s16 _ Hv) as [Hd Hd24]. rewrite Hd.
    unfold onepole_lpf_s24. cbv zeta. cbn [phase idx last_out_s24 fb_lp_s24].
    split; [|assumption].
    unfold delay_inv. cbn [phase idx last_out_s24 fb_lp_s24].
    split; [apply arr_set_Forall; [assumption | apply s24_to_s16_range]|].
    split; [exact (land_mask_range _ 10 ltac:(lia))|].
    split; [vm_compute; split; [discriminate | reflexivity]|].
    split; [assumption | apply clamp_s24_range].
  - rewrite DspDelay_Process_hold by (unfold DELAY_DECIM in *; lia).
    unfold delay_hold_tick, delay_inv. cbn [phase idx last_out_s24 fb_lp_s24].
    split; [|assumption].
    split; [assumption|]. split; [assumption|]. split; [assumption|].
    split; assumption.
Qed.

Lemma delay_inv_init : delay_inv (zeros DELAY_LEN) delay_zero.
Proof.
  unfold delay_inv, in_s24, DELAY_LEN, DELAY_DECIM, delay_zero.
  cbn [idx phase last_out_s24 fb_lp_s24].
  split; [apply zeros_Forall; unfold in_s16; lia | lia].
Qed.

Lemma delay_run_inv fbk xs : forall buf st,
  delay_inv buf st ->
  let '(buf', st', ys) := delay_run fbk xs buf st in
  delay_inv buf' st' /\ Forall in_s24 ys.
Proof.
  induction xs as [|x xs IH]; intros buf st Hinv; cbn [delay_run].
  - split; [assumption | constructor].
  - pose proof (DspDelay_Process_inv fbk x buf st Hinv) as H1.
    destruct (DspDelay_Process fbk x buf st) as [[buf1 st1] y].
    destruct H1 as [Hinv1 Hy].
    specialize (IH buf1 st1 Hinv1).
    destruct (delay_run fbk xs buf1 st1) as [[buf2 st2] ys].
    destruct IH as [Hinv2 Hys]. split; [assumption | now constructor].
Qed.

Lemma delay_hold_from p buf i lo lp fbk x :
  0 < p < DELAY_DECIM ->
  DspDelay_Process fbk x buf
    {| idx := i; phase := p; last_out_s24 := lo; fb_lp_s24 := lp |}
  = (buf, {| idx := i; phase := (p + 1) mod DELAY_DECIM;
             last_out_s24 := lo; fb_lp_s24 := lp |}, lo).
Proof.
  intros Hp. rewrite DspDelay_Process_hold; [reflexivity | |];
    cbn [phase]; unfold DELAY_DECIM in Hp; lia.
Qed.

(** C6. [DspDelay_Process] touches its circular buffer on one call in
    eight. On the tick where the phase counter is 0 it reads the buffer at
    the cursor, low-passes the value read into the feedback filter state,
    scales that by the feedback coefficient, adds the input, saturates,
    writes the result back at the cursor, advances the cursor modulo 1024
    and holds the value read (the delayed sample before feedback) as
    output. On the seven other ticks it returns the held value and changes
    nothing but the phase counter. The cursor stays in [[0, 1024)] and the
    phase counter in [[0, 8)]. Starting at phase 0, eight consecutive calls
    amount to the one update of the first call: eight times the same
    output, and the phase back at 0. *)
Theorem delay_updates_once_in_eight (fbk x : Z) (buf : list Z) (st : DelayState) :
  0 <= fbk <= 32768 -> in_s24 x -> delay_inv buf st ->
  (phase st = 0 -> DspDelay_Process fbk x buf st = delay_update_tick fbk x buf st) /\
  (phase st <> 0 -> DspDelay_Process fbk x buf st = delay_hold_tick buf st) /\
  (let '(buf', st', y) := DspDelay_Process fbk x buf st in
   delay_inv buf' st' /\
   0 <= idx st' < 1024 /\
   phase st' = (phase st + 1) mod 8 /\
   y = last_out_s24 st') /\
  (phase st = 0 ->
   forall xs, length xs = 7%nat ->
   delay_run fbk (x :: xs) buf st =
     let '(buf1, st1, d) := delay_update_tick fbk x buf st in
     (buf1,
      {| idx := idx st1; phase := 0;
         last_out_s24 := last_out_s24 st1; fb_lp_s24 := fb_lp_s24 st1 |},
      replicate 8 d)) /\
  delay_inv (zeros DELAY_LEN) delay_zero.
Proof.
  intros Hf Hx Hinv.
  split; [intros Hp0; now apply DspDelay_Process_update|].
  split; [intros Hne; apply DspDelay_Process_hold;
          [destruct Hinv as (_ & _ & Hph & _); unfold DELAY_DECIM in Hph; lia
          | assumption]|].
  split; [|split; [|apply delay_inv_init]].
  - pose proof (DspDelay_Process_inv fbk x buf st Hinv) as H1.
    pose proof Hinv as (Hbuf & Hidx & Hph & Hlast & Hlp).
    destruct (Z.eq_dec (phase st) 0) as [Hp0|Hne].
    + rewrite DspDelay_Process_update in H1 |- * by assumption.
      unfold delay_update_tick in *. cbv zeta in *.
      destruct H1 as [H1 _]. split; [exact H1|].
      cbn [idx phase last_out_s24]. rewrite Hp0.
      split; [apply Z.mod_pos_bound; unfold DELAY_LEN; lia|].
      split; reflexivity.
    + rewrite DspDelay_Process_hold in H1 |- *
        by (try assumption; unfold DELAY_DECIM in Hph; lia).
      unfold delay_hold_tick in *. destruct H1 as [H1 _]. split; [exact H1|].
      cbn [idx phase last_out_s24]. unfold DELAY_LEN, DELAY_DECIM in *.
      split; [lia|]. split; reflexivity.
  - intros Hp0 xs Hlen.
    destruct xs as [|x1 [|x2 [|x3 [|x4 [|x5 [|x6 [|x7 [|? ?]]]]]]]]; try discriminate Hlen.
    cbn [delay_run].
    rewrite DspDelay_Process_update by assumption.
    unfold delay_update_tick. cbv zeta.
    repeat (rewrite delay_hold_from by (unfold DELAY_DECIM; lia);
            match goal with
            | |- context [(?p + 1) mod DELAY_DECIM] =>
                let v := eval vm_compute in ((p + 1) mod DELAY_DECIM) in
                change ((p + 1) mod DELAY_DECIM) with v
            end).
    reflexivity.
Qed.

Lemma delay_updates_once_in_eight_witness :
  DspDelay_Process 16384 8000000 (zeros DELAY_LEN) delay_zero
    = delay_update_tick 16384 8000000 (zeros DELAY_LEN) delay_zero.
Proof.
  refine (proj1 (delay_updates_once_in_eight 16384 8000000 (zeros DELAY_LEN) delay_zero
                   _ _ delay_inv_init) _).
  - lia.
  - unfold in_s24. lia.
  - reflexivity.
Defined.

End Delay.

(** ** Reverb *)

Section Reverb.

Lemma reverb_inv_init : reverb_inv reverb_chan_zero.
Proof. split; apply zeros_Forall; unfold in_s24; lia. Qed.

Lemma allpass_process_s24_len_inv x buf base i mask :
  Forall in_s24 buf ->
  let '(buf', _, y) := allpass_process_s24_len x buf base i mask in
  Forall in_s24 buf' /\ in_s24 y.
Proof.
  intros Hbuf. unfold allpass_process_s24_len. cbv zeta.
  split; [apply arr_set_Forall; [assumption|]|]; apply clamp_s24_range.
Qed.

(** Every write of the reverb goes through [clamp_s24], and so does its
    result; no assumption on the input or the coefficients is needed. *)
Lemma DspReverb_Process_inv fbk damp x c step :
  reverb_inv c ->
  let '(c', y) := DspReverb_Process fbk damp x c step in
  reverb_inv c' /\ in_s24 y.
Proof.
  intros [Hd Ha]. unfold DspReverb_Process.
  destruct (triangle_lfo_offset_q8 (rv_lfo c) step REVERB_MOD_AMP_SAMPLES)
    as [lfo_phase mod_q8].
  cbv zeta.
  match goal with
  | |- context [allpass_process_s24_len ?d (rv_ap c) 0 (rv_ap1_idx c) REVERB_AP1_MASK] =>
      pose proof (allpass_process_s24_len_inv d (rv_ap c) 0 (rv_ap1_idx c)
                    REVERB_AP1_MASK Ha) as H1;
      destruct (allpass_process_s24_len d (rv_ap c) 0 (rv_ap1_idx c) REVERB_AP1_MASK)
        as [[ap1 i1] y1]
  end.
  destruct H1 as [Hap1 Hy1].
  pose proof (allpass_process_s24_len_inv y1 ap1 REVERB_AP1_LEN (rv_ap2_idx c)
                REVERB_AP2_MASK Hap1) as H2.
  destruct (allpass_process_s24_len y1 ap1 REVERB_AP1_LEN (rv_ap2_idx c) REVERB_AP2_MASK)
    as [[ap2 i2] y2].
  destruct H2 as [Hap2 Hy2].
  split; [|assumption].
  split; cbn [rv_delay rv_ap]; [|assumption].
  apply arr_set_Forall; [assumption | apply clamp_s24_range].
Qed.

Lemma reverb_run_inv fbk damp step xs : forall c,
  reverb_inv c ->
  let '(c', ys) := reverb_run fbk damp step xs c in
  reverb_inv c' /\ Forall in_s24 ys.
Proof.
  induction xs as [|x xs IH]; intros c Hinv; cbn [reverb_run].
  - split; [assumption | constructor].
  - pose proof (DspReverb_Process_inv fbk damp x c step Hinv) as H1.
    destruct (DspReverb_Process fbk damp x c step) as [c1 y].
    destruct H1 as [Hinv1 Hy].
    specialize (IH c1 Hinv1).
    destruct (reverb_run fbk damp step xs c1) as [c2 ys].
    destruct IH as [Hinv2 Hys]. split; [assumption | now constructor].
Qed.

Lemma delay_run_length fbk xs : forall buf st,
  length (delay_run fbk xs buf st).2 = length xs.
Proof.
  induction xs as [|x xs IH]; intros buf st; cbn [delay_run]; [reflexivity|].
  destruct (DspDelay_Process fbk x buf st) as [[b1 s1] y].
  specialize (IH b1 s1).
  destruct (delay_run fbk xs b1 s1) as [[b2 s2] ys]. cbn in *. now rewrite IH.
Qed.

Lemma reverb_run_length fbk damp step xs : forall c,
  length (reverb_run fbk damp step xs c).2 = length xs.
Proof.
  induction xs as [|x xs IH]; intros c; cbn [reverb_run]; [reflexivity|].
  destruct (DspReverb_Process fbk damp x c step) as [c1 y].
  specialize (IH c1).
  destruct (reverb_run fbk damp step xs c1) as [c2 ys]. cbn in *. now rewrite IH.
Qed.

(** With the modulation amplitude compiled to 0 the LFO only advances its
    phase; the offset is 0. *)
Lemma triangle_lfo_disabled ph step :
  triangle_lfo_offset_q8 ph step REVERB_MOD_AMP_SAMPLES = (to_uint32 (ph + step), 0).
Proof.
  unfold triangle_lfo_offset_q8, REVERB_MOD_AMP_SAMPLES. cbv zeta.
  change (mul32 0 256) with 0.
  unfold mul32. rewrite Z.mul_0_r. reflexivity.
Qed.

Lemma reverb_tap_index i :
  0 <= i < REVERB_DELAY_LEN ->
  Z.land (add32 (add32 (to_int32 i) 0) REVERB_DELAY_LEN) REVERB_DELAY_MASK = i.
Proof.
  unfold REVERB_DELAY_MASK, REVERB_DELAY_LEN, add32. intros Hi.
  rewrite (to_int32_id i) by (unfold in_int32; lia).
  rewrite Z.add_0_r, (to_int32_id i) by (unfold in_int32; lia).
  rewrite to_int32_id by (unfold in_int32; lia).
  change (2048 - 1) with (2 ^ 11 - 1). rewrite land_mask_mod by lia.
  change (2 ^ 11) with 2048.
  rewrite <- (Z.mod_small i 2048) at 2 by lia.
  rewrite <- Zplus_mod_idemp_r. change (2048 mod 2048) with 0.
  now rewrite Z.add_0_r.
Qed.

(** The tap read: with the offset at 0 the interpolation returns the entry
    at the cursor, which is the oldest sample of the line, untouched by the
    damping filter. *)
Lemma reverb_tap_value buf i d1 :
  Forall in_s24 buf ->
  add32 (arr_get buf i) (to_int32 (Z.shiftr (sub32 d1 (arr_get buf i) * 0) 8))
    = arr_get buf i.
Proof.
  intros Hbuf. rewrite Z.mul_0_r. change (to_int32 (Z.shiftr 0 8)) with 0.
  unfold add32. rewrite Z.add_0_r.
  pose proof (arr_get_Forall in_s24 buf i ltac:(unfold in_s24; lia) Hbuf) as H.
  unfold in_s24 in H. apply to_int32_id. unfold in_int32. lia.
Qed.

Lemma DspReverb_Process_output fbk damp x c step :
  reverb_inv c -> 0 <= rv_delay_idx c < REVERB_DELAY_LEN ->
  (DspReverb_Process fbk damp x c step).2
    = diffuse (arr_get (rv_delay c) (rv_delay_idx c)) c.
Proof.
  intros [Hd Ha] Hi. unfold DspReverb_Process, diffuse.
  rewrite triangle_lfo_disabled. cbv zeta.
  change (Z.shiftr 0 8) with 0. change (Z.land 0 255) with 0.
  rewrite reverb_tap_index by assumption.
  rewrite reverb_tap_value by assumption.
  destruct (allpass_process_s24_len (arr_get (rv_delay c) (rv_delay_idx c))
              (rv_ap c) 0 (rv_ap1_idx c) REVERB_AP1_MASK) as [[ap1 i1] y1].
  destruct (allpass_process_s24_len y1 ap1 REVERB_AP1_LEN (rv_ap2_idx c) REVERB_AP2_MASK)
    as [[ap2 i2] y2].
  reflexivity.
Qed.

Lemma DspReverb_Process_state fbk damp x c step :
  reverb_inv c -> 0 <= rv_delay_idx c < REVERB_DELAY_LEN ->
  let raw := arr_get (rv_delay c) (rv_delay_idx c) in
  let c' := (DspReverb_Process fbk damp x c step).1 in
  rv_lp c' = add32 (rv_lp c) (to_int32 (Z.shiftr (damp * sub32 raw (rv_lp c)) 15)) /\
  rv_delay c' =
    arr_set (rv_delay c) (rv_delay_idx c)
      (clamp_s24 (add32 x (to_int32 (Z.shiftr (fbk * rv_lp c') 15)))) /\
  rv_delay_idx c' = (rv_delay_idx c + 1) mod REVERB_DELAY_LEN /\
  rv_lfo c' = to_uint32 (rv_lfo c + step).
Proof.
  intros [Hd Ha] Hi. cbv zeta. unfold DspReverb_Process.
  rewrite triangle_lfo_disabled. cbv zeta.
  change (Z.shiftr 0 8) with 0. change (Z.land 0 255) with 0.
  rewrite reverb_tap_index by assumption.
  rewrite reverb_tap_value by assumption.
  destruct (allpass_process_s24_len (arr_get (rv_delay c) (rv_delay_idx c))
              (rv_ap c) 0 (rv_ap1_idx c) REVERB_AP1_MASK) as [[ap1 i1] y1].
  destruct (allpass_process_s24_len y1 ap1 REVERB_AP1_LEN (rv_ap2_idx c)
              REVERB_AP2_MASK) as [[ap2 i2] y2].
  cbn [fst rv_lp rv_delay rv_delay_idx rv_lfo].
  split; [reflexivity|]. split; [reflexivity|]. split; [|reflexivity].
  unfold REVERB_DELAY_MASK, REVERB_DELAY_LEN in *. unfold to_uint32.
  rewrite (Z.mod_small (rv_delay_idx c + 1)) by lia.
  exact (land_mask_mod _ 11 ltac:(lia)).
Qed.

(** Under legal coefficients and a 24-bit input nothing in the feedback
    loop wraps: the damping filter state, the one loop variable that is not
    saturated, stays between its old value and the tap, and the value
    written back is the saturated plain sum. *)
Lemma DspReverb_Process_exact fbk damp x c step :
  0 <= fbk <= 32768 -> 0 <= damp <= 32768 -> in_s24 x ->
  reverb_inv c -> 0 <= rv_delay_idx c < REVERB_DELAY_LEN -> in_s24 (rv_lp c) ->
  let raw := arr_get (rv_delay c) (rv_delay_idx c) in
  let c' := (DspReverb_Process fbk damp x c step).1 in
  rv_lp c' = rv_lp c + damp * (raw - rv_lp c) / 32768 /\
  in_s24 (rv_lp c') /\
  rv_delay c' =
    arr_set (rv_delay c) (rv_delay_idx c) (clamp_s24 (x + fbk * rv_lp c' / 32768)).
Proof.
  intros Hf Hdm Hx Hinv Hi Hlp. cbv zeta.
  destruct (DspReverb_Process_state fbk damp x c step Hinv Hi) as (E1 & E2 & _).
  cbv zeta in E1, E2.
  pose proof (arr_get_Forall in_s24 (rv_delay c) (rv_delay_idx c)
                ltac:(unfold in_s24; lia) (proj1 Hinv)) as Hraw.
  set (raw := arr_get (rv_delay c) (rv_delay_idx c)) in *.
  unfold in_s24 in Hx, Hlp, Hraw.
  assert (E1' : rv_lp (DspReverb_Process fbk damp x c step).1
                = rv_lp c + damp * (raw - rv_lp c) / 32768).
  { rewrite E1. unfold add32, sub32.
    rewrite (to_int32_id (raw - rv_lp c)) by (unfold in_int32; lia).
    rewrite shiftr_15_div.
    pose proof (lowpass_step_between damp (rv_lp c) raw Hdm) as B.
    rewrite (to_int32_id (damp * (raw - rv_lp c) / 32768)) by (unfold in_int32; lia).
    apply to_int32_id. unfold in_int32. lia. }
  pose proof (lowpass_step_between damp (rv_lp c) raw Hdm) as B.
  assert (Hlp' : in_s24 (rv_lp (DspReverb_Process fbk damp x c step).1))
    by (rewrite E1'; unfold in_s24; lia).
  split; [exact E1'|]. split; [exact Hlp'|].
  rewrite E2. rewrite shiftr_15_div.
  pose proof (feedback_scaled_range fbk _ Hf Hlp') as Hfb. unfold in_s24 in Hfb.
  rewrite (to_int32_id (fbk * _ / 32768)) by (unfold in_int32; lia).
  unfold add32. rewrite to_int32_id by (unfold in_int32; lia).
  reflexivity.
Qed.

Lemma DspReverb_Process_cursors fbk damp x c step :
  let c' := (DspReverb_Process fbk damp x c step).1 in
  0 <= rv_delay_idx c' < REVERB_DELAY_LEN /\
  0 <= rv_ap1_idx c' < REVERB_AP1_LEN /\
  0 <= rv_ap2_idx c' < REVERB_AP2_LEN.
Proof.
  unfold DspReverb_Process.
  destruct (triangle_lfo_offset_q8 (rv_lfo c) step REVERB_MOD_AMP_SAMPLES)
    as [lfo_phase mod_q8].
  cbv zeta. unfold allpass_process_s24_len. cbv zeta.
  cbn [fst rv_delay_idx rv_ap1_idx rv_ap2_idx].
  split; [|split].
  - exact (land_mask_range _ 11 ltac:(lia)).
  - exact (land_mask_range _ 6 ltac:(lia)).
  - exact (land_mask_range _ 6 ltac:(lia)).
Qed.

Lemma reverb_run_loop_exact fbk damp step xs : forall c,
  0 <= fbk <= 32768 -> 0 <= damp <= 32768 -> Forall in_s24 xs ->
  reverb_inv c -> 0 <= rv_delay_idx c < REVERB_DELAY_LEN -> in_s24 (rv_lp c) ->
  let c' := (reverb_run fbk damp step xs c).1 in
  0 <= rv_delay_idx c' < REVERB_DELAY_LEN /\ in_s24 (rv_lp c').
Proof.
  induction xs as [|x xs IH]; intros c Hf Hdm Hxs Hinv Hi Hlp; cbn [reverb_run].
  - split; assumption.
  - apply Forall_cons in Hxs as [Hx Hxs].
    pose proof (DspReverb_Process_exact fbk damp x c step Hf Hdm Hx Hinv Hi Hlp)
      as (_ & Hlp1 & _).
    pose proof (DspReverb_Process_cursors fbk damp x c step) as (Hi1 & _).
    pose proof (DspReverb_Process_inv fbk damp x c step Hinv) as Hinv1.
    destruct (DspReverb_Process fbk damp x c step) as [c1 y].
    cbn [fst] in Hlp1, Hi1. destruct Hinv1 as [Hinv1 _].
    specialize (IH c1 Hf Hdm Hxs Hinv1 Hi1 Hlp1). cbv zeta in IH.
    destruct (reverb_run fbk damp step xs c1) as [c2 ys]. exact IH.
Qed.

(** C1. For every feedback value in [[0, 32768]] (used as delay feedback
    and as reverb feedback) and every stream of input samples in the 24-bit
    range, after each processed sample, counted from initialisation, all
    entries of the delay's circular buffer (which even fit 16 bits) and of
    the reverb's delay-line and allpass buffers lie in
    [[-8388608, 8388607]], and so does every sample returned so far by
    [DspDelay_Process] and [DspReverb_Process]. The bound 32768 is
    included: saturation, not a feedback below unity, caps the loop. The
    filter states inside the two loops stay in that range as well (for the
    reverb, with a damping coefficient in its range [[0, 32768]]). *)
Theorem effect_buffers_stay_saturated (fbk damp step : Z) (xs : list Z) (n : nat) :
  0 <= fbk <= 32768 ->
  Forall in_s24 xs ->
  (let '(buf, st, ys) := delay_run fbk (take n xs) (zeros DELAY_LEN) delay_zero in
   Forall in_s24 buf /\ Forall in_s16 buf /\ Forall in_s24 ys /\
   length ys = length (take n xs) /\ in_s24 (fb_lp_s24 st)) /\
  (let '(c, ys) := reverb_run fbk damp step (take n xs) reverb_chan_zero in
   Forall in_s24 (rv_delay c) /\ Forall in_s24 (rv_ap c) /\ Forall in_s24 ys /\
   length ys = length (take n xs) /\
   (0 <= damp <= 32768 -> in_s24 (rv_lp c))).
Proof.
  intros Hf Hxs.
  assert (Hxs' : Forall in_s24 (take n xs)) by now apply Forall_take.
  revert Hxs'. generalize (take n xs). clear xs n Hxs. intros xs Hxs. split.
  - pose proof (delay_run_inv fbk xs _ _ delay_inv_init) as H.
    pose proof (delay_run_length fbk xs (zeros DELAY_LEN) delay_zero) as Hlen.
    destruct (delay_run fbk xs (zeros DELAY_LEN) delay_zero) as [[buf st] ys].
    destruct H as [(Hbuf & _ & _ & _ & Hlp) Hys].
    split; [|split; [assumption | split; [assumption | split; [exact Hlen | exact Hlp]]]].
    eapply Forall_impl; [exact Hbuf | exact in_s16_in_s24].
  - pose proof (reverb_run_inv fbk damp step xs _ reverb_inv_init) as H.
    pose proof (reverb_run_length fbk damp step xs reverb_chan_zero) as Hlen.
    pose proof (fun Hdm => reverb_run_loop_exact fbk damp step xs reverb_chan_zero
                  Hf Hdm Hxs reverb_inv_init
                  ltac:(vm_compute; split; [discriminate | reflexivity])
                  ltac:(vm_compute; split; discriminate)) as Hloop.
    cbv zeta in Hloop.
    destruct (reverb_run fbk damp step xs reverb_chan_zero) as [c ys].
    destruct H as [[Hd Ha] Hys].
    split; [assumption | split; [assumption | split; [assumption | split; [exact Hlen|]]]].
    intros Hdm. exact (proj2 (Hloop Hdm)).
Qed.

Lemma effect_buffers_stay_saturated_witness :
  (let '(buf, st, ys) :=
     delay_run 32768 (take 3 [8388607; -8388608; 8388607]) (zeros DELAY_LEN) delay_zero in
   Forall in_s24 buf /\ Forall in_s16 buf /\ Forall in_s24 ys /\
   length ys = length (take 3 [8388607; -8388608; 8388607]) /\ in_s24 (fb_lp_s24 st)) /\
  (let '(c, ys) :=
     reverb_run 32768 8192 65536 (take 3 [8388607; -8388608; 8388607]) reverb_chan_zero in
   Forall in_s24 (rv_delay c) /\ Forall in_s24 (rv_ap c) /\ Forall in_s24 ys /\
   length ys = length (take 3 [8388607; -8388608; 8388607]) /\
   (0 <= 8192 <= 32768 -> in_s24 (rv_lp c))).
Proof.
  apply (effect_buffers_stay_saturated 32768 8192 65536 [8388607; -8388608; 8388607] 3).
  - lia.
  - repeat constructor; unfold in_s24; lia.
Defined.

(** C7 (as amended). In [DspReverb_Process] the value that enters the two
    allpass stages in series (each the single-coefficient allpass with gain
    22938 in Q15 over a 64-entry circular buffer whose cursor wraps by a
    mask) is the raw tap read from the delay line at the cursor. The
    damping low-pass is applied to that tap for the feedback path only: the
    returned sample does not depend on the damping coefficient nor on the
    low-pass state. The monolithic unit has the same function. *)
Theorem reverb_diffuses_raw_tap (fbk damp x step : Z) (c : ReverbChan) :
  reverb_inv c ->
  0 <= rv_delay_idx c < REVERB_DELAY_LEN ->
  let raw := arr_get (rv_delay c) (rv_delay_idx c) in
  let out := DspReverb_Process fbk damp x c step in
  out.2 = diffuse raw c /\
  (forall fbk' damp' x' lp',
     (DspReverb_Process fbk' damp' x'
        {| rv_delay := rv_delay c; rv_delay_idx := rv_delay_idx c; rv_lp := lp';
           rv_ap := rv_ap c; rv_ap1_idx := rv_ap1_idx c; rv_ap2_idx := rv_ap2_idx c;
           rv_lfo := rv_lfo c |} step).2 = out.2) /\
  rv_lp out.1 = add32 (rv_lp c) (to_int32 (Z.shiftr (damp * sub32 raw (rv_lp c)) 15)) /\
  rv_delay out.1 =
    arr_set (rv_delay c) (rv_delay_idx c)
      (clamp_s24 (add32 x (to_int32 (Z.shiftr (fbk * rv_lp out.1) 15)))) /\
  (0 <= rv_delay_idx out.1 < 2048 /\
   0 <= rv_ap1_idx out.1 < 64 /\ 0 <= rv_ap2_idx out.1 < 64) /\
  reverb_inv out.1 /\
  Mono.reverb_process_s24 fbk damp x c step = out.
Proof.
  intros Hinv Hi. cbv zeta.
  split; [now apply DspReverb_Process_output|].
  split.
  { intros fbk' damp' x' lp'.
    rewrite !DspReverb_Process_output by assumption. reflexivity. }
  destruct (DspReverb_Process_state fbk damp x c step Hinv Hi) as (E1 & E2 & _).
  split; [exact E1|]. split; [exact E2|]. split; [|split; [|reflexivity]].
  - exact (DspReverb_Process_cursors fbk damp x c step).
  - pose proof (DspReverb_Process_inv fbk damp x c step Hinv) as H.
    destruct (DspReverb_Process fbk damp x c step) as [c' y]. exact (proj1 H).
Qed.

Lemma reverb_diffuses_raw_tap_witness :
  (DspReverb_Process 22000 8192 1000 reverb_chan_zero 65536).2
    = diffuse (arr_get (rv_delay reverb_chan_zero) 0) reverb_chan_zero.
Proof.
  refine (proj1 (reverb_diffuses_raw_tap 22000 8192 1000 65536 reverb_chan_zero
                   reverb_inv_init _)).
  vm_compute. split; [discriminate | reflexivity].
Defined.

(** C7, the claim as first stated, fails: one sample of value 1000 followed
    by 2047 zero samples brings the cursor back onto that sample; the next
    call returns 491, the diffusion of the raw tap 1000, where diffusing the
    damped tap (250) would return 123. *)
Lemma reverb_output_differs_from_damped_diffusion :
  let c := (reverb_run 22000 8192 65536 (1000 :: replicate 2047 0) reverb_chan_zero).1 in
  arr_get (rv_delay c) (rv_delay_idx c) = 1000 /\
  (DspReverb_Process 22000 8192 0 c 65536).2 = 491 /\
  (reverb_process_damped_diffusion 22000 8192 0 c 65536).2 = 123 /\
  (DspReverb_Process 22000 8192 0 c 65536).2
    <> (reverb_process_damped_diffusion 22000 8192 0 c 65536).2.
Proof. vm_compute. repeat split; discriminate. Qed.

End Reverb.

(** ** Bounds kept by the filter primitives *)

Section FilterBounds.

(** X1. [mix_s24] is a crossfade: for 24-bit [dry] and [wet] and a mix in
    [[0, 32768]] the result lies between the two, so it is a 24-bit sample
    without further saturation; mix 0 returns [dry] and mix 32768 returns
    [wet]. *)
Theorem mix_s24_between (dry wet mix : Z) :
  in_s24 dry -> in_s24 wet -> 0 <= mix <= 32768 ->
  Z.min dry wet <= mix_s24 dry wet mix <= Z.max dry wet /\
  in_s24 (mix_s24 dry wet mix) /\
  mix_s24 dry wet 0 = dry /\
  mix_s24 dry wet 32768 = wet.
Proof.
  unfold in_s24. intros Hd Hw Hm.
  assert (Hgen : forall m, 0 <= m <= 32768 ->
            mix_s24 dry wet m = (dry * (32768 - m) + wet * m) / 32768 /\
            Z.min dry wet <= (dry * (32768 - m) + wet * m) / 32768 <= Z.max dry wet).
  { intros m Hm'. unfold mix_s24, sub32. cbv zeta.
    rewrite (to_int32_id (32768 - m)) by (unfold in_int32; lia).
    rewrite shiftr_15_div.
    pose proof (Z_div_mod_eq_full (dry * (32768 - m) + wet * m) 32768) as E.
    pose proof (Z.mod_pos_bound (dry * (32768 - m) + wet * m) 32768 ltac:(lia)) as B.
    assert (Hb : Z.min dry wet <= (dry * (32768 - m) + wet * m) / 32768
                 <= Z.max dry wet).
    { destruct (Z.le_gt_cases dry wet); split; nia. }
    split; [|exact Hb]. apply to_int32_id. unfold in_int32. lia. }
  destruct (Hgen mix Hm) as [E B]. rewrite E.
  split; [exact B|]. split; [lia|].
  split.
  - rewrite (proj1 (Hgen 0 ltac:(lia))).
    replace (dry * (32768 - 0) + wet * 0) with (dry * 32768) by lia.
    apply Z.div_mul. lia.
  - rewrite (proj1 (Hgen 32768 ltac:(lia))).
    replace (dry * (32768 - 32768) + wet * 32768) with (wet * 32768) by lia.
    apply Z.div_mul. lia.
Qed.

Lemma mix_s24_between_witness :
  Z.min 8388607 (-8388608) <= mix_s24 8388607 (-8388608) 11469 <= Z.max 8388607 (-8388608).
Proof.
  refine (proj1 (mix_s24_between 8388607 (-8388608) 11469 _ _ _));
    unfold in_s24; lia.
Defined.

Lemma shiftr_10_div x : Z.shiftr x 10 = x / 1024.
Proof. now rewrite Z.shiftr_div_pow2 by lia. Qed.

Lemma hard_tube_clip_s24_eq x :
  in_s24 x ->
  hard_tube_clip_s24 x =
    if x >? 1200000 then 1200000 + (x - 1200000) / 1024
    else if x <? -900000 then -900000 + (x + 900000) / 1024
    else x.
Proof.
  unfold in_s24. intros Hx. unfold hard_tube_clip_s24. cbv zeta.
  change (- (900000)) with (-900000).
  destruct (Z.gtb_spec x 1200000).
  - unfold sub32, add32. rewrite (to_int32_id (x - 1200000)) by (unfold in_int32; lia).
    rewrite shiftr_10_div.
    pose proof (Z_div_mod_eq_full (x - 1200000) 1024) as E.
    pose proof (Z.mod_pos_bound (x - 1200000) 1024 ltac:(lia)) as B.
    apply to_int32_id. unfold in_int32. lia.
  - destruct (Z.ltb_spec x (-900000)); [|reflexivity].
    unfold add32. rewrite (to_int32_id (x + 900000)) by (unfold in_int32; lia).
    rewrite shiftr_10_div.
    pose proof (Z_div_mod_eq_full (x + 900000) 1024) as E.
    pose proof (Z.mod_pos_bound (x + 900000) 1024 ltac:(lia)) as B.
    apply to_int32_id. unfold in_int32. lia.
Qed.

Lemma hard_tube_clip_s24_range x :
  in_s24 x -> in_clip_range (hard_tube_clip_s24 x).
Proof.
  intros Hx. rewrite hard_tube_clip_s24_eq by assumption.
  unfold in_s24, in_clip_range in *.
  pose proof (Z_div_mod_eq_full (x - 1200000) 1024) as E1.
  pose proof (Z.mod_pos_bound (x - 1200000) 1024 ltac:(lia)) as B1.
  pose proof (Z_div_mod_eq_full (x + 900000) 1024) as E2.
  pose proof (Z.mod_pos_bound (x + 900000) 1024 ltac:(lia)) as B2.
  destruct (Z.gtb_spec x 1200000); destruct (Z.ltb_spec x (-900000)); lia.
Qed.

(** X2. [hard_tube_clip_s24] on 24-bit samples: it is the identity between
    the thresholds -900000 and 1200000, compresses what is beyond a
    threshold by 1024 (so no sample leaves [[-907314, 1207020]]), and keeps
    the order of samples. *)
Theorem hard_tube_clip_s24_shape (x y : Z) :
  in_s24 x -> in_s24 y ->
  in_clip_range (hard_tube_clip_s24 x) /\
  (-900000 <= x <= 1200000 -> hard_tube_clip_s24 x = x) /\
  (1200000 < x -> hard_tube_clip_s24 x = 1200000 + (x - 1200000) / 1024) /\
  (x < -900000 -> hard_tube_clip_s24 x = -900000 + (x + 900000) / 1024) /\
  (x <= y -> hard_tube_clip_s24 x <= hard_tube_clip_s24 y).
Proof.
  intros Hx Hy. rewrite !hard_tube_clip_s24_eq by assumption.
  unfold in_s24, in_clip_range in *.
  pose proof (Z_div_mod_eq_full (x - 1200000) 1024) as E1.
  pose proof (Z.mod_pos_bound (x - 1200000) 1024 ltac:(lia)) as B1.
  pose proof (Z_div_mod_eq_full (x + 900000) 1024) as E2.
  pose proof (Z.mod_pos_bound (x + 900000) 1024 ltac:(lia)) as B2.
  pose proof (Z_div_mod_eq_full (y - 1200000) 1024) as E3.
  pose proof (Z.mod_pos_bound (y - 1200000) 1024 ltac:(lia)) as B3.
  pose proof (Z_div_mod_eq_full (y + 900000) 1024) as E4.
  pose proof (Z.mod_pos_bound (y + 900000) 1024 ltac:(lia)) as B4.
  destruct (Z.gtb_spec x 1200000); destruct (Z.ltb_spec x (-900000));
    destruct (Z.gtb_spec y 1200000); destruct (Z.ltb_spec y (-900000));
    repeat split; intros; lia.
Qed.

Lemma hard_tube_clip_s24_shape_witness :
  hard_tube_clip_s24 8388607 = 1200000 + (8388607 - 1200000) / 1024.
Proof.
  pose proof (hard_tube_clip_s24_shape 8388607 8388607) as H.
  destruct H as (_ & _ & H & _); [unfold in_s24; lia | unfold in_s24; lia |].
  apply H. lia.
Defined.

Lemma floor_half_between a b lo hi :
  lo <= a <= hi -> lo <= b <= hi -> lo <= (a + b) / 2 <= hi.
Proof.
  intros Ha Hb.
  pose proof (Z_div_mod_eq_full (a + b) 2) as E.
  pose proof (Z.mod_pos_bound (a + b) 2 ltac:(lia)) as B. lia.
Qed.

(** X3. Whatever the drive, the input and the high-pass and oversampling
    states, [DspDistortion_Process] returns its low-pass state, and that
    state stays within the clipper's range [[-907314, 1207020]] once it is
    in it (it starts at 0): the distortion output is bounded by the clip
    thresholds and their knee, not by the drive. *)
Theorem distortion_output_in_clip_range (drive x : Z) (st : DistState) :
  in_clip_range (lp_y1 st) ->
  let out := DspDistortion_Process drive st x in
  out.2 = lp_y1 out.1 /\
  in_clip_range out.2 /\
  Z.min (lp_y1 st) (-907314) <= out.2 <= Z.max (lp_y1 st) 1207020 /\
  hp_x1 out.1 = x.
Proof.
  unfold in_clip_range. intros Hlp. cbv zeta.
  unfold DspDistortion_Process. cbv zeta. cbn [fst snd lp_y1 hp_x1].
  set (hp_y := add32 (sub32 x (hp_x1 st)) (to_int32 (Z.shiftr (32113 * hp_y1 st) 15))).
  set (d24 := to_int32 (Z.shiftr (hp_y * drive) 8)).
  pose proof (hard_tube_clip_s24_range (clamp_s24 d24) (clamp_s24_range _)) as H0.
  pose proof (hard_tube_clip_s24_range (clamp_s24 (Z.shiftr (add32 d24 (os_x1 st)) 1))
                (clamp_s24_range _)) as H1.
  set (y0 := hard_tube_clip_s24 (clamp_s24 d24)) in *.
  set (y1 := hard_tube_clip_s24 (clamp_s24 (Z.shiftr (add32 d24 (os_x1 st)) 1))) in *.
  unfold in_clip_range in H0, H1.
  assert (E0 : Z.shiftr (add32 y0 y1) 1 = (y0 + y1) / 2).
  { unfold add32. rewrite to_int32_id by (unfold in_int32; lia).
    now rewrite Z.shiftr_div_pow2 by lia. }
  rewrite !E0.
  pose proof (floor_half_between y0 y1 (-907314) 1207020 H0 H1) as Hy.
  set (y24 := (y0 + y1) / 2) in *.
  pose proof (lowpass_step_between 12000 (lp_y1 st) y24 ltac:(lia)) as B.
  assert (E1 : add32 (lp_y1 st) (to_int32 (Z.shiftr (12000 * sub32 y24 (lp_y1 st)) 15))
               = lp_y1 st + 12000 * (y24 - lp_y1 st) / 32768).
  { unfold sub32. rewrite (to_int32_id (y24 - lp_y1 st)) by (unfold in_int32; lia).
    rewrite shiftr_15_div.
    rewrite (to_int32_id (12000 * (y24 - lp_y1 st) / 32768)) by (unfold in_int32; lia).
    unfold add32. apply to_int32_id. unfold in_int32. lia. }
  rewrite !E1.
  set (lp := lp_y1 st + 12000 * (y24 - lp_y1 st) / 32768) in *.
  rewrite shiftr_8_div, Z.div_mul by lia.
  rewrite (to_int32_id lp) by (unfold in_int32; lia).
  rewrite clamp_s24_id by (unfold in_s24; lia).
  repeat split; lia.
Qed.

Lemma distortion_output_in_clip_range_witness :
  in_clip_range (DspDistortion_Process 131072 dist_zero 8388607).2.
Proof.
  refine (proj1 (proj2 (distortion_output_in_clip_range 131072 8388607 dist_zero _))).
  unfold in_clip_range. cbn. lia.
Defined.

Lemma hpf_step_bounds r x1 y1 :
  0 <= r <= 32684 -> in_s24 x1 -> -8388999 <= y1 - x1 <= 8388999 ->
  -8388999 <= r * y1 / 32768 - x1 <= 8388999.
Proof.
  unfold in_s24. intros Hr Hx Hz.
  pose proof (Z_div_mod_eq_full (r * y1) 32768) as E.
  pose proof (Z.mod_pos_bound (r * y1) 32768 ltac:(lia)) as B.
  set (q := r * y1 / 32768) in *. set (m := (r * y1) mod 32768) in *.
  assert (Hy : r * y1 = r * (y1 - x1) + r * x1) by lia.
  split.
  - (* 32768 (q - x1) > r z - (32768 - r) x1 - 32768 *)
    assert (r * (y1 - x1) >= r * (-8388999)) by nia.
    assert ((32768 - r) * x1 <= (32768 - r) * 8388607) by nia.
    assert ((32768 - r) * 391 >= 32768) by nia.
    lia.
  - assert (r * (y1 - x1) <= r * 8388999) by nia.
    assert ((32768 - r) * x1 >= (32768 - r) * (-8388608)) by nia.
    lia.
Qed.

(** X4. The first-order high-pass ([DspFilters_Hpf1], and
    [DspFilters_DcBlock], which is the same filter at R = 32684) never
    overflows on 24-bit input for any coefficient in [[0, 32684]], which
    covers the corners in use (32684, 32384, 32004): its stored output stays
    within [2^23 + 391] of its stored input, so the 32-bit arithmetic is
    exact, and the returned sample is the saturated stored output. *)
Theorem hpf1_no_overflow (st : DcBlockState) (x r : Z) :
  0 <= r <= 32684 -> in_s24 x -> hpf_inv st ->
  let out := DspFilters_Hpf1 st x r in
  hpf_inv out.1 /\
  dc_x1 out.1 = x /\
  dc_y1 out.1 = x - dc_x1 st + r * dc_y1 st / 32768 /\
  out.2 = clamp_s24 (dc_y1 out.1) /\
  DspFilters_DcBlock st x = DspFilters_Hpf1 st x 32684.
Proof.
  intros Hr Hx [Hx1 Hz]. cbv zeta.
  pose proof (hpf_step_bounds r (dc_x1 st) (dc_y1 st) Hr Hx1 Hz) as B.
  assert (E : DspFilters_Hpf1 st x r =
              ({| dc_x1 := x; dc_y1 := x - dc_x1 st + r * dc_y1 st / 32768 |},
               clamp_s24 (x - dc_x1 st + r * dc_y1 st / 32768))).
  { unfold DspFilters_Hpf1. cbv zeta. unfold in_s24 in Hx, Hx1.
    rewrite shiftr_15_div.
    unfold sub32. rewrite (to_int32_id (x - dc_x1 st)) by (unfold in_int32; lia).
    rewrite (to_int32_id (r * dc_y1 st / 32768)) by (unfold in_int32; lia).
    unfold add32. rewrite to_int32_id by (unfold in_int32; lia). reflexivity. }
  rewrite E. cbn [fst snd dc_x1 dc_y1].
  split; [|repeat split].
  unfold hpf_inv, in_s24 in *. cbn [dc_x1 dc_y1]. lia.
Qed.

Lemma hpf1_no_overflow_witness :
  dc_y1 (DspFilters_Hpf1 dc_zero 8388607 32384).1
    = 8388607 - dc_x1 dc_zero + 32384 * dc_y1 dc_zero / 32768.
Proof.
  refine (proj1 (proj2 (proj2 (hpf1_no_overflow dc_zero 8388607 32384 _ _ _)))).
  - lia.
  - unfold in_s24. lia.
  - unfold hpf_inv, in_s24. cbn. lia.
Defined.

(** X5. The one-pole low-pass [DspFilters_OnePole] (and the identical
    [onepole_lpf_s24] of the delay) moves its state toward the input without
    overshoot: for a 24-bit input and state and a coefficient in
    [[0, 32768]] the new state, which is also the result, lies between the
    old state and the input; coefficient 0 freezes the state and
    coefficient 32768 copies the input. *)
Theorem onepole_no_overshoot (x st a : Z) :
  in_s24 x -> in_s24 st -> 0 <= a <= 32768 ->
  let out := DspFilters_OnePole x st a in
  out.1 = out.2 /\
  out.2 = st + a * (x - st) / 32768 /\
  Z.min st x <= out.2 <= Z.max st x /\
  (DspFilters_OnePole x st 0).2 = st /\
  (DspFilters_OnePole x st 32768).2 = x /\
  onepole_lpf_s24 x st a = out.
Proof.
  intros Hx Hs Ha. cbv zeta.
  assert (Hgen : forall k, 0 <= k <= 32768 ->
            DspFilters_OnePole x st k
            = (st + k * (x - st) / 32768, st + k * (x - st) / 32768)).
  { intros k Hk. change (DspFilters_OnePole x st k) with (onepole_lpf_s24 x st k).
    rewrite onepole_lpf_s24_eq by assumption.
    pose proof (lowpass_step_between k st x Hk) as B.
    unfold in_s24 in Hx, Hs.
    rewrite clamp_s24_id by (unfold in_s24; lia). reflexivity. }
  rewrite !Hgen by lia. cbn [fst snd].
  pose proof (lowpass_step_between a st x Ha) as B.
  split; [reflexivity|]. split; [reflexivity|]. split; [exact B|].
  split; [|split].
  - rewrite Z.mul_0_l. change (0 / 32768) with 0. lia.
  - rewrite Z.mul_comm, Z.div_mul by lia. lia.
  - reflexivity.
Qed.

Lemma onepole_no_overshoot_witness :
  Z.min 0 8388607 <= (DspFilters_OnePole 8388607 0 2048).2 <= Z.max 0 8388607.
Proof.
  refine (proj1 (proj2 (proj2 (onepole_no_overshoot 8388607 0 2048 _ _ _))));
    unfold in_s24; lia.
Defined.

Lemma scaled_sample_attenuated x g :
  0 <= g <= 32768 -> attenuated x (x * g / 32768).
Proof.
  intros Hg. unfold attenuated.
  pose proof (Z_div_mod_eq_full (x * g) 32768) as E.
  pose proof (Z.mod_pos_bound (x * g) 32768 ltac:(lia)) as B.
  split; intros Hx; split; nia.
Qed.

Lemma clamp_s24_attenuated x y : attenuated x y -> attenuated x (clamp_s24 y).
Proof.
  unfold attenuated, clamp_s24. intros [Hp Hn].
  destruct (Z.gtb_spec y 8388607); [|destruct (Z.ltb_spec y (-8388608))];
    split; intros Hx; specialize (Hp); specialize (Hn); lia.
Qed.

Lemma comp_gain_clamped st x :
  0 <= comp_gain_q15 (DspFilters_CompressOne st x).1 <= 32768.
Proof.
  unfold DspFilters_CompressOne. cbv zeta. cbn [fst comp_gain_q15].
  match goal with
  | |- context [if ?G <? 0 then 0 else ?G] => generalize G
  end.
  intros G. destruct (Z.ltb_spec G 0).
  - cbn. lia.
  - destruct (Z.gtb_spec G 32768); lia.
Qed.

Lemma comp_output_eq st x :
  (DspFilters_CompressOne st x).2
  = clamp_s24 (to_int32 (Z.shiftr (x * comp_gain_q15 (DspFilters_CompressOne st x).1) 15)).
Proof. reflexivity. Qed.

Lemma comp_env_next_between env ax :
  Z.min env ax <= comp_env_next env ax <= Z.max env ax.
Proof.
  unfold comp_env_next, CLEAN_COMP_ENV_ATTACK_Q15, CLEAN_COMP_ENV_RELEASE_Q15.
  destruct (ax - env >? 0); apply lowpass_step_between; lia.
Qed.

Lemma comp_env_eq st x :
  -2147483648 < x <= 2147483647 -> 0 <= comp_env st <= 2147483647 ->
  comp_env (DspFilters_CompressOne st x).1 = comp_env_next (comp_env st) (Z.abs x).
Proof.
  intros Hx He. unfold DspFilters_CompressOne. cbv zeta. cbn [fst comp_env].
  rewrite !abs_s32_spec by assumption.
  assert (Ed : sub32 (Z.abs x) (comp_env st) = Z.abs x - comp_env st)
    by (unfold sub32; apply to_int32_id; unfold in_int32; lia).
  rewrite !Ed. rewrite !shiftr_15_div.
  pose proof (comp_env_next_between (comp_env st) (Z.abs x)) as B.
  unfold comp_env_next in *.
  set (k := if Z.abs x - comp_env st >? 0 then CLEAN_COMP_ENV_ATTACK_Q15
            else CLEAN_COMP_ENV_RELEASE_Q15) in *.
  assert (Hk : 0 <= k <= 32768)
    by (subst k; unfold CLEAN_COMP_ENV_ATTACK_Q15, CLEAN_COMP_ENV_RELEASE_Q15;
        destruct (Z.abs x - comp_env st >? 0); lia).
  pose proof (lowpass_step_between k (comp_env st) (Z.abs x) Hk) as B'.
  rewrite (to_int32_id (k * (Z.abs x - comp_env st) / 32768)) by (unfold in_int32; lia).
  unfold add32. rewrite to_int32_id by (unfold in_int32; lia).
  destruct (Z.ltb_spec (comp_env st + k * (Z.abs x - comp_env st) / 32768) 0); lia.
Qed.

(** X6. [DspFilters_CompressOne] on any 32-bit sample above [INT32_MIN]:
    the stored gain always ends in [[0, 32768]], so the compressor never
    amplifies and never flips the sign (the result lies between 0 and the
    input) and the result is a 24-bit sample; the envelope moves toward
    the rectified input without overshoot and stays non-negative. When the
    stored gain is unity and both the envelope and the rectified input are
    at most the threshold 3000000, the sample passes unchanged and the gain
    stays at unity. *)
Theorem compressor_never_amplifies (st : CompState) (x : Z) :
  -2147483648 < x <= 2147483647 -> comp_inv st ->
  let out := DspFilters_CompressOne st x in
  comp_inv out.1 /\
  comp_env out.1 = comp_env_next (comp_env st) (Z.abs x) /\
  Z.min (comp_env st) (Z.abs x) <= comp_env out.1 <= Z.max (comp_env st) (Z.abs x) /\
  attenuated x out.2 /\
  in_s24 out.2 /\
  (comp_gain_q15 st = 32768 -> comp_env st <= CLEAN_COMP_THRESH_S24 ->
   Z.abs x <= CLEAN_COMP_THRESH_S24 ->
   out.2 = x /\ comp_gain_q15 out.1 = 32768).
Proof.
  intros Hx [He Hg]. cbv zeta.
  pose proof (comp_env_eq st x Hx He) as Eenv.
  pose proof (comp_env_next_between (comp_env st) (Z.abs x)) as Benv.
  pose proof (comp_gain_clamped st x) as Hg'.
  split; [split; [rewrite Eenv; lia | exact Hg']|].
  split; [exact Eenv|]. split; [rewrite Eenv; exact Benv|].
  rewrite comp_output_eq.
  assert (Eout : to_int32
                   (Z.shiftr (x * comp_gain_q15 (DspFilters_CompressOne st x).1) 15)
                 = x * comp_gain_q15 (DspFilters_CompressOne st x).1 / 32768).
  { rewrite shiftr_15_div. apply to_int32_id.
    apply scaled_sample_in_int32; [unfold in_int32; lia | exact Hg']. }
  rewrite Eout.
  split; [apply clamp_s24_attenuated, scaled_sample_attenuated, Hg'|].
  split; [apply clamp_s24_range|].
  intros Hunity Henv Hax.
  assert (Eg : comp_gain_q15 (DspFilters_CompressOne st x).1 = 32768).
  { clear Eout. revert Eenv. unfold DspFilters_CompressOne. cbv zeta.
    cbn [fst comp_env comp_gain_q15]. intros Eenv. rewrite !Eenv.
    unfold CLEAN_COMP_THRESH_S24 in *.
    destruct (Z.gtb_spec (comp_env_next (comp_env st) (Z.abs x)) 3000000); [lia|].
    rewrite Hunity. reflexivity. }
  rewrite Eg. split; [|reflexivity].
  rewrite Z.div_mul by lia.
  apply clamp_s24_id. unfold in_s24, CLEAN_COMP_THRESH_S24 in *. lia.
Qed.

Lemma compressor_never_amplifies_witness :
  (DspFilters_CompressOne comp_unity 2999999).2 = 2999999 /\
  comp_gain_q15 (DspFilters_CompressOne comp_unity 2999999).1 = 32768.
Proof.
  refine (proj2 (proj2 (proj2 (proj2 (proj2
            (compressor_never_amplifies comp_unity 2999999 _ _))))) _ _ _).
  - lia.
  - unfold comp_inv. cbn. lia.
  - reflexivity.
  - cbn. unfold CLEAN_COMP_THRESH_S24. lia.
  - unfold CLEAN_COMP_THRESH_S24. lia.
Defined.

Lemma limiter_next_gain_le_target g target :
  0 <= g <= 32768 -> 0 <= target <= 32768 ->
  0 <= limiter_next_gain g target <= target.
Proof.
  intros Hg Ht. unfold limiter_next_gain.
  destruct (Z.ltb_spec target g); [lia|].
  pose proof (release_step_bounds g target ltac:(lia)). lia.
Qed.

Lemma limited_sample_bound x peak g :
  Z.abs x <= peak <= 2147483647 -> 0 <= g <= limiter_target peak ->
  - AUDIO_LIMITER_THRESH_S24 <= x * g / 32768 <= AUDIO_LIMITER_THRESH_S24.
Proof.
  intros Hx Hg.
  pose proof (limiter_target_bounds peak ltac:(lia)) as Ht.
  pose proof (scaled_sample_attenuated x g ltac:(lia)) as [Hp Hn].
  unfold limiter_target in *.
  destruct (Z.gtb_spec peak AUDIO_LIMITER_THRESH_S24) as [Hgt|Hle].
  - unfold AUDIO_LIMITER_THRESH_S24 in *.
    pose proof (Z_div_mod_eq_full (6500000 * 32768) peak) as E.
    pose proof (Z.mod_pos_bound (6500000 * 32768) peak ltac:(lia)) as B.
    set (t := 6500000 * 32768 / peak) in *.
    assert (Hpt : peak * t <= 6500000 * 32768) by lia.
    assert (Hxg : Z.abs x * g <= peak * t) by nia.
    pose proof (Z_div_mod_eq_full (x * g) 32768) as E'.
    pose proof (Z.mod_pos_bound (x * g) 32768 ltac:(lia)) as B'.
    split; nia.
  - destruct (Z.le_gt_cases 0 x); [specialize (Hp ltac:(lia)) | specialize (Hn ltac:(lia))];
      lia.
Qed.

Lemma limiter_bounds (st : LimiterState) (l r : Z) :
  0 <= lim_gain_q15 st <= 32768 ->
  -2147483648 < l <= 2147483647 ->
  -2147483648 < r <= 2147483647 ->
  let out := DspFilters_Limiter st l r in
  let peak := Z.max (Z.abs l) (Z.abs r) in
  0 <= lim_gain_q15 out.1 <= limiter_target peak /\
  lim_gain_q15 out.1 <= 32768 /\
  - AUDIO_LIMITER_THRESH_S24 <= out.2.1 <= AUDIO_LIMITER_THRESH_S24 /\
  - AUDIO_LIMITER_THRESH_S24 <= out.2.2 <= AUDIO_LIMITER_THRESH_S24 /\
  attenuated l out.2.1 /\
  attenuated r out.2.2 /\
  (lim_gain_q15 st = 32768 -> peak <= AUDIO_LIMITER_THRESH_S24 ->
   out.2 = (l, r) /\ lim_gain_q15 out.1 = 32768).
Proof.
  intros Hg Hl Hr. destruct st as [g]. cbn [lim_gain_q15] in Hg |- *. cbv zeta.
  rewrite (DspFilters_Limiter_eq g l r Hg Hl Hr). cbv zeta.
  cbn [fst snd lim_gain_q15].
  set (peak := Z.max (Z.abs l) (Z.abs r)).
  pose proof (limiter_target_bounds peak ltac:(lia)) as Ht.
  pose proof (limiter_next_gain_le_target g (limiter_target peak) Hg ltac:(lia)) as Hn.
  set (g' := limiter_next_gain g (limiter_target peak)) in *.
  pose proof (limited_sample_bound l peak g' ltac:(lia) Hn) as Bl.
  pose proof (limited_sample_bound r peak g' ltac:(lia) Hn) as Br.
  assert (Hcl : clamp_s24 (l * g' / 32768) = l * g' / 32768)
    by (apply clamp_s24_id; unfold in_s24, AUDIO_LIMITER_THRESH_S24 in *; lia).
  assert (Hcr : clamp_s24 (r * g' / 32768) = r * g' / 32768)
    by (apply clamp_s24_id; unfold in_s24, AUDIO_LIMITER_THRESH_S24 in *; lia).
  rewrite Hcl, Hcr.
  split; [exact Hn|]. split; [lia|]. split; [exact Bl|]. split; [exact Br|].
  split; [apply scaled_sample_attenuated; lia|].
  split; [apply scaled_sample_attenuated; lia|].
  intros Hunity Hpeak.
  assert (Eg : g' = 32768).
  { subst g'. unfold limiter_next_gain, limiter_target.
    destruct (Z.gtb_spec peak AUDIO_LIMITER_THRESH_S24); [lia|].
    rewrite Hunity. reflexivity. }
  rewrite Eg. rewrite !Z.div_mul by lia. split; reflexivity.
Qed.

(** X7. [DspFilters_Limiter] with its stored gain in [[0, 32768]] (where it
    starts and stays) and 32-bit inputs above [INT32_MIN]: the new gain is at
    most the target gain of the current peak, so both outputs are within
    the threshold, [-6500000 <= out <= 6500000], in the very call that sees
    the peak; neither channel is amplified or changes sign; and with the
    gain at unity a frame whose peak is at most the threshold passes
    unchanged and leaves the gain at unity. *)
Theorem limiter_output_within_threshold (st : LimiterState) (l r : Z) :
  0 <= lim_gain_q15 st <= 32768 ->
  -2147483648 < l <= 2147483647 ->
  -2147483648 < r <= 2147483647 ->
  let out := DspFilters_Limiter st l r in
  let peak := Z.max (Z.abs l) (Z.abs r) in
  0 <= lim_gain_q15 out.1 <= limiter_target peak /\
  lim_gain_q15 out.1 <= 32768 /\
  - AUDIO_LIMITER_THRESH_S24 <= out.2.1 <= AUDIO_LIMITER_THRESH_S24 /\
  - AUDIO_LIMITER_THRESH_S24 <= out.2.2 <= AUDIO_LIMITER_THRESH_S24 /\
  attenuated l out.2.1 /\
  attenuated r out.2.2 /\
  (lim_gain_q15 st = 32768 -> peak <= AUDIO_LIMITER_THRESH_S24 ->
   out.2 = (l, r) /\ lim_gain_q15 out.1 = 32768).
Proof.
  intros Hg Hl Hr. exact (limiter_bounds st l r Hg Hl Hr).
Qed.

Lemma limiter_output_within_threshold_witness :
  - AUDIO_LIMITER_THRESH_S24
    <= (DspFilters_Limiter {| lim_gain_q15 := 32768 |} (-8388608) 8388607).2.1
    <= AUDIO_LIMITER_THRESH_S24.
Proof.
  refine (proj1 (proj2 (proj2
            (limiter_output_within_threshold {| lim_gain_q15 := 32768 |}
               (-8388608) 8388607 _ _ _)))).
  - cbn. lia.
  - lia.
  - lia.
Defined.

(** X26. The cabinet biquad [DspFilters_CabSim] on 24-bit input and
    24-bit filter memory: the accumulator stays far inside the 64-bit
    range, its value shifted by 28 bits fits 32 bits, so the returned
    sample is the exact filter output saturated to 24 bits; it is stored
    as the newest output, the input as the newest input, and the memory is
    24-bit again. *)
Theorem cabsim_no_overflow (st : BiquadState) (x : Z) :
  in_s24 x -> biquad_inv st ->
  let out := DspFilters_CabSim st x in
  let acc := CAB_B0_Q28 * x + CAB_B1_Q28 * bq_x1 st + CAB_B2_Q28 * bq_x2 st
             - CAB_A1_Q28 * bq_y1 st - CAB_A2_Q28 * bq_y2 st in
  - 2 ^ 52 <= acc <= 2 ^ 52 /\
  in_int32 (acc / 2 ^ 28) /\
  out.2 = clamp_s24 (acc / 2 ^ 28) /\
  out.1 = {| bq_x1 := x; bq_x2 := bq_x1 st; bq_y1 := out.2; bq_y2 := bq_y1 st |} /\
  biquad_inv out.1.
Proof.
  intros Hx (H1 & H2 & H3 & H4). cbv zeta.
  unfold DspFilters_CabSim. cbv zeta. cbn [fst snd].
  unfold CAB_B0_Q28, CAB_B1_Q28, CAB_B2_Q28, CAB_A1_Q28, CAB_A2_Q28, in_s24 in *.
  rewrite Z.add_0_l.
  set (acc := 19407624 * x + 38815248 * bq_x1 st + 19407624 * bq_x2 st
              - -297323915 * bq_y1 st - 106689359 * bq_y2 st).
  assert (Ha : - 2 ^ 52 <= acc <= 2 ^ 52) by (unfold acc; lia).
  assert (Hq : in_int32 (acc / 2 ^ 28)).
  { unfold in_int32. change (2 ^ 52) with 4503599627370496 in Ha.
    change (2 ^ 28) with 268435456. Z.div_mod_to_equations. lia. }
  rewrite Z.shiftr_div_pow2 by lia. rewrite to_int32_id by exact Hq.
  split; [exact Ha|]. split; [exact Hq|]. split; [reflexivity|]. split; [reflexivity|].
  unfold biquad_inv, in_s24. cbn [bq_x1 bq_x2 bq_y1 bq_y2].
  pose proof (clamp_s24_range (acc / 2 ^ 28)) as Hc. unfold in_s24 in Hc.
  split; [exact Hx|]. split; [exact H1|]. split; [exact Hc | exact H3].
Qed.

Lemma cabsim_no_overflow_witness :
  (DspFilters_CabSim biquad_zero 8388607).2 =
    clamp_s24 ((CAB_B0_Q28 * 8388607 + CAB_B1_Q28 * bq_x1 biquad_zero
                + CAB_B2_Q28 * bq_x2 biquad_zero
                - CAB_A1_Q28 * bq_y1 biquad_zero - CAB_A2_Q28 * bq_y2 biquad_zero) / 2 ^ 28).
Proof.
  refine (proj1 (proj2 (proj2 (cabsim_no_overflow biquad_zero 8388607 _ _)))).
  - unfold in_s24. lia.
  - unfold biquad_inv, in_s24. cbn. lia.
Defined.

End FilterBounds.

(** ** The frame processor as a whole *)

Section FramePipeline.

(** Opens the chain of stage results of a frame up to the limiter. *)
Ltac open_stages :=
  repeat match goal with
         | |- context [match ?e with (_, _) => _ end] =>
             lazymatch e with
             | DspFilters_Limiter _ _ _ => fail
             | Mono.limiter_process_s24 _ _ _ => fail
             | _ => destruct e
             end
         end.

Lemma frame_ends_in_limiter st l r :
  exists a b,
    let lim := DspFilters_Limiter (s_limiter (filters st)) (clamp_s24 a) (clamp_s24 b) in
    s_limiter (filters (AppDsp_ProcessFrame st l r).1) = lim.1 /\
    (AppDsp_ProcessFrame st l r).2 = (clamp_s24 lim.2.1, clamp_s24 lim.2.2).
Proof.
  unfold AppDsp_ProcessFrame. cbv zeta. open_stages.
  match goal with
  | |- context [DspFilters_Limiter _ (clamp_s24 ?a) (clamp_s24 ?b)] => exists a, b
  end.
  cbv zeta.
  match goal with
  | |- context [DspFilters_Limiter ?s ?a ?b] =>
      destruct (DspFilters_Limiter s a b) as [lim [l' r']]
  end.
  split; reflexivity.
Qed.

Lemma mono_frame_ends_in_limiter mst l r :
  exists a b,
    let lim := DspFilters_Limiter (s_limiter (filters (Mono.core mst)))
                 (clamp_s24 a) (clamp_s24 b) in
    s_limiter (filters (Mono.core (Mono.AppDsp_ProcessFrame mst l r).1)) = lim.1 /\
    (Mono.AppDsp_ProcessFrame mst l r).2 = (clamp_s24 lim.2.1, clamp_s24 lim.2.2).
Proof.
  unfold Mono.AppDsp_ProcessFrame. cbv zeta. open_stages.
  match goal with
  | |- context [Mono.limiter_process_s24 _ (clamp_s24 ?a) (clamp_s24 ?b)] => exists a, b
  end.
  cbv zeta. unfold Mono.limiter_process_s24.
  match goal with
  | |- context [DspFilters_Limiter ?s ?a ?b] =>
      destruct (DspFilters_Limiter s a b) as [lim [l' r']]
  end.
  split; reflexivity.
Qed.

Lemma limiter_on_clamped g a b :
  0 <= lim_gain_q15 g <= 32768 ->
  let lim := DspFilters_Limiter g (clamp_s24 a) (clamp_s24 b) in
  0 <= lim_gain_q15 lim.1 <= 32768 /\
  - AUDIO_LIMITER_THRESH_S24 <= clamp_s24 lim.2.1 <= AUDIO_LIMITER_THRESH_S24 /\
  - AUDIO_LIMITER_THRESH_S24 <= clamp_s24 lim.2.2 <= AUDIO_LIMITER_THRESH_S24.
Proof.
  intros Hg. cbv zeta.
  pose proof (clamp_s24_range a) as Ha. pose proof (clamp_s24_range b) as Hb.
  unfold in_s24 in Ha, Hb.
  destruct (limiter_bounds g (clamp_s24 a) (clamp_s24 b) Hg
              ltac:(lia) ltac:(lia)) as (H1 & H2 & H3 & H4 & _).
  cbv zeta in *.
  set (lim := DspFilters_Limiter g (clamp_s24 a) (clamp_s24 b)) in *.
  rewrite !clamp_s24_id by (unfold in_s24, AUDIO_LIMITER_THRESH_S24 in *; lia).
  repeat split; lia.
Qed.

Lemma frame_bounds st l r :
  frame_inv st ->
  let out := AppDsp_ProcessFrame st l r in
  frame_inv out.1 /\
  - AUDIO_LIMITER_THRESH_S24 <= out.2.1 <= AUDIO_LIMITER_THRESH_S24 /\
  - AUDIO_LIMITER_THRESH_S24 <= out.2.2 <= AUDIO_LIMITER_THRESH_S24.
Proof.
  intros Hinv. cbv zeta.
  destruct (frame_ends_in_limiter st l r) as (a & b & Hlim & Hout). cbv zeta in *.
  pose proof (limiter_on_clamped (s_limiter (filters st)) a b Hinv) as H.
  cbv zeta in H. unfold frame_inv. rewrite Hlim, Hout. exact H.
Qed.

(** X8. Whatever the frame, the mask and the parameters,
    [AppDsp_ProcessFrame] called on a state whose limiter gain is in
    [[0, 32768]] returns both samples within the limiter threshold,
    [-6500000 <= out <= 6500000], and leaves the limiter gain in
    [[0, 32768]]; initialisation establishes that state. Both frame
    processors behave so. *)
Theorem frame_output_within_threshold (st : AppState) (mst : Mono.State) (l r : Z) :
  (frame_inv st ->
   let out := AppDsp_ProcessFrame st l r in
   frame_inv out.1 /\
   - AUDIO_LIMITER_THRESH_S24 <= out.2.1 <= AUDIO_LIMITER_THRESH_S24 /\
   - AUDIO_LIMITER_THRESH_S24 <= out.2.2 <= AUDIO_LIMITER_THRESH_S24) /\
  (frame_inv (Mono.core mst) ->
   let out := Mono.AppDsp_ProcessFrame mst l r in
   frame_inv (Mono.core out.1) /\
   - AUDIO_LIMITER_THRESH_S24 <= out.2.1 <= AUDIO_LIMITER_THRESH_S24 /\
   - AUDIO_LIMITER_THRESH_S24 <= out.2.2 <= AUDIO_LIMITER_THRESH_S24) /\
  frame_inv (AppDsp_Init st) /\
  frame_inv (Mono.core (Mono.AppDsp_Init mst)).
Proof.
  split; [|split; [|split]].
  - intros Hinv. exact (frame_bounds st l r Hinv).
  - intros Hinv. cbv zeta.
    destruct (mono_frame_ends_in_limiter mst l r) as (a & b & Hlim & Hout). cbv zeta in *.
    pose proof (limiter_on_clamped (s_limiter (filters (Mono.core mst))) a b Hinv) as H.
    cbv zeta in H. unfold frame_inv. rewrite Hlim, Hout. exact H.
  - unfold frame_inv. cbn. lia.
  - unfold frame_inv. cbn. lia.
Qed.

Lemma frame_output_within_threshold_witness :
  - AUDIO_LIMITER_THRESH_S24
    <= (AppDsp_ProcessFrame (AppDsp_SetFxMask 7 (AppDsp_Init power_on))
          8388607 (-8388608)).2.1
    <= AUDIO_LIMITER_THRESH_S24.
Proof.
  refine (proj1 (proj2 (proj1
            (frame_output_within_threshold (AppDsp_SetFxMask 7 (AppDsp_Init power_on))
               Mono.power_on 8388607 (-8388608)) _))).
  unfold frame_inv. cbn. lia.
Defined.

Ltac open_all_stages :=
  repeat match goal with
         | |- context [match ?e with (_, _) => _ end] =>
             lazymatch e with
             | context [match _ with (_, _) => _ end] => fail
             | _ => destruct e
             end
         end.

Ltac split_on_mask st :=
  destruct (Z.land (s_fx_mask st) APP_FX_BIT_DISTORTION =? 0) eqn:Hdist;
  destruct (Z.land (s_fx_mask st) APP_FX_BIT_REVERB =? 0) eqn:Hrev;
  destruct (Z.land (s_fx_mask st) APP_FX_BIT_DELAY =? 0) eqn:Hdel;
  cbn [negb]; cbv beta iota.

(** X9. Processing a frame never changes what the control interface set:
    mode, mask, stored press timestamp and all seven parameters read the
    same after [AppDsp_ProcessFrame] as before, for every frame and state
    (in the monolithic unit also its two stacked-mix values). *)
Theorem frame_keeps_control_state (st : AppState) (mst : Mono.State) (l r : Z) :
  control_view (AppDsp_ProcessFrame st l r).1 = control_view st /\
  (forall id, AppDsp_GetParam id (AppDsp_ProcessFrame st l r).1 = AppDsp_GetParam id st) /\
  control_view (Mono.core (Mono.AppDsp_ProcessFrame mst l r).1)
    = control_view (Mono.core mst) /\
  Mono.s_delay_mix_all_q15 (Mono.AppDsp_ProcessFrame mst l r).1
    = Mono.s_delay_mix_all_q15 mst /\
  Mono.s_reverb_mix_all_q15 (Mono.AppDsp_ProcessFrame mst l r).1
    = Mono.s_reverb_mix_all_q15 mst.
Proof.
  assert (H1 : control_view (AppDsp_ProcessFrame st l r).1 = control_view st).
  { unfold AppDsp_ProcessFrame. cbv zeta. split_on_mask st; open_all_stages;
      reflexivity. }
  split; [exact H1|]. split.
  { intros id. unfold control_view in H1. injection H1 as Hm Hk Ht Hp1 Hp2 Hp3 Hp4 Hp5 Hp6 Hp7.
    destruct id; cbn; assumption. }
  unfold Mono.AppDsp_ProcessFrame. cbv zeta.
  split_on_mask (Mono.core mst); open_all_stages; repeat split; reflexivity.
Qed.

(** X10. An effect whose mask bit is clear is not run at all: its whole
    unit state (channel filters, buffers, cursors) and the wet filters or
    cabinet filter that follow it are exactly as before the frame. *)
Theorem disabled_effect_state_frozen (st : AppState) (l r : Z) :
  let st' := (AppDsp_ProcessFrame st l r).1 in
  (Z.land (s_fx_mask st) APP_FX_BIT_DISTORTION = 0 ->
   dist st' = dist st /\
   s_cab_l (filters st') = s_cab_l (filters st) /\
   s_cab_r (filters st') = s_cab_r (filters st)) /\
  (Z.land (s_fx_mask st) APP_FX_BIT_DELAY = 0 ->
   delay st' = delay st /\
   s_wet_hpf_delay_l (filters st') = s_wet_hpf_delay_l (filters st) /\
   s_wet_hpf_delay_r (filters st') = s_wet_hpf_delay_r (filters st) /\
   s_wet_lpf_delay_l (filters st') = s_wet_lpf_delay_l (filters st) /\
   s_wet_lpf_delay_r (filters st') = s_wet_lpf_delay_r (filters st)) /\
  (Z.land (s_fx_mask st) APP_FX_BIT_REVERB = 0 ->
   reverb st' = reverb st /\
   s_wet_hpf_reverb_l (filters st') = s_wet_hpf_reverb_l (filters st) /\
   s_wet_hpf_reverb_r (filters st') = s_wet_hpf_reverb_r (filters st) /\
   s_wet_lpf_reverb_l (filters st') = s_wet_lpf_reverb_l (filters st) /\
   s_wet_lpf_reverb_r (filters st') = s_wet_lpf_reverb_r (filters st)).
Proof.
  cbv zeta. unfold AppDsp_ProcessFrame. cbv zeta.
  split; [|split]; intros Hbit; rewrite Hbit; cbn [Z.eqb negb]; cbv beta iota;
    open_all_stages; repeat split; reflexivity.
Qed.

Lemma disabled_effect_state_frozen_witness :
  delay (AppDsp_ProcessFrame (AppDsp_SetFxMask 3 (AppDsp_Init power_on)) 1000 2000).1
    = delay (AppDsp_SetFxMask 3 (AppDsp_Init power_on)).
Proof.
  refine (proj1 (proj1 (proj2
            (disabled_effect_state_frozen (AppDsp_SetFxMask 3 (AppDsp_Init power_on))
               1000 2000)) _)).
  reflexivity.
Defined.

(** X11. The control operations do not interfere with each other or with
    the audio path: [AppDsp_SetParam id v] changes no parameter other than
    [id], nor the mask or the mode; [AppDsp_SetFxMask] and
    [AppDsp_OnButtonPress] change no parameter; and none of the three
    touches a filter memory, buffer or cursor. *)
Theorem control_operations_independent
    (st : AppState) (id id' : AppDspParamId) (v m t : Z) :
  (id <> id' ->
   AppDsp_GetParam id' (AppDsp_SetParam id v st) = AppDsp_GetParam id' st) /\
  AppDsp_GetFxMask (AppDsp_SetParam id v st) = AppDsp_GetFxMask st /\
  AppDsp_GetMode (AppDsp_SetParam id v st) = AppDsp_GetMode st /\
  s_button_last_ms (AppDsp_SetParam id v st) = s_button_last_ms st /\
  AppDsp_GetParam id' (AppDsp_SetFxMask m st) = AppDsp_GetParam id' st /\
  AppDsp_GetParam id' (AppDsp_OnButtonPress t st) = AppDsp_GetParam id' st /\
  effect_state_view (AppDsp_SetParam id v st) = effect_state_view st /\
  effect_state_view (AppDsp_SetFxMask m st) = effect_state_view st /\
  effect_state_view (AppDsp_OnButtonPress t st) = effect_state_view st.
Proof.
  split; [intros Hne; destruct id, id'; first [reflexivity | now contradiction Hne]|].
  split; [now destruct id|]. split; [now destruct id|]. split; [now destruct id|].
  split; [now destruct id'|].
  split; [unfold AppDsp_OnButtonPress;
          destruct (to_uint32 (t - s_button_last_ms st) <? 300); now destruct id'|].
  split; [now destruct id|]. split; [reflexivity|].
  unfold AppDsp_OnButtonPress.
  destruct (to_uint32 (t - s_button_last_ms st) <? 300); reflexivity.
Qed.

Lemma control_operations_independent_witness :
  AppDsp_GetParam APP_DSP_PARAM_REVERB_MIX_Q15
    (AppDsp_SetParam APP_DSP_PARAM_DELAY_MIX_Q15 40000 power_on)
  = AppDsp_GetParam APP_DSP_PARAM_REVERB_MIX_Q15 power_on.
Proof.
  refine (proj1 (control_operations_independent power_on
                   APP_DSP_PARAM_DELAY_MIX_Q15 APP_DSP_PARAM_REVERB_MIX_Q15 40000 0 0) _).
  discriminate.
Defined.

End FramePipeline.

(** ** Delay line timing *)

Section DelayTiming.

Lemma arr_get_set buf i j v :
  0 <= i < Z.of_nat (length buf) -> 0 <= j ->
  arr_get (arr_set buf i v) j = if j =? i then v else arr_get buf j.
Proof.
  intros Hi Hj. unfold arr_get, arr_set.
  destruct (Z.eqb_spec j i) as [->|Hne].
  - rewrite list_lookup_insert_eq by lia. reflexivity.
  - rewrite list_lookup_insert_ne by lia. reflexivity.
Qed.

Lemma slot_hist_app xs ys U j :
  (8 * U <= length xs + 7)%nat -> slot_hist (xs ++ ys) U j = slot_hist xs U j.
Proof.
  induction U as [|U IH]; intros HU; [reflexivity|].
  cbn [slot_hist]. rewrite IH by lia.
  rewrite app_nth1 by lia. reflexivity.
Qed.

Lemma slot_hist_untouched xs V j :
  Z.of_nat V <= j < DELAY_LEN -> slot_hist xs V j = 0.
Proof.
  unfold DELAY_LEN. induction V as [|V IH]; intros Hj; [reflexivity|].
  cbn [slot_hist]. unfold DELAY_LEN.
  rewrite (Z.mod_small (Z.of_nat V)) by lia.
  destruct (Z.eqb_spec j (Z.of_nat V)); [lia|]. apply IH. lia.
Qed.

Lemma slot_hist_kept xs W d :
  (d < 1024)%nat ->
  slot_hist xs (S W + d) (Z.of_nat W mod DELAY_LEN) = nth (8 * W) xs 0 / 256.
Proof.
  unfold DELAY_LEN. induction d as [|d IH]; intros Hd.
  - rewrite Nat.add_0_r. cbn [slot_hist]. unfold DELAY_LEN.
    now rewrite Z.eqb_refl.
  - replace (S W + S d)%nat with (S (S W + d)) by lia.
    cbn [slot_hist]. unfold DELAY_LEN.
    destruct (Z.eqb_spec (Z.of_nat W mod 1024) (Z.of_nat (S W + d) mod 1024)) as [E|_].
    + exfalso.
      pose proof (Z_div_mod_eq_full (Z.of_nat W) 1024) as E1.
      pose proof (Z.mod_pos_bound (Z.of_nat W) 1024 ltac:(lia)) as B1.
      pose proof (Z_div_mod_eq_full (Z.of_nat (S W + d)) 1024) as E2.
      pose proof (Z.mod_pos_bound (Z.of_nat (S W + d)) 1024 ltac:(lia)) as B2.
      lia.
    + apply IH. lia.
Qed.

(** The slot an update tick reads holds what was written 1024 update ticks
    before, or the reset value when there was no such tick. *)
Lemma slot_hist_read xs U :
  slot_hist xs U (Z.of_nat U mod DELAY_LEN)
  = if (U <? 1024)%nat then 0 else nth (8 * (U - 1024)) xs 0 / 256.
Proof.
  destruct (Nat.ltb_spec U 1024) as [Hlt|Hge].
  - apply slot_hist_untouched. unfold DELAY_LEN. rewrite Z.mod_small by lia. lia.
  - replace U with (S (U - 1024) + 1023)%nat at 1 by lia.
    replace (Z.of_nat U mod DELAY_LEN) with (Z.of_nat (U - 1024) mod DELAY_LEN).
    + apply slot_hist_kept. lia.
    + unfold DELAY_LEN.
      replace (Z.of_nat U) with (Z.of_nat (U - 1024) + 1 * 1024) by lia.
      now rewrite Z.mod_add by lia.
Qed.

Lemma delay_run_snoc fbk xs x : forall buf st,
  delay_run fbk (xs ++ [x]) buf st =
    let '(buf1, st1, ys) := delay_run fbk xs buf st in
    let '(buf2, st2, y) := DspDelay_Process fbk x buf1 st1 in
    (buf2, st2, ys ++ [y]).
Proof.
  induction xs as [|x0 xs IH]; intros buf st; cbn [app delay_run].
  - destruct (DspDelay_Process fbk x buf st) as [[b s] y]. reflexivity.
  - destruct (DspDelay_Process fbk x0 buf st) as [[b0 s0] y0].
    rewrite IH.
    destruct (delay_run fbk xs b0 s0) as [[b1 s1] ys].
    destruct (DspDelay_Process fbk x b1 s1) as [[b2 s2] y]. reflexivity.
Qed.

Lemma delay_hist_inv_init : delay_hist_inv [] (zeros DELAY_LEN) delay_zero.
Proof.
  unfold delay_hist_inv. cbn [length]. cbv zeta.
  change ((0 + 7) / 8)%nat with 0%nat. cbn [slot_hist idx phase last_out_s24 delay_zero].
  split; [apply length_replicate|]. split; [reflexivity|]. split; [reflexivity|].
  split; [|reflexivity].
  intros j Hj. apply (arr_get_Forall (fun v => v = 0)); [reflexivity|].
  apply zeros_Forall. reflexivity.
Qed.

Lemma updates_at_period_start n :
  (n mod 8 = 0)%nat -> ((n + 7) / 8 = n / 8 /\ (n + 1 + 7) / 8 = S (n / 8)
                       /\ 8 * (n / 8) = n /\ (n + 1) mod 8 = 1)%nat.
Proof.
  intros H. pose proof (Nat.div_mod_eq n 8) as E. rewrite H in E.
  assert (E7 : ((n + 7) / 8 = n / 8)%nat).
  { replace (n + 7)%nat with (7 + (n / 8) * 8)%nat by lia.
    rewrite Nat.div_add by lia. reflexivity. }
  assert (E8 : ((n + 1 + 7) / 8 = S (n / 8))%nat).
  { replace (n + 1 + 7)%nat with (0 + (S (n / 8)) * 8)%nat by lia.
    rewrite Nat.div_add by lia. reflexivity. }
  assert (E1 : ((n + 1) mod 8 = 1)%nat).
  { replace (n + 1)%nat with (1 + (n / 8) * 8)%nat by lia.
    rewrite Nat.Div0.mod_add. reflexivity. }
  lia.
Qed.

Lemma updates_within_period n :
  (n mod 8 <> 0)%nat ->
  ((n + 1 + 7) / 8 = (n + 7) / 8 /\ (n + 7) / 8 = S (n / 8)
   /\ (n + 1) mod 8 = (n mod 8 + 1) mod 8)%nat.
Proof.
  intros H. pose proof (Nat.div_mod_eq n 8) as E.
  pose proof (Nat.mod_upper_bound n 8 ltac:(lia)) as B.
  assert (E7 : ((n + 7) / 8 = S (n / 8))%nat).
  { replace (n + 7)%nat with ((n mod 8 - 1) + (S (n / 8)) * 8)%nat by lia.
    rewrite Nat.div_add by lia. rewrite Nat.div_small by lia. reflexivity. }
  assert (E8 : ((n + 1 + 7) / 8 = S (n / 8))%nat).
  { replace (n + 1 + 7)%nat with (n mod 8 + (S (n / 8)) * 8)%nat by lia.
    rewrite Nat.div_add by lia. rewrite Nat.div_small by lia. reflexivity. }
  split; [lia|]. split; [exact E7|].
  rewrite Nat.Div0.add_mod_idemp_l. reflexivity.
Qed.

Lemma delay_hist_step xs x buf st :
  in_s24 x -> delay_inv buf st -> delay_hist_inv xs buf st ->
  let '(buf', st', y) := DspDelay_Process 0 x buf st in
  delay_hist_inv (xs ++ [x]) buf' st' /\ y = last_out_s24 st'.
Proof.
  intros Hx Hinv (Hlen & Hph & Hidx & Hbuf & Hlast). cbv zeta in *.
  set (n := length xs) in *.
  assert (Hn1 : length (xs ++ [x]) = (n + 1)%nat)
    by (rewrite length_app; reflexivity).
  assert (Hi : 0 <= idx st < DELAY_LEN)
    by (rewrite Hidx; apply Z.mod_pos_bound; unfold DELAY_LEN; lia).
  destruct (Nat.eq_dec (n mod 8)%nat 0%nat) as [H0|Hne].
  - destruct (updates_at_period_start n H0) as (E7 & E8 & E8n & E1).
    rewrite DspDelay_Process_update
      by first [assumption | lia | (rewrite Hph, H0; reflexivity)].
    unfold delay_update_tick. cbv zeta.
    change (0 * ?a / 32768) with 0. rewrite Z.add_0_r, clamp_s24_id by assumption.
    split; [|reflexivity].
    unfold delay_hist_inv. cbv zeta. rewrite Hn1, E8.
    cbn [idx phase last_out_s24].
    rewrite E7 in Hidx, Hbuf, Hlast.
    split; [unfold arr_set; now rewrite length_insert|].
    split; [now rewrite E1|].
    split.
    { rewrite Hidx, Nat2Z.inj_succ. unfold Z.succ.
      now rewrite Zplus_mod_idemp_l. }
    split.
    { intros j Hj.
      rewrite arr_get_set by (rewrite ?Hlen; unfold DELAY_LEN in *; lia).
      cbn [slot_hist]. rewrite <- Hidx.
      destruct (Z.eqb_spec j (idx st)).
      - rewrite app_nth2 by lia. rewrite E8n.
        replace (n - length xs)%nat with 0%nat by (subst n; lia). reflexivity.
      - rewrite slot_hist_app by (fold n; lia). now apply Hbuf. }
    rewrite slot_hist_app by (fold n; lia).
    rewrite <- Hidx. now rewrite Hbuf.
  - destruct (updates_within_period n Hne) as (E8 & E7 & E1).
    pose proof (Nat.mod_upper_bound n 8 ltac:(lia)) as Bn.
    pose proof (Nat.div_mod_eq n 8) as En.
    rewrite DspDelay_Process_hold by (rewrite Hph; lia).
    unfold delay_hold_tick.
    split; [|reflexivity].
    unfold delay_hist_inv. cbv zeta. rewrite Hn1, E8.
    cbn [idx phase last_out_s24].
    split; [assumption|].
    split.
    { rewrite Hph, E1. unfold DELAY_DECIM.
      rewrite (Nat2Z.inj_mod (n mod 8 + 1)%nat 8%nat), Nat2Z.inj_add. reflexivity. }
    split; [assumption|].
    split.
    { intros j Hj. rewrite slot_hist_app by (fold n; rewrite E7; lia). now apply Hbuf. }
    rewrite Hlast. rewrite E7.
    rewrite slot_hist_app by (fold n; lia). reflexivity.
Qed.

Lemma delay_echo_app xs x n :
  (n < length xs)%nat -> delay_echo (xs ++ [x]) n = delay_echo xs n.
Proof.
  intros Hn. unfold delay_echo.
  destruct (n / 8 <? 1024)%nat; [reflexivity|].
  pose proof (Nat.div_mod_eq n 8).
  rewrite app_nth1 by lia. reflexivity.
Qed.

Lemma delay_run_echo xs :
  Forall in_s24 xs ->
  let '(buf, st, ys) := delay_run 0 xs (zeros DELAY_LEN) delay_zero in
  delay_inv buf st /\ delay_hist_inv xs buf st /\
  length ys = length xs /\
  forall n, (n < length xs)%nat -> nth n ys 0 = delay_echo xs n.
Proof.
  induction xs as [|x xs IH] using rev_ind; intros Hxs.
  - cbn [delay_run]. split; [apply delay_inv_init|].
    split; [apply delay_hist_inv_init|]. split; [reflexivity|].
    intros n Hn. cbn in Hn. lia.
  - apply Forall_app in Hxs as [Hxs Hx]. apply Forall_cons in Hx as [Hx _].
    specialize (IH Hxs). rewrite delay_run_snoc.
    destruct (delay_run 0 xs (zeros DELAY_LEN) delay_zero) as [[buf st] ys].
    destruct IH as (Hinv & Hhist & Hlen & Hys).
    pose proof (DspDelay_Process_inv 0 x buf st Hinv) as Hinv'.
    pose proof (delay_hist_step xs x buf st Hx Hinv Hhist) as Hstep.
    destruct (DspDelay_Process 0 x buf st) as [[buf' st'] y].
    destruct Hinv' as [Hinv' _]. destruct Hstep as [Hhist' Hy].
    split; [assumption|]. split; [assumption|].
    split; [rewrite !length_app, Hlen; reflexivity|].
    intros n Hn. rewrite length_app in Hn. cbn [length] in Hn.
    destruct (Nat.eq_dec n (length xs)) as [->|Hne].
    + rewrite app_nth2 by lia. rewrite Hlen, Nat.sub_diag. cbn [nth].
      rewrite Hy. destruct Hhist' as (_ & _ & _ & _ & Hlast). cbv zeta in Hlast.
      rewrite Hlast. rewrite length_app. cbn [length].
      set (m := length xs).
      assert (EU : ((m + 1 + 7) / 8 = S (m / 8))%nat).
      { pose proof (Nat.div_mod_eq m 8) as E.
        pose proof (Nat.mod_upper_bound m 8 ltac:(lia)) as B.
        replace (m + 1 + 7)%nat with (m mod 8 + (S (m / 8)) * 8)%nat by lia.
        rewrite Nat.div_add by lia. rewrite Nat.div_small by lia. reflexivity. }
      rewrite EU, slot_hist_read. unfold delay_echo.
      destruct (m / 8 <? 1024)%nat; reflexivity.
    + rewrite app_nth1 by lia. rewrite delay_echo_app by lia. apply Hys. lia.
Qed.

(** X12. Run from the reset state without feedback, the delay is a pure
    delay of 1024 x 8 = 8192 samples with a zero-order hold: the sample
    returned at position [n] of any 24-bit input stream is 0 while
    [n < 8192], and afterwards it is the input of position
    [8 (n / 8 - 1024)], the start of the 8-sample period 8192 samples
    back, with its low 8 bits cleared by the 16-bit storage. An impulse
    at position 0 comes out once, at positions 8192 to 8199. *)
Theorem delay_is_8192_sample_hold (xs : list Z) (n : nat) :
  Forall in_s24 xs -> (n < length xs)%nat ->
  nth n (delay_run 0 xs (zeros DELAY_LEN) delay_zero).2 0 = delay_echo xs n /\
  (Z.of_nat n < 8192 -> nth n (delay_run 0 xs (zeros DELAY_LEN) delay_zero).2 0 = 0) /\
  (8192 <= Z.of_nat n ->
   nth n (delay_run 0 xs (zeros DELAY_LEN) delay_zero).2 0
     = nth (8 * (n / 8 - 1024)) xs 0 / 256 * 256).
Proof.
  intros Hxs Hn. pose proof (delay_run_echo xs Hxs) as H.
  destruct (delay_run 0 xs (zeros DELAY_LEN) delay_zero) as [[buf st] ys].
  destruct H as (_ & _ & _ & Hys). cbn [snd]. rewrite (Hys n Hn).
  split; [reflexivity|].
  pose proof (Nat.div_mod_eq n 8) as E.
  pose proof (Nat.mod_upper_bound n 8 ltac:(lia)) as B.
  unfold delay_echo. split; intros Hlt.
  - destruct (Nat.ltb_spec (n / 8) 1024); [reflexivity | lia].
  - destruct (Nat.ltb_spec (n / 8) 1024); [lia | reflexivity].
Qed.

Lemma delay_is_8192_sample_hold_witness :
  nth 1 (delay_run 0 [8000000; 0; 0] (zeros DELAY_LEN) delay_zero).2 0 = 0.
Proof.
  refine (proj1 (proj2 (delay_is_8192_sample_hold [8000000; 0; 0] 1 _ _)) _).
  - repeat constructor; unfold in_s24; lia.
  - cbn. lia.
  - lia.
Defined.

End DelayTiming.

(** ** Audio transport: sample slots and the frame ring *)

Section AudioGlue.

Lemma lor_halfwords hi lo :
  0 <= lo < 65536 -> Z.lor (Z.shiftl hi 16) lo = hi * 65536 + lo.
Proof.
  intros Hlo.
  assert (Hland : Z.land (Z.shiftl hi 16) lo = 0).
  { apply Z.bits_inj'. intros n Hn. rewrite Z.land_spec, Z.bits_0.
    destruct (Z.lt_ge_cases n 16).
    - rewrite Z.shiftl_spec_low by lia. reflexivity.
    - replace lo with (lo mod 2 ^ 16) by (apply Z.mod_small; lia).
      rewrite Z.mod_pow2_bits_high by lia. apply andb_false_r. }
  rewrite <- Z.lxor_lor by exact Hland.
  rewrite <- Z.add_nocarry_lxor by exact Hland.
  rewrite Z.shiftl_mul_pow2 by lia. reflexivity.
Qed.

Lemma lj24in32_to_s24_eq p0 p1 :
  0 <= p0 < 65536 -> 0 <= p1 < 65536 ->
  lj24in32_to_s24 p0 p1 = to_int32 (p0 * 65536 + p1) / 256.
Proof.
  intros H0 H1. unfold lj24in32_to_s24. cbv zeta.
  rewrite shiftr_8_div. f_equal. f_equal.
  unfold to_uint32. rewrite Z.shiftl_mul_pow2 by lia. change (2 ^ 16) with 65536.
  rewrite Z.mod_small by lia.
  pose proof (lor_halfwords p0 p1 H1) as E.
  rewrite Z.shiftl_mul_pow2 in E by lia. exact E.
Qed.

Lemma s24_to_lj24in32_eq s :
  s24_to_lj24in32 s =
    ((clamp_s24 s * 256) mod 4294967296 / 65536,
     (clamp_s24 s * 256) mod 4294967296 mod 65536).
Proof.
  unfold s24_to_lj24in32. cbv zeta.
  pose proof (clamp_s24_range s) as Hx. unfold in_s24 in Hx.
  rewrite Z.shiftl_mul_pow2 by lia. change (2 ^ 8) with 256.
  rewrite to_int32_id by (unfold in_int32; lia).
  unfold to_uint32, to_uint16.
  rewrite Z.shiftr_div_pow2 by lia. change (2 ^ 16) with 65536.
  change 65535 with (2 ^ 16 - 1). rewrite land_mask_mod by lia.
  change (2 ^ 16) with 65536.
  pose proof (Z.mod_pos_bound (clamp_s24 s * 256) 4294967296 ltac:(lia)) as B.
  f_equal.
  - apply Z.mod_small. Z.div_mod_to_equations. lia.
  - apply Z.mod_small. apply Z.mod_pos_bound. lia.
Qed.

(** X13. The 24-in-32 left-justified slot format round-trips:
    [s24_to_lj24in32] produces two 16-bit halfwords whose lowest byte is
    zero, and [lj24in32_to_s24] reads them back as the saturated sample;
    conversely every pair of halfwords unpacks to a 24-bit sample, and
    packing that sample again restores the slot but for its unused lowest
    byte. *)
Theorem lj24_slot_round_trip (s p0 p1 : Z) :
  (let p := s24_to_lj24in32 s in
   0 <= p.1 < 65536 /\ 0 <= p.2 < 65536 /\ p.2 mod 256 = 0 /\
   lj24in32_to_s24 p.1 p.2 = clamp_s24 s) /\
  (0 <= p0 < 65536 -> 0 <= p1 < 65536 ->
   in_s24 (lj24in32_to_s24 p0 p1) /\
   s24_to_lj24in32 (lj24in32_to_s24 p0 p1) = (p0, p1 - p1 mod 256)).
Proof.
  split.
  - cbv zeta. rewrite s24_to_lj24in32_eq. cbn [fst snd].
    pose proof (clamp_s24_range s) as Hx. unfold in_s24 in Hx.
    set (x := clamp_s24 s) in *.
    assert (R0 : 0 <= (x * 256) mod 4294967296 / 65536 < 65536)
      by (Z.div_mod_to_equations; lia).
    assert (R1 : 0 <= (x * 256) mod 4294967296 mod 65536 < 65536)
      by (apply Z.mod_pos_bound; lia).
    split; [exact R0|]. split; [exact R1|].
    split; [Z.div_mod_to_equations; lia|].
    rewrite lj24in32_to_s24_eq by assumption.
    unfold to_int32. Z.div_mod_to_equations. lia.
  - intros H0 H1. rewrite lj24in32_to_s24_eq by assumption.
    assert (Hr : in_s24 (to_int32 (p0 * 65536 + p1) / 256))
      by (unfold in_s24, to_int32; Z.div_mod_to_equations; lia).
    split; [exact Hr|].
    rewrite s24_to_lj24in32_eq, clamp_s24_id by exact Hr.
    unfold to_int32. f_equal; Z.div_mod_to_equations; lia.
Qed.

Lemma lj24_slot_round_trip_witness :
  s24_to_lj24in32 (lj24in32_to_s24 65535 65535) = (65535, 65535 - 65535 mod 256).
Proof.
  refine (proj2 (proj2 (lj24_slot_round_trip 0 65535 65535) _ _)); lia.
Defined.

Lemma ring_fill_frames_mod w r_int :
  ring_fill_frames w r_int = (w - r_int) mod 256.
Proof.
  unfold ring_fill_frames, AUDIO_RING_MASK, AUDIO_RING_FRAMES, to_uint32.
  change (256 - 1) with (2 ^ 8 - 1). rewrite land_mask_mod by lia.
  change (2 ^ 8) with 256. Z.div_mod_to_equations. lia.
Qed.

Lemma ring_cursor_advance w :
  0 <= w < 256 -> Z.land (to_uint32 (w + 1)) AUDIO_RING_MASK = (w + 1) mod 256.
Proof.
  intros Hw. unfold AUDIO_RING_MASK, AUDIO_RING_FRAMES, to_uint32.
  rewrite (Z.mod_small (w + 1)) by lia.
  exact (land_mask_mod (w + 1) 8 ltac:(lia)).
Qed.

Lemma ring_push_spec (l r : Z) (a : AudioState) :
  ring_inv a ->
  let a' := ring_push_frames_s24 l r a in
  ring_inv a' /\
  s_ring_w a' = (s_ring_w a + 1) mod 256 /\
  arr_get (s_ring_l a') (s_ring_w a) = l /\
  arr_get (s_ring_r a') (s_ring_w a) = r /\
  (forall j, 0 <= j -> j <> s_ring_w a ->
     arr_get (s_ring_l a') j = arr_get (s_ring_l a) j /\
     arr_get (s_ring_r a') j = arr_get (s_ring_r a) j) /\
  ring_fill a' = Z.min (ring_fill a + 1) 254 /\
  s_ring_overflow a' =
    (if ring_fill a <? 254 then s_ring_overflow a
     else to_uint32 (s_ring_overflow a + 1)) /\
  s_ring_r_q16 a' mod 65536 = s_ring_r_q16 a mod 65536 /\
  s_ring_underrun a' = s_ring_underrun a.
Proof.
  intros (Hll & Hlr & Hw & Hrq & Hfill). cbv zeta.
  unfold ring_fill, ring_inv, ring_push_frames_s24. cbv zeta.
  cbn [s_ring_l s_ring_r s_ring_w s_ring_r_q16 s_ring_overflow s_ring_underrun].
  unfold AUDIO_RING_FRAMES in *. change (256 - 2) with 254.
  change (Z.shiftl 1 16) with 65536.
  rewrite ring_cursor_advance by assumption.
  rewrite !ring_fill_frames_mod in *.
  assert (Eri : Z.shiftr (s_ring_r_q16 a) 16 = s_ring_r_q16 a / 65536)
    by (now rewrite Z.shiftr_div_pow2 by lia).
  rewrite Eri in *.
  assert (Hri : 0 <= s_ring_r_q16 a / 65536 < 65536)
    by (Z.div_mod_to_equations; lia).
  assert (Hdrop : Z.shiftr (to_uint32 (s_ring_r_q16 a + 65536)) 16
                  = (s_ring_r_q16 a / 65536 + 1) mod 65536).
  { rewrite Z.shiftr_div_pow2 by lia. change (2 ^ 16) with 65536.
    unfold to_uint32. Z.div_mod_to_equations. lia. }
  assert (Hfrac : to_uint32 (s_ring_r_q16 a + 65536) mod 65536
                  = s_ring_r_q16 a mod 65536)
    by (unfold to_uint32; Z.div_mod_to_equations; lia).
  assert (Hrq' : 0 <= to_uint32 (s_ring_r_q16 a + 65536) < 4294967296)
    by (apply Z.mod_pos_bound; lia).
  remember (s_ring_r_q16 a / 65536) as ri eqn:Heqri.
  assert (Hget : forall buf v j, length buf = Z.to_nat 256 -> 0 <= j ->
            arr_get (arr_set buf (s_ring_w a) v) j
            = if j =? s_ring_w a then v else arr_get buf j).
  { intros buf v j Hlen Hj. apply arr_get_set; [rewrite Hlen; lia | exact Hj]. }
  assert (Hlens : length (arr_set (s_ring_l a) (s_ring_w a) l) = Z.to_nat 256 /\
                  length (arr_set (s_ring_r a) (s_ring_w a) r) = Z.to_nat 256)
    by (unfold arr_set; rewrite !length_insert; split; assumption).
  destruct Hlens as [Hll' Hlr'].
  assert (Hw' : 0 <= (s_ring_w a + 1) mod 256 < 256) by (apply Z.mod_pos_bound; lia).
  assert (Hslots :
    arr_get (arr_set (s_ring_l a) (s_ring_w a) l) (s_ring_w a) = l /\
    arr_get (arr_set (s_ring_r a) (s_ring_w a) r) (s_ring_w a) = r /\
    (forall j, 0 <= j -> j <> s_ring_w a ->
       arr_get (arr_set (s_ring_l a) (s_ring_w a) l) j = arr_get (s_ring_l a) j /\
       arr_get (arr_set (s_ring_r a) (s_ring_w a) r) j = arr_get (s_ring_r a) j)).
  { split; [rewrite Hget, Z.eqb_refl by (try assumption; lia); reflexivity|].
    split; [rewrite Hget, Z.eqb_refl by (try assumption; lia); reflexivity|].
    intros j Hj Hne. rewrite !Hget by assumption.
    destruct (Z.eqb_spec j (s_ring_w a)); [contradiction | split; reflexivity]. }
  destruct Hslots as (Hsl & Hsr & Hso).
  destruct (Z.geb_spec ((s_ring_w a - ri) mod 256) 254) as [Hd|Hd].
  - rewrite Hdrop.
    assert (Hf' : ((s_ring_w a + 1) mod 256 - (ri + 1) mod 65536) mod 256
                  = (s_ring_w a - ri) mod 256).
    { clear - Hw Hri. Z.div_mod_to_equations. lia. }
    rewrite Hf'.
    destruct (Z.ltb_spec ((s_ring_w a - ri) mod 256) 254); [lia|].
    split; [repeat (split; try assumption); lia|].
    split; [reflexivity|]. split; [assumption|]. split; [assumption|].
    split; [assumption|]. split; [lia|]. split; [reflexivity|].
    split; [assumption | reflexivity].
  - rewrite ?Eri.
    assert (Hf' : ((s_ring_w a + 1) mod 256 - ri) mod 256
                  = (s_ring_w a - ri) mod 256 + 1).
    { clear - Hw Hri Hd. Z.div_mod_to_equations. lia. }
    rewrite Hf'.
    destruct (Z.ltb_spec ((s_ring_w a - ri) mod 256) 254); [|lia].
    split; [repeat (split; try assumption); lia|].
    split; [reflexivity|]. split; [assumption|]. split; [assumption|].
    split; [assumption|]. split; [lia|]. split; [reflexivity|].
    split; reflexivity.
Qed.

(** X14. [ring_push_frames_s24] on a ring within its invariant (cursors in
    range, at most 254 frames queued): the frame is stored at the write
    cursor and no other slot changes; the write cursor advances modulo
    256; the number of queued frames grows by one but never beyond 254:
    a push onto 254 queued frames drops the oldest one instead, by moving
    the read position one whole frame (its fraction is kept) and counting
    one overflow. *)
Theorem ring_push_bounded_queue (l r : Z) (a : AudioState) :
  ring_inv a ->
  let a' := ring_push_frames_s24 l r a in
  ring_inv a' /\
  s_ring_w a' = (s_ring_w a + 1) mod 256 /\
  arr_get (s_ring_l a') (s_ring_w a) = l /\
  arr_get (s_ring_r a') (s_ring_w a) = r /\
  (forall j, 0 <= j -> j <> s_ring_w a ->
     arr_get (s_ring_l a') j = arr_get (s_ring_l a) j /\
     arr_get (s_ring_r a') j = arr_get (s_ring_r a) j) /\
  ring_fill a' = Z.min (ring_fill a + 1) 254 /\
  s_ring_overflow a' =
    (if ring_fill a <? 254 then s_ring_overflow a
     else to_uint32 (s_ring_overflow a + 1)) /\
  s_ring_r_q16 a' mod 65536 = s_ring_r_q16 a mod 65536 /\
  s_ring_underrun a' = s_ring_underrun a.
Proof.
  intros Hinv. exact (ring_push_spec l r a Hinv).
Qed.

Lemma ring_push_bounded_queue_witness :
  let a := {| s_i2s_rx_buf := zeros AUDIO_HALFWORDS_TOTAL;
              s_i2s_tx_buf := zeros AUDIO_HALFWORDS_TOTAL;
              s_ring_l := zeros AUDIO_RING_FRAMES; s_ring_r := zeros AUDIO_RING_FRAMES;
              s_ring_w := 254; s_ring_r_q16 := 0;
              s_ring_underrun := 0; s_ring_overflow := 0; fill_err_filt := 0 |} in
  ring_fill (ring_push_frames_s24 1 2 a) = Z.min (ring_fill a + 1) 254.
Proof.
  cbv zeta.
  refine (proj1 (proj2 (proj2 (proj2 (proj2 (proj2
            (ring_push_bounded_queue 1 2 _ _))))))).
  unfold ring_inv. cbn [s_ring_l s_ring_r s_ring_w s_ring_r_q16].
  split; [reflexivity|]. split; [reflexivity|].
  vm_compute. repeat split; discriminate.
Defined.

Lemma process_rx_frames_spec count : forall frame base st a,
  frame_inv st -> ring_inv a ->
  let out := process_rx_frames count frame base st a in
  frame_inv out.1 /\ ring_inv out.2 /\
  s_ring_w out.2 = (s_ring_w a + Z.of_nat count) mod 256 /\
  ring_fill out.2 = Z.min (ring_fill a + Z.of_nat count) 254 /\
  s_i2s_rx_buf out.2 = s_i2s_rx_buf a /\
  s_i2s_tx_buf out.2 = s_i2s_tx_buf a /\
  (forall j, 0 <= j ->
     (within_threshold (arr_get (s_ring_l a) j) /\
      within_threshold (arr_get (s_ring_r a) j)) \/
     (exists k, 0 <= k < Z.of_nat count /\ j = (s_ring_w a + k) mod 256) ->
     within_threshold (arr_get (s_ring_l out.2) j) /\
     within_threshold (arr_get (s_ring_r out.2) j)).
Proof.
  induction count as [|count IH]; intros frame base st a Hst Ha; cbv zeta.
  - cbn [process_rx_frames fst snd].
    pose proof Ha as (_ & _ & Hw & _ & Hfill). fold (ring_fill a) in Hfill.
    split; [assumption|]. split; [assumption|].
    split; [rewrite Z.add_0_r, Z.mod_small by (unfold AUDIO_RING_FRAMES in Hw; lia);
            reflexivity|].
    split; [lia|]. split; [reflexivity|]. split; [reflexivity|].
    intros j Hj [H|(k & Hk & _)]; [exact H | lia].
  - cbn [process_rx_frames]. cbv zeta.
    match goal with
    | |- context [AppDsp_ProcessFrame st ?l0 ?r0] =>
        pose proof (frame_bounds st l0 r0 Hst) as Hf;
        destruct (AppDsp_ProcessFrame st l0 r0) as [st1 [l r]]
    end.
    cbv zeta in Hf. cbn [fst snd] in Hf. destruct Hf as (Hst1 & Hl & Hr).
    pose proof (ring_push_spec l r a Ha) as Hp. cbv zeta in Hp.
    destruct Hp as (Ha1 & Hw1 & Hsl & Hsr & Hso & Hfill1 & _ & _ & _).
    assert (Hrx1 : s_i2s_rx_buf (ring_push_frames_s24 l r a) = s_i2s_rx_buf a)
      by reflexivity.
    assert (Htx1 : s_i2s_tx_buf (ring_push_frames_s24 l r a) = s_i2s_tx_buf a)
      by reflexivity.
    specialize (IH (frame + 1) base st1 (ring_push_frames_s24 l r a) Hst1 Ha1).
    cbv zeta in IH.
    set (a1 := ring_push_frames_s24 l r a) in *.
    destruct IH as (IH1 & IH2 & IHw & IHf & IHrx & IHtx & IHb).
    pose proof Ha as (_ & _ & Hw & _ & Hfill). fold (ring_fill a) in Hfill.
    unfold AUDIO_RING_FRAMES in Hw.
    split; [assumption|]. split; [assumption|].
    split.
    { rewrite IHw, Hw1, Zplus_mod_idemp_l. f_equal. lia. }
    split; [rewrite IHf, Hfill1; lia|].
    split; [now rewrite IHrx|]. split; [now rewrite IHtx|].
    intros j Hj Hcase. apply IHb; [exact Hj|].
    destruct (Z.eq_dec j (s_ring_w a)) as [->|Hne].
    + left. rewrite Hsl, Hsr. split; [exact Hl | exact Hr].
    + destruct Hcase as [[Hjl Hjr]|(k & Hk & Hjk)].
      * left. destruct (Hso j Hj Hne) as [E1 E2]. now rewrite E1, E2.
      * right. exists (k - 1). split.
        -- assert (k <> 0) by (intros ->; rewrite Z.add_0_r, Z.mod_small in Hjk; lia).
           lia.
        -- rewrite Hjk, Hw1, Zplus_mod_idemp_l. f_equal. lia.
Qed.

(** X15. [process_rx_half] on either half of the RX buffer, with the
    limiter gain and the ring within their invariants: the 64 frames it
    pushes are all within the limiter threshold, whatever the DMA buffer
    holds; the write cursor advances by 64 modulo 256; the number of queued
    frames grows by 64 but not beyond 254; the invariants hold again
    afterwards and neither DMA buffer is written. *)
Theorem rx_half_feeds_limited_frames (half_index : Z) (st : AppState) (a : AudioState) :
  frame_inv st -> ring_inv a ->
  let out := process_rx_half half_index st a in
  frame_inv out.1 /\ ring_inv out.2 /\
  s_ring_w out.2 = (s_ring_w a + 64) mod 256 /\
  ring_fill out.2 = Z.min (ring_fill a + 64) 254 /\
  s_i2s_rx_buf out.2 = s_i2s_rx_buf a /\
  s_i2s_tx_buf out.2 = s_i2s_tx_buf a /\
  (forall k, 0 <= k < 64 ->
     within_threshold (arr_get (s_ring_l out.2) ((s_ring_w a + k) mod 256)) /\
     within_threshold (arr_get (s_ring_r out.2) ((s_ring_w a + k) mod 256))).
Proof.
  intros Hst Ha. cbv zeta. unfold process_rx_half. cbv zeta.
  match goal with
  | |- context [process_rx_frames ?c ?f ?b st a] =>
      pose proof (process_rx_frames_spec c f b st a Hst Ha) as H
  end.
  cbv zeta in H. change (Z.of_nat (Z.to_nat AUDIO_FRAMES_PER_HALF)) with 64 in H.
  destruct H as (H1 & H2 & H3 & H4 & H5 & H6 & H7).
  repeat (split; [assumption|]).
  intros k Hk. apply H7.
  - apply Z.mod_pos_bound. lia.
  - right. exists k. split; [exact Hk | reflexivity].
Qed.

Lemma rx_half_feeds_limited_frames_witness :
  let a := {| s_i2s_rx_buf := zeros AUDIO_HALFWORDS_TOTAL;
              s_i2s_tx_buf := zeros AUDIO_HALFWORDS_TOTAL;
              s_ring_l := zeros AUDIO_RING_FRAMES; s_ring_r := zeros AUDIO_RING_FRAMES;
              s_ring_w := 0; s_ring_r_q16 := 0;
              s_ring_underrun := 0; s_ring_overflow := 0; fill_err_filt := 0 |} in
  s_ring_w (process_rx_half 1 (AppDsp_Init power_on) a).2 = (s_ring_w a + 64) mod 256.
Proof.
  cbv zeta.
  refine (proj1 (proj2 (proj2 (rx_half_feeds_limited_frames 1 (AppDsp_Init power_on) _ _ _)))).
  - unfold frame_inv. cbn. lia.
  - unfold ring_inv. cbn [s_ring_l s_ring_r s_ring_w s_ring_r_q16].
    split; [reflexivity|]. split; [reflexivity|].
    vm_compute. repeat split; discriminate.
Defined.

End AudioGlue.

(** ** Audio transport: the TX resampler *)

Section Resampler.

Lemma arr_get_in (P : Z -> Prop) buf i :
  Forall P buf -> 0 <= i < Z.of_nat (length buf) -> P (arr_get buf i).
Proof.
  intros HF Hi. unfold arr_get.
  destruct (buf !! Z.to_nat i) as [v|] eqn:E.
  - exact (Forall_lookup_1 _ _ _ _ HF E).
  - apply lookup_ge_None in E. lia.
Qed.

Lemma interp_eq l0 l1 frac :
  in_s24 l0 -> in_s24 l1 -> 0 <= frac < 65536 ->
  add32 l0 (to_int32 (Z.shiftr (sub32 l1 l0 * frac) 16)) = l0 + (l1 - l0) * frac / 65536 /\
  Z.min l0 l1 <= l0 + (l1 - l0) * frac / 65536 <= Z.max l0 l1.
Proof.
  unfold in_s24. intros H0 H1 Hf.
  assert (Hb : Z.min l0 l1 <= l0 + (l1 - l0) * frac / 65536 <= Z.max l0 l1).
  { Z.div_mod_to_equations. nia. }
  split; [|exact Hb].
  unfold add32, sub32.
  rewrite (to_int32_id (l1 - l0)) by (unfold in_int32; lia).
  rewrite Z.shiftr_div_pow2 by lia. change (2 ^ 16) with 65536.
  rewrite (to_int32_id (_ / _)) by (unfold in_int32; lia).
  apply to_int32_id. unfold in_int32. lia.
Qed.

Lemma slot_pack_unpack s :
  let p := s24_to_lj24in32 s in
  0 <= p.1 < 65536 /\ 0 <= p.2 < 65536 /\ lj24in32_to_s24 p.1 p.2 = clamp_s24 s.
Proof.
  cbv zeta. rewrite s24_to_lj24in32_eq. cbn [fst snd].
  pose proof (clamp_s24_range s) as Hx. unfold in_s24 in Hx.
  set (x := clamp_s24 s) in *.
  assert (R0 : 0 <= (x * 256) mod 4294967296 / 65536 < 65536)
    by (Z.div_mod_to_equations; lia).
  assert (R1 : 0 <= (x * 256) mod 4294967296 mod 65536 < 65536)
    by (apply Z.mod_pos_bound; lia).
  split; [exact R0|]. split; [exact R1|].
  rewrite lj24in32_to_s24_eq by assumption.
  unfold to_int32. Z.div_mod_to_equations. lia.
Qed.

Lemma cursor_after_step r step k :
  cursor_after (to_uint32 (r + to_uint32 step)) step k = cursor_after r step (k + 1).
Proof.
  unfold cursor_after, to_uint32.
  rewrite Zplus_mod_idemp_l.
  replace (r + step mod 4294967296 + k * step)
    with (r + k * step + step mod 4294967296) by lia.
  rewrite Zplus_mod_idemp_r. f_equal. lia.
Qed.

Lemma resampled_eq ring w r :
  length ring = Z.to_nat AUDIO_RING_FRAMES -> Forall in_s24 ring ->
  0 <= r < 4294967296 ->
  (if ring_fill_frames w (Z.shiftr r 16) >=? 2
   then add32 (arr_get ring (Z.land (Z.shiftr r 16) AUDIO_RING_MASK))
          (to_int32 (Z.shiftr
             (sub32
                (arr_get ring
                   (Z.land (to_uint32 (Z.land (Z.shiftr r 16) AUDIO_RING_MASK + 1))
                      AUDIO_RING_MASK))
                (arr_get ring (Z.land (Z.shiftr r 16) AUDIO_RING_MASK))
              * Z.land r 65535) 16))
   else 0) = resampled ring w r /\
  in_s24 (resampled ring w r).
Proof.
  intros Hlen HF Hr. unfold resampled. cbv zeta.
  unfold AUDIO_RING_MASK, AUDIO_RING_FRAMES in *.
  change (256 - 1) with (2 ^ 8 - 1). change 65535 with (2 ^ 16 - 1).
  rewrite !land_mask_mod by lia. change (2 ^ 8) with 256. change (2 ^ 16) with 65536.
  rewrite Z.shiftr_div_pow2 by lia. change (2 ^ 16) with 65536.
  unfold to_uint32.
  pose proof (Z.mod_pos_bound (r / 65536) 256 ltac:(lia)) as Hi0.
  rewrite (Z.mod_small ((r / 65536) mod 256 + 1) 4294967296) by lia.
  pose proof (Z.mod_pos_bound ((r / 65536) mod 256 + 1) 256 ltac:(lia)) as Hi1.
  pose proof (Z.mod_pos_bound r 65536 ltac:(lia)) as Hf.
  assert (H0 : in_s24 (arr_get ring ((r / 65536) mod 256)))
    by (apply arr_get_in; [assumption | lia]).
  assert (H1 : in_s24 (arr_get ring (((r / 65536) mod 256 + 1) mod 256)))
    by (apply arr_get_in; [assumption | lia]).
  destruct (interp_eq _ _ _ H0 H1 Hf) as [E B].
  destruct (ring_fill_frames w (r / 65536) >=? 2).
  - split; [exact E|]. unfold in_s24 in *. lia.
  - split; [reflexivity | unfold in_s24; lia].
Qed.

Lemma tx_fill_frames_spec count : forall frame base w step r a,
  base = 0 \/ base = 256 -> 0 <= frame -> frame + Z.of_nat count <= 64 ->
  length (s_ring_l a) = Z.to_nat AUDIO_RING_FRAMES ->
  length (s_ring_r a) = Z.to_nat AUDIO_RING_FRAMES ->
  length (s_i2s_tx_buf a) = Z.to_nat AUDIO_HALFWORDS_TOTAL ->
  Forall in_s24 (s_ring_l a) -> Forall in_s24 (s_ring_r a) ->
  0 <= r < 4294967296 ->
  let out := tx_fill_frames count frame base w step r a in
  out.1 = cursor_after r step (Z.of_nat count) /\
  s_ring_l out.2 = s_ring_l a /\ s_ring_r out.2 = s_ring_r a /\
  s_ring_w out.2 = s_ring_w a /\ s_ring_r_q16 out.2 = s_ring_r_q16 a /\
  s_i2s_rx_buf out.2 = s_i2s_rx_buf a /\
  s_ring_overflow out.2 = s_ring_overflow a /\
  fill_err_filt out.2 = fill_err_filt a /\
  length (s_i2s_tx_buf out.2) = Z.to_nat AUDIO_HALFWORDS_TOTAL /\
  (forall j, 0 <= j ->
     j < base + 4 * frame \/ base + 4 * (frame + Z.of_nat count) <= j ->
     arr_get (s_i2s_tx_buf out.2) j = arr_get (s_i2s_tx_buf a) j) /\
  (forall k, 0 <= k < Z.of_nat count ->
     tx_slot (s_i2s_tx_buf out.2) (base + 4 * (frame + k)) =
       resampled (s_ring_l a) w (cursor_after r step k) /\
     tx_slot (s_i2s_tx_buf out.2) (base + 4 * (frame + k) + 2) =
       resampled (s_ring_r a) w (cursor_after r step k)).
Proof.
  induction count as [|count IH];
    intros frame base w step r a Hbase Hframe Hcount Hll Hlr Hlt HFl HFr Hr; cbv zeta.
  - cbn [tx_fill_frames fst snd].
    split; [unfold cursor_after; rewrite Z.add_0_r, Z.mod_small by lia; reflexivity|].
    repeat (split; [reflexivity|]).
    split; [exact Hlt|]. split; [reflexivity|]. intros k Hk. lia.
  - cbn [tx_fill_frames]. cbv zeta.
    destruct (resampled_eq (s_ring_l a) w r Hll HFl Hr) as [El Bl].
    destruct (resampled_eq (s_ring_r a) w r Hlr HFr Hr) as [Er Br].
    rewrite El, Er.
    pose proof (slot_pack_unpack (resampled (s_ring_l a) w r)) as Pl.
    pose proof (slot_pack_unpack (resampled (s_ring_r a) w r)) as Pr.
    cbv zeta in Pl, Pr.
    rewrite clamp_s24_id in Pl by exact Bl. rewrite clamp_s24_id in Pr by exact Br.
    destruct Pl as (_ & _ & Pl). destruct Pr as (_ & _ & Pr).
    set (pl := s24_to_lj24in32 (resampled (s_ring_l a) w r)) in *.
    set (pr := s24_to_lj24in32 (resampled (s_ring_r a) w r)) in *.
    unfold AUDIO_HALFWORDS_PER_FRAME.
    replace (base + frame * (2 * 2) + 0) with (base + 4 * frame) by lia.
    replace (base + frame * (2 * 2) + 2) with (base + 4 * frame + 2) by lia.
    set (i := base + 4 * frame).
    set (tx1 := arr_set (arr_set (arr_set (arr_set (s_i2s_tx_buf a) i pl.1) (i + 1) pl.2)
                           (i + 2) pr.1) (i + 2 + 1) pr.2).
    assert (Hi : 0 <= i /\ i + 3 < 512) by (unfold i; lia).
    assert (Hlt0 : Z.of_nat (length (s_i2s_tx_buf a)) = 512) by (rewrite Hlt; reflexivity).
    assert (Htx1 : forall j, 0 <= j ->
              arr_get tx1 j =
                if j =? i + 2 + 1 then pr.2
                else if j =? i + 2 then pr.1
                else if j =? i + 1 then pl.2
                else if j =? i then pl.1
                else arr_get (s_i2s_tx_buf a) j).
    { intros j Hj. unfold tx1.
      rewrite !arr_get_set by (unfold arr_set; rewrite ?length_insert; lia).
      reflexivity. }
    assert (Hlt1 : length tx1 = Z.to_nat AUDIO_HALFWORDS_TOTAL)
      by (unfold tx1, arr_set; rewrite !length_insert; exact Hlt).
    match goal with
    | |- context [tx_fill_frames count ?f ?b ?w0 ?s0 ?r1 ?a1] =>
        set (a1' := a1);
        specialize (IH f b w0 s0 r1 a1' Hbase ltac:(lia) ltac:(lia) Hll Hlr Hlt1 HFl HFr
                      ltac:(unfold to_uint32; apply Z.mod_pos_bound; lia))
    end.
    cbv zeta in IH.
    destruct IH as (I1 & I2 & I3 & I4 & I5 & I6 & I7 & I8 & I9 & I10 & I11).
    split; [rewrite I1, cursor_after_step; f_equal; lia|].
    repeat (split; [assumption|]).
    split.
    + intros j Hj Hout. rewrite I10 by (try assumption; lia).
      change (s_i2s_tx_buf a1') with tx1. rewrite Htx1 by exact Hj.
      repeat match goal with
             | |- context [?x =? ?y] => destruct (Z.eqb_spec x y); [unfold i in *; lia|]
             end.
      reflexivity.
    + intros k Hk. destruct (Z.eq_dec k 0) as [->|Hk0].
      * replace (cursor_after r step 0) with r
          by (unfold cursor_after; rewrite Z.add_0_r, Z.mod_small by lia; reflexivity).
        replace (base + 4 * (frame + 0)) with i by (unfold i; lia).
        unfold tx_slot.
        rewrite !I10 by (unfold i in *; lia).
        change (s_i2s_tx_buf a1') with tx1. rewrite !Htx1 by lia.
        repeat match goal with
               | |- context [?x =? ?y] =>
                   destruct (Z.eqb_spec x y); try (exfalso; unfold i in *; lia)
               end.
        split; [exact Pl | exact Pr].
      * specialize (I11 (k - 1) ltac:(lia)).
        rewrite cursor_after_step in I11.
        replace (k - 1 + 1) with k in I11 by lia.
        replace (base + 4 * (frame + 1 + (k - 1))) with (base + 4 * (frame + k)) in I11 by lia.
        exact I11.
Qed.

Lemma tx_fill_frames_no_underrun count : forall frame base w step r a,
  0 <= r < 4294967296 ->
  (forall k, 0 <= k < Z.of_nat count ->
     2 <= ring_fill_frames w (Z.shiftr (cursor_after r step k) 16)) ->
  s_ring_underrun (tx_fill_frames count frame base w step r a).2 = s_ring_underrun a.
Proof.
  induction count as [|count IH]; intros frame base w step r a Hr Hk.
  - reflexivity.
  - cbn [tx_fill_frames]. cbv zeta.
    rewrite IH.
    + cbn [s_ring_underrun].
      specialize (Hk 0 ltac:(lia)).
      replace (cursor_after r step 0) with r in Hk
        by (unfold cursor_after; rewrite Z.add_0_r, Z.mod_small by lia; reflexivity).
      destruct (Z.geb_spec (ring_fill_frames w (Z.shiftr r 16)) 2); [reflexivity | lia].
    + unfold to_uint32. apply Z.mod_pos_bound. lia.
    + intros k Hk'. rewrite cursor_after_step. apply Hk. lia.
Qed.

Lemma filt_next_range a :
  tx_inv a ->
  -128 <= filt_next a <= 127 /\
  Z.min (fill_err_filt a) (ring_fill a - 128) <= filt_next a
    <= Z.max (fill_err_filt a) (ring_fill a - 128).
Proof.
  intros (_ & _ & _ & _ & _ & _ & _ & Hf).
  unfold filt_next, ring_fill. rewrite ring_fill_frames_mod.
  pose proof (Z.mod_pos_bound (s_ring_w a - Z.shiftr (s_ring_r_q16 a) 16) 256 ltac:(lia)).
  Z.div_mod_to_equations. lia.
Qed.

Lemma tx_fill_half_spec h a :
  tx_inv a ->
  let a' := tx_fill_half h a in
  let step := 65536 + filt_next a in
  fill_err_filt a' = filt_next a /\
  s_ring_r_q16 a' = cursor_after (s_ring_r_q16 a) step 64 /\
  s_ring_l a' = s_ring_l a /\ s_ring_r a' = s_ring_r a /\
  s_ring_w a' = s_ring_w a /\
  s_i2s_rx_buf a' = s_i2s_rx_buf a /\
  s_ring_overflow a' = s_ring_overflow a /\
  length (s_i2s_tx_buf a') = Z.to_nat AUDIO_HALFWORDS_TOTAL /\
  (forall j, 0 <= j -> j < tx_base h \/ tx_base h + 256 <= j ->
     arr_get (s_i2s_tx_buf a') j = arr_get (s_i2s_tx_buf a) j) /\
  (forall k, 0 <= k < 64 ->
     tx_slot (s_i2s_tx_buf a') (tx_base h + 4 * k) =
       resampled (s_ring_l a) (s_ring_w a) (cursor_after (s_ring_r_q16 a) step k) /\
     tx_slot (s_i2s_tx_buf a') (tx_base h + 4 * k + 2) =
       resampled (s_ring_r a) (s_ring_w a) (cursor_after (s_ring_r_q16 a) step k)) /\
  ((forall k, 0 <= k < 64 ->
      2 <= ring_fill_frames (s_ring_w a)
             (Z.shiftr (cursor_after (s_ring_r_q16 a) step k) 16)) ->
   s_ring_underrun a' = s_ring_underrun a).
Proof.
  intros Ha. pose proof (filt_next_range a Ha) as [Hfn _].
  destruct Ha as (Hll & Hlr & Hlt & HFl & HFr & Hw & Hr & Hf).
  cbv zeta. unfold tx_fill_half. cbv zeta.
  assert (Hfill : 0 <= ring_fill_frames (s_ring_w a) (Z.shiftr (s_ring_r_q16 a) 16) < 256).
  { rewrite ring_fill_frames_mod. apply Z.mod_pos_bound. lia. }
  assert (Efilt :
    add32 (fill_err_filt a)
      (Z.shiftr
         (sub32
            (sub32 (to_int32 (ring_fill_frames (s_ring_w a) (Z.shiftr (s_ring_r_q16 a) 16)))
               (to_int32 (AUDIO_RING_FRAMES / 2)))
            (fill_err_filt a)) 4) = filt_next a).
  { unfold filt_next, ring_fill in *.
    change (to_int32 (AUDIO_RING_FRAMES / 2)) with 128.
    set (fill := ring_fill_frames (s_ring_w a) (Z.shiftr (s_ring_r_q16 a) 16)) in *.
    unfold add32, sub32.
    rewrite (to_int32_id fill) by (unfold in_int32; lia).
    rewrite (to_int32_id (fill - 128)) by (unfold in_int32; lia).
    rewrite (to_int32_id (fill - 128 - fill_err_filt a)) by (unfold in_int32; lia).
    rewrite Z.shiftr_div_pow2 by lia. change (2 ^ 4) with 16.
    apply to_int32_id. unfold in_int32. lia. }
  rewrite !Efilt.
  change (Z.shiftl 1 16) with 65536.
  assert (Estep : add32 65536 (filt_next a) = 65536 + filt_next a)
    by (apply to_int32_id; unfold in_int32; lia).
  rewrite !Estep.
  destruct (Z.ltb_spec (65536 + filt_next a) (65536 - 128)) as [Hlo|_]; [lia|].
  destruct (Z.gtb_spec (65536 + filt_next a) (65536 + 128)) as [Hhi|_]; [lia|].
  assert (Hb : (if h =? 0 then 0 else AUDIO_HALFWORDS_PER_HALF) = tx_base h) by reflexivity.
  rewrite Hb.
  assert (Hbase : tx_base h = 0 \/ tx_base h = 256)
    by (unfold tx_base; destruct (h =? 0); [left | right]; reflexivity).
  match goal with
  | |- context [tx_fill_frames ?c ?f ?b ?w ?st ?r ?a0] =>
      pose proof (tx_fill_frames_spec c f b w st r a0 Hbase ltac:(lia)
                    ltac:(change (Z.of_nat c) with 64; lia) Hll Hlr Hlt HFl HFr Hr) as S;
      pose proof (tx_fill_frames_no_underrun c f b w st r a0 Hr) as U;
      destruct (tx_fill_frames c f b w st r a0) as [r' a1]
  end.
  cbv zeta in S. cbn [fst snd s_i2s_rx_buf s_i2s_tx_buf s_ring_l s_ring_r s_ring_w
                      s_ring_r_q16 s_ring_underrun s_ring_overflow fill_err_filt] in S, U |- *.
  change (Z.of_nat (Z.to_nat AUDIO_FRAMES_PER_HALF)) with 64 in S, U.
  destruct S as (S1 & S2 & S3 & S4 & _ & S6 & S7 & S8 & S9 & S10 & S11).
  split; [exact S8|]. split; [exact S1|].
  repeat (split; [assumption|]).
  split.
  { intros j Hj Hout. apply S10; [exact Hj | lia]. }
  split.
  { intros k Hk. specialize (S11 k Hk).
    replace (tx_base h + 4 * (0 + k)) with (tx_base h + 4 * k) in S11 by lia.
    exact S11. }
  exact U.
Qed.

Lemma fill_after_steps r e k :
  0 <= r < 4294967296 -> 0 <= k <= 64 -> -128 <= e <= 127 ->
  exists d, Z.max 0 (k - 1) <= d <= k + 1 /\ (k = 0 -> d = 0) /\
    forall w, ring_fill_frames w (Z.shiftr (cursor_after r (65536 + e) k) 16) =
              (ring_fill_frames w (Z.shiftr r 16) - d) mod 256.
Proof.
  intros Hr Hk He.
  assert (Hke : -128 * k <= k * e <= 127 * k) by nia.
  exists (k + (r mod 65536 + k * e) / 65536).
  split; [Z.div_mod_to_equations; lia|].
  split; [intros ->; Z.div_mod_to_equations; lia|].
  intros w. rewrite !ring_fill_frames_mod.
  rewrite !Z.shiftr_div_pow2 by lia. change (2 ^ 16) with 65536.
  unfold cursor_after.
  replace (r + k * (65536 + e)) with (r + k * 65536 + k * e) by lia.
  set (ke := k * e) in *. clearbody ke.
  rewrite Zminus_mod_idemp_l.
  Z.div_mod_to_equations. lia.
Qed.

Lemma resampled_bound ring w r B :
  length ring = Z.to_nat AUDIO_RING_FRAMES ->
  Forall (fun v => - B <= v <= B) ring -> 0 <= B ->
  - B <= resampled ring w r <= B.
Proof.
  intros Hlen HF HB. unfold resampled. cbv zeta.
  unfold AUDIO_RING_FRAMES in Hlen.
  pose proof (Z.mod_pos_bound (r / 65536) 256 ltac:(lia)) as Hi0.
  pose proof (Z.mod_pos_bound ((r / 65536) mod 256 + 1) 256 ltac:(lia)) as Hi1.
  pose proof (Z.mod_pos_bound r 65536 ltac:(lia)) as Hf.
  pose proof (arr_get_in _ ring ((r / 65536) mod 256) HF ltac:(lia)) as H0.
  pose proof (arr_get_in _ ring (((r / 65536) mod 256 + 1) mod 256) HF ltac:(lia)) as H1.
  cbv beta in H0, H1.
  destruct (ring_fill_frames w (Z.shiftr r 16) >=? 2); [|lia].
  set (l0 := arr_get ring ((r / 65536) mod 256)) in *.
  set (l1 := arr_get ring (((r / 65536) mod 256 + 1) mod 256)) in *.
  assert (Z.min l0 l1 <= l0 + (l1 - l0) * (r mod 65536) / 65536 <= Z.max l0 l1)
    by (Z.div_mod_to_equations; nia).
  lia.
Qed.

(** X16. Rate control of [tx_fill_half]: the filtered fill error moves from
    its old value toward the current error (queued frames minus 128)
    without passing it, and stays within [-128, 127]; so the clamp of the
    step to 65536 +/- 128 never takes effect, and the read cursor advances
    by exactly 64 steps of 65536 plus the filtered error, modulo 2^32. The
    state is again one the resampler accepts. *)
Theorem tx_rate_control (half_index : Z) (a : AudioState) :
  tx_inv a ->
  let a' := tx_fill_half half_index a in
  fill_err_filt a' = filt_next a /\
  -128 <= fill_err_filt a' <= 127 /\
  Z.min (fill_err_filt a) (ring_fill a - 128) <= fill_err_filt a'
    <= Z.max (fill_err_filt a) (ring_fill a - 128) /\
  s_ring_r_q16 a' =
    (s_ring_r_q16 a + 64 * (65536 + fill_err_filt a')) mod 4294967296 /\
  tx_inv a'.
Proof.
  intros Ha. cbv zeta.
  pose proof (filt_next_range a Ha) as [R1 R2].
  pose proof (tx_fill_half_spec half_index a Ha) as S. cbv zeta in S.
  destruct S as (S1 & S2 & S3 & S4 & S5 & _ & _ & S8 & _).
  destruct Ha as (Hll & Hlr & Hlt & HFl & HFr & Hw & Hr & Hf).
  rewrite S1. split; [reflexivity|]. split; [exact R1|]. split; [exact R2|].
  split; [exact S2|].
  unfold tx_inv. rewrite S1, S2, S3, S4, S5, S8.
  repeat (split; [first [assumption | reflexivity]|]).
  split; [apply Z.mod_pos_bound; lia | exact R1].
Qed.

Lemma tx_rate_control_witness :
  fill_err_filt (tx_fill_half 0 (idle_audio 200 0)) = filt_next (idle_audio 200 0).
Proof.
  refine (proj1 (tx_rate_control 0 (idle_audio 200 0) _)).
  unfold tx_inv. cbn [idle_audio s_ring_l s_ring_r s_i2s_tx_buf s_ring_w s_ring_r_q16
                      fill_err_filt].
  repeat (split; [reflexivity|]).
  split; [apply Forall_replicate; unfold in_s24; lia|].
  split; [apply Forall_replicate; unfold in_s24; lia|].
  unfold AUDIO_RING_FRAMES. lia.
Defined.

(** X17. Output of [tx_fill_half]: frame [k] of the addressed half of the
    TX buffer decodes, on each channel, to the linear interpolation of the
    two ring entries at the read cursor after [k] steps (silence when fewer
    than two frames are queued there); hence no output sample exceeds a
    bound that holds for every ring entry. The other half of the TX
    buffer, the ring entries, the write cursor, the RX buffer and the
    overflow counter are left as they were. *)
Theorem tx_half_output (half_index : Z) (a : AudioState) :
  tx_inv a ->
  let a' := tx_fill_half half_index a in
  let step := 65536 + filt_next a in
  (forall k, 0 <= k < 64 ->
     tx_slot (s_i2s_tx_buf a') (tx_base half_index + 4 * k) =
       resampled (s_ring_l a) (s_ring_w a) (cursor_after (s_ring_r_q16 a) step k) /\
     tx_slot (s_i2s_tx_buf a') (tx_base half_index + 4 * k + 2) =
       resampled (s_ring_r a) (s_ring_w a) (cursor_after (s_ring_r_q16 a) step k)) /\
  (forall B k, 0 <= B -> 0 <= k < 64 ->
     Forall (fun v => - B <= v <= B) (s_ring_l a) ->
     Forall (fun v => - B <= v <= B) (s_ring_r a) ->
     - B <= tx_slot (s_i2s_tx_buf a') (tx_base half_index + 4 * k) <= B /\
     - B <= tx_slot (s_i2s_tx_buf a') (tx_base half_index + 4 * k + 2) <= B) /\
  (forall j, 0 <= j -> j < tx_base half_index \/ tx_base half_index + 256 <= j ->
     arr_get (s_i2s_tx_buf a') j = arr_get (s_i2s_tx_buf a) j) /\
  s_ring_l a' = s_ring_l a /\ s_ring_r a' = s_ring_r a /\
  s_ring_w a' = s_ring_w a /\
  s_i2s_rx_buf a' = s_i2s_rx_buf a /\
  s_ring_overflow a' = s_ring_overflow a.
Proof.
  intros Ha. cbv zeta.
  pose proof (tx_fill_half_spec half_index a Ha) as S. cbv zeta in S.
  destruct S as (_ & _ & S3 & S4 & S5 & S6 & S7 & _ & S9 & S10 & _).
  destruct Ha as (Hll & Hlr & _).
  split; [exact S10|].
  split.
  { intros B k HB Hk HBl HBr. destruct (S10 k Hk) as [El Er]. rewrite El, Er.
    split; apply resampled_bound; assumption. }
  split; [exact S9|].
  repeat (split; [assumption|]). exact S7.
Qed.

Lemma tx_half_output_witness :
  s_ring_w (tx_fill_half 1 (idle_audio 200 0)) = s_ring_w (idle_audio 200 0).
Proof.
  refine (proj1 (proj2 (proj2 (proj2 (proj2 (proj2
            (tx_half_output 1 (idle_audio 200 0) _))))))).
  unfold tx_inv. cbn [idle_audio s_ring_l s_ring_r s_i2s_tx_buf s_ring_w s_ring_r_q16
                      fill_err_filt].
  repeat (split; [reflexivity|]).
  split; [apply Forall_replicate; unfold in_s24; lia|].
  split; [apply Forall_replicate; unfold in_s24; lia|].
  unfold AUDIO_RING_FRAMES. lia.
Defined.

(** X18. With at least 66 frames queued, a call of [tx_fill_half] counts
    no underrun, and it consumes 63, 64 or 65 frames of the ring. *)
Theorem tx_no_underrun_when_filled (half_index : Z) (a : AudioState) :
  tx_inv a -> 66 <= ring_fill a ->
  let a' := tx_fill_half half_index a in
  s_ring_underrun a' = s_ring_underrun a /\
  ring_fill a - 65 <= ring_fill a' <= ring_fill a - 63.
Proof.
  intros Ha Hfill. cbv zeta.
  pose proof (filt_next_range a Ha) as [R1 _].
  pose proof (tx_fill_half_spec half_index a Ha) as S. cbv zeta in S.
  destruct S as (_ & S2 & _ & _ & S5 & _ & _ & _ & _ & _ & SU).
  destruct Ha as (_ & _ & _ & _ & _ & Hw & Hr & _).
  assert (Hf256 : ring_fill a < 256).
  { unfold ring_fill. rewrite ring_fill_frames_mod. apply Z.mod_pos_bound. lia. }
  split.
  - apply SU. intros k Hk.
    destruct (fill_after_steps (s_ring_r_q16 a) (filt_next a) k Hr ltac:(lia) R1)
      as (d & Hd & _ & E).
    rewrite E. fold (ring_fill a). rewrite Z.mod_small by lia. lia.
  - destruct (fill_after_steps (s_ring_r_q16 a) (filt_next a) 64 Hr ltac:(lia) R1)
      as (d & Hd & _ & E).
    assert (E' : ring_fill (tx_fill_half half_index a) = (ring_fill a - d) mod 256)
      by (unfold ring_fill at 1; rewrite S2, S5; exact (E _)).
    rewrite E', Z.mod_small by lia. lia.
Qed.

Lemma tx_no_underrun_when_filled_witness :
  s_ring_underrun (tx_fill_half 0 (idle_audio 200 0)) = s_ring_underrun (idle_audio 200 0).
Proof.
  refine (proj1 (tx_no_underrun_when_filled 0 (idle_audio 200 0) _ _)).
  - unfold tx_inv. cbn [idle_audio s_ring_l s_ring_r s_i2s_tx_buf s_ring_w s_ring_r_q16
                        fill_err_filt].
    repeat (split; [reflexivity|]).
    split; [apply Forall_replicate; unfold in_s24; lia|].
    split; [apply Forall_replicate; unfold in_s24; lia|].
    unfold AUDIO_RING_FRAMES. lia.
  - vm_compute. discriminate.
Defined.

(** X19. The resampler at lock: with a zero filtered error, between 128 and
    143 frames queued and the read cursor on a whole frame, a call of
    [tx_fill_half] copies the next 64 ring frames into the TX half sample
    for sample, advances the cursor by exactly 64 frames, and leaves the
    filtered error at zero. *)
Theorem tx_transparent_at_lock (half_index : Z) (a : AudioState) :
  tx_inv a -> fill_err_filt a = 0 -> 128 <= ring_fill a <= 143 ->
  s_ring_r_q16 a mod 65536 = 0 ->
  let a' := tx_fill_half half_index a in
  let r_int := Z.shiftr (s_ring_r_q16 a) 16 in
  (forall k, 0 <= k < 64 ->
     tx_slot (s_i2s_tx_buf a') (tx_base half_index + 4 * k) =
       arr_get (s_ring_l a) ((r_int + k) mod 256) /\
     tx_slot (s_i2s_tx_buf a') (tx_base half_index + 4 * k + 2) =
       arr_get (s_ring_r a) ((r_int + k) mod 256)) /\
  fill_err_filt a' = 0 /\
  s_ring_r_q16 a' = (s_ring_r_q16 a + 64 * 65536) mod 4294967296 /\
  ring_fill a' = ring_fill a - 64.
Proof.
  intros Ha Hf0 Hfill Hfrac. cbv zeta.
  pose proof (tx_fill_half_spec half_index a Ha) as S. cbv zeta in S.
  destruct S as (S1 & S2 & _ & _ & S5 & _ & _ & _ & _ & S10 & _).
  destruct Ha as (_ & _ & _ & _ & _ & Hw & Hr & _).
  assert (En : filt_next a = 0).
  { unfold filt_next. rewrite Hf0. Z.div_mod_to_equations. lia. }
  rewrite En in *. change (65536 + 0) with 65536 in *.
  assert (Hcur : forall k, 0 <= k <= 64 ->
            cursor_after (s_ring_r_q16 a) 65536 k mod 65536 = 0 /\
            (cursor_after (s_ring_r_q16 a) 65536 k / 65536) mod 256 =
              (Z.shiftr (s_ring_r_q16 a) 16 + k) mod 256 /\
            ring_fill_frames (s_ring_w a)
              (Z.shiftr (cursor_after (s_ring_r_q16 a) 65536 k) 16) = ring_fill a - k).
  { intros k Hk. unfold cursor_after, ring_fill.
    rewrite !ring_fill_frames_mod. rewrite !Z.shiftr_div_pow2 by lia.
    change (2 ^ 16) with 65536.
    unfold ring_fill in Hfill. rewrite ring_fill_frames_mod in Hfill.
    rewrite Z.shiftr_div_pow2 in Hfill by lia. change (2 ^ 16) with 65536 in Hfill.
    repeat split; Z.div_mod_to_equations; lia. }
  split.
  - intros k Hk. destruct (S10 k Hk) as [El Er]. rewrite El, Er.
    destruct (Hcur k ltac:(lia)) as (C1 & C2 & C3).
    unfold resampled. cbv zeta. rewrite C1, C2, C3.
    destruct (Z.geb_spec (ring_fill a - k) 2); [|lia].
    rewrite !Z.mul_0_r. change (0 / 65536) with 0. rewrite !Z.add_0_r.
    split; reflexivity.
  - split; [exact S1|]. split; [exact S2|].
    destruct (Hcur 64 ltac:(lia)) as (_ & _ & C3).
    unfold ring_fill at 1. rewrite S2, S5. exact C3.
Qed.

Lemma tx_transparent_at_lock_witness :
  fill_err_filt (tx_fill_half 0 (idle_audio 130 0)) = 0.
Proof.
  refine (proj1 (proj2 (tx_transparent_at_lock 0 (idle_audio 130 0) _ _ _ _))).
  - unfold tx_inv. cbn [idle_audio s_ring_l s_ring_r s_i2s_tx_buf s_ring_w s_ring_r_q16
                        fill_err_filt].
    repeat (split; [reflexivity|]).
    split; [apply Forall_replicate; unfold in_s24; lia|].
    split; [apply Forall_replicate; unfold in_s24; lia|].
    unfold AUDIO_RING_FRAMES. lia.
  - reflexivity.
  - vm_compute. split; discriminate.
  - reflexivity.
Defined.

End Resampler.

(** ** UART communication: the byte rings *)

Section ByteRings.

Lemma ring_pending_length N ring rd wr :
  length (ring_pending N ring rd wr) = Z.to_nat ((wr - rd) mod N).
Proof. unfold ring_pending. now rewrite length_map, length_seq. Qed.

Lemma mod_diff N a b :
  0 <= a < N -> 0 <= b < N ->
  (a - b) mod N = if b <=? a then a - b else a - b + N.
Proof.
  intros Ha Hb. destruct (Z.leb_spec b a).
  - apply Z.mod_small. lia.
  - symmetry. apply (Z.mod_unique_pos _ _ (-1)); lia.
Qed.

Lemma mod_sum N a k :
  0 <= a < N -> 0 <= k < N ->
  (a + k) mod N = if a + k <? N then a + k else a + k - N.
Proof.
  intros Ha Hk. destruct (Z.ltb_spec (a + k) N).
  - apply Z.mod_small. lia.
  - symmetry. apply (Z.mod_unique_pos _ _ 1); lia.
Qed.

Ltac ring_cases :=
  repeat match goal with
         | H : context [if ?b then _ else _] |- _ =>
             first [destruct (Z.leb_spec0 _ _) in H | destruct (Z.ltb_spec0 _ _) in H
                   | destruct b eqn:?]
         | |- context [if ?b then _ else _] =>
             first [destruct (Z.leb_spec0 _ _) | destruct (Z.ltb_spec0 _ _)
                   | destruct b eqn:?]
         end.

Lemma ring_pending_push N ring rd wr b :
  0 < N -> length ring = Z.to_nat N -> 0 <= rd < N -> 0 <= wr < N ->
  (wr - rd) mod N < N - 1 ->
  ring_pending N (arr_set ring wr b) rd ((wr + 1) mod N) = ring_pending N ring rd wr ++ [b].
Proof.
  intros HN Hlen Hrd Hwr Hroom. unfold ring_pending.
  pose proof (Z.mod_pos_bound (wr - rd) N HN) as Hu.
  pose proof (Z.mod_pos_bound (wr + 1) N HN) as Hw1.
  assert (E : ((wr + 1) mod N - rd) mod N = (wr - rd) mod N + 1).
  { rewrite Zminus_mod_idemp_l. replace (wr + 1 - rd) with (wr - rd + 1) by lia.
    rewrite <- Zplus_mod_idemp_l. apply Z.mod_small. lia. }
  rewrite E, Z2Nat.inj_add by lia. change (Z.to_nat 1) with 1%nat.
  rewrite Nat.add_1_r, seq_S, map_app. cbn [map Nat.add].
  f_equal.
  - apply map_ext_in. intros k Hk. apply in_seq in Hk.
    rewrite arr_get_set by (try apply Z.mod_pos_bound; lia).
    destruct (Z.eqb_spec ((rd + Z.of_nat k) mod N) wr) as [Heq|]; [|reflexivity].
    exfalso.
    assert ((wr - rd) mod N = Z.of_nat k); [|lia].
    rewrite <- Heq, Zminus_mod_idemp_l.
    replace (rd + Z.of_nat k - rd) with (Z.of_nat k) by lia.
    apply Z.mod_small. lia.
  - f_equal. rewrite arr_get_set by (try apply Z.mod_pos_bound; lia).
    destruct (Z.eqb_spec ((rd + Z.of_nat (Z.to_nat ((wr - rd) mod N))) mod N) wr)
      as [|Hne]; [reflexivity|].
    exfalso. apply Hne. rewrite Z2Nat.id by lia.
    rewrite Zplus_mod_idemp_r. replace (rd + (wr - rd)) with wr by lia.
    apply Z.mod_small. lia.
Qed.

Lemma ring_pending_full N rd wr :
  1 < N -> 0 <= rd < N -> 0 <= wr < N ->
  ((wr + 1) mod N = rd <-> (wr - rd) mod N = N - 1).
Proof.
  intros HN Hrd Hwr.
  rewrite (mod_sum N wr 1), (mod_diff N wr rd) by lia.
  split; intros H; ring_cases; lia.
Qed.

Lemma ring_pending_empty N ring rd wr :
  0 < N -> 0 <= rd < N -> 0 <= wr < N ->
  (rd = wr <-> ring_pending N ring rd wr = []).
Proof.
  intros HN Hrd Hwr. split.
  - intros ->. unfold ring_pending. rewrite Z.sub_diag, Z.mod_0_l by lia. reflexivity.
  - intros H. apply (f_equal (@length Z)) in H.
    rewrite ring_pending_length in H. cbn in H.
    rewrite (mod_diff N wr rd) in H by lia. ring_cases; lia.
Qed.

Lemma ring_pending_pop N ring rd wr :
  1 < N -> 0 <= rd < N -> 0 <= wr < N -> rd <> wr ->
  ring_pending N ring rd wr =
    arr_get ring rd :: ring_pending N ring ((rd + 1) mod N) wr.
Proof.
  intros HN Hrd Hwr Hne. unfold ring_pending.
  pose proof (Z.mod_pos_bound (rd + 1) N ltac:(lia)) as Hr1.
  assert (E : (wr - rd) mod N = (wr - (rd + 1) mod N) mod N + 1).
  { rewrite (mod_diff N wr ((rd + 1) mod N)) by lia.
    rewrite (mod_sum N rd 1), (mod_diff N wr rd) by lia. ring_cases; lia. }
  pose proof (Z.mod_pos_bound (wr - (rd + 1) mod N) N ltac:(lia)) as Hu'.
  rewrite E, Z2Nat.inj_add by lia. change (Z.to_nat 1) with 1%nat.
  rewrite Nat.add_1_r. cbn [seq map].
  f_equal.
  - rewrite Z.add_0_r, Z.mod_small by lia. reflexivity.
  - rewrite <- seq_shift, map_map. apply map_ext. intros k.
    f_equal. rewrite Zplus_mod_idemp_l. f_equal. lia.
Qed.

Lemma ring_pending_drop N ring wr (m : nat) : forall rd,
  1 < N -> 0 <= rd < N -> 0 <= wr < N ->
  Z.of_nat m <= (wr - rd) mod N ->
  ring_pending N ring ((rd + Z.of_nat m) mod N) wr = drop m (ring_pending N ring rd wr).
Proof.
  induction m as [|m IH]; intros rd HN Hrd Hwr Hm.
  - rewrite Z.add_0_r, Z.mod_small by lia. reflexivity.
  - assert (Hne : rd <> wr).
    { intros ->. rewrite Z.sub_diag, Z.mod_0_l in Hm by lia. lia. }
    rewrite (ring_pending_pop N ring rd wr) by assumption. cbn [drop].
    pose proof (Z.mod_pos_bound (rd + 1) N ltac:(lia)) as Hr1.
    rewrite <- IH.
    + rewrite Zplus_mod_idemp_l. f_equal. f_equal. lia.
    + exact HN.
    + exact Hr1.
    + exact Hwr.
    + rewrite (mod_diff N wr ((rd + 1) mod N)) by lia.
      rewrite (mod_sum N rd 1) by lia.
      rewrite (mod_diff N wr rd) in Hm by lia. ring_cases; lia.
Qed.

Lemma ring_pending_take N ring rd wr (len : nat) :
  0 < N -> 0 <= rd < N ->
  Z.of_nat len <= (wr - rd) mod N -> rd + Z.of_nat len <= N ->
  map (fun k => arr_get ring (rd + Z.of_nat k)) (seq 0 len) =
    take len (ring_pending N ring rd wr).
Proof.
  intros HN Hrd Hlen Hfit. unfold ring_pending.
  rewrite firstn_map, take_seq.
  rewrite Nat.min_l by lia.
  apply map_ext_in. intros k Hk. apply in_seq in Hk.
  rewrite Z.mod_small by lia. reflexivity.
Qed.

Lemma tx_ring_next_eq idx :
  0 <= idx < APP_COM_TX_RING_SIZE -> tx_ring_next idx = (idx + 1) mod APP_COM_TX_RING_SIZE.
Proof.
  unfold tx_ring_next, APP_COM_TX_RING_SIZE, to_uint16, to_uint32. intros H.
  rewrite (Z.mod_small (idx + 1) 4294967296) by lia.
  rewrite Z.rem_mod_nonneg by lia.
  apply Z.mod_small. pose proof (Z.mod_pos_bound (idx + 1) 512). lia.
Qed.

Lemma ring_next_eq idx :
  0 <= idx < APP_COM_RX_RING_SIZE -> ring_next idx = (idx + 1) mod APP_COM_RX_RING_SIZE.
Proof.
  unfold ring_next, APP_COM_RX_RING_SIZE, to_uint16, to_uint32. intros H.
  rewrite (Z.mod_small (idx + 1) 4294967296) by lia.
  rewrite Z.rem_mod_nonneg by lia.
  apply Z.mod_small. pose proof (Z.mod_pos_bound (idx + 1) 1024). lia.
Qed.

Lemma tx_pending_length c :
  tx_ok c ->
  Z.of_nat (length (tx_pending c)) = (s_tx_wr c - s_tx_rd c) mod APP_COM_TX_RING_SIZE.
Proof.
  intros (_ & Hrd & Hwr). unfold tx_pending. rewrite ring_pending_length.
  apply Z2Nat.id. apply Z.mod_pos_bound. reflexivity.
Qed.

Lemma tx_ring_free_eq c :
  tx_ok c -> tx_ring_free c = 511 - Z.of_nat (length (tx_pending c)).
Proof.
  intros Hc. rewrite tx_pending_length by exact Hc.
  destruct Hc as (_ & Hrd & Hwr). unfold APP_COM_TX_RING_SIZE in *.
  rewrite mod_diff by lia.
  unfold tx_ring_free, APP_COM_TX_RING_SIZE, to_uint16, to_uint32.
  destruct (Z.geb_spec (s_tx_wr c) (s_tx_rd c)); ring_cases; try lia;
    Z.div_mod_to_equations; lia.
Qed.

Lemma tx_copy_spec data : forall c,
  tx_ok c -> Z.of_nat (length data) <= 511 - Z.of_nat (length (tx_pending c)) ->
  tx_ok (tx_copy data c) /\
  tx_pending (tx_copy data c) = tx_pending c ++ data /\
  s_tx_rd (tx_copy data c) = s_tx_rd c /\
  s_tx_busy (tx_copy data c) = s_tx_busy c /\
  s_tx_last_len (tx_copy data c) = s_tx_last_len c.
Proof.
  induction data as [|b data IH]; intros c Hc Hroom.
  - cbn [tx_copy]. rewrite app_nil_r. repeat split; try reflexivity; apply Hc.
  - cbn [tx_copy]. cbv zeta. cbn [length] in Hroom.
    pose proof (tx_pending_length c Hc) as Hlen.
    destruct Hc as (Hl & Hrd & Hwr).
    set (c1 := set_tx c _ _ _ _ _).
    assert (Hc1 : tx_ok c1).
    { unfold tx_ok, c1. cbn [set_tx s_tx_ring s_tx_rd s_tx_wr].
      unfold arr_set. rewrite length_insert, tx_ring_next_eq by exact Hwr.
      split; [exact Hl|]. split; [exact Hrd|]. apply Z.mod_pos_bound. reflexivity. }
    assert (Hp1 : tx_pending c1 = tx_pending c ++ [b]).
    { unfold tx_pending, c1. cbn [set_tx s_tx_ring s_tx_rd s_tx_wr].
      rewrite tx_ring_next_eq by exact Hwr.
      apply ring_pending_push; try assumption; try reflexivity.
      unfold APP_COM_TX_RING_SIZE in *. lia. }
    destruct (IH c1 Hc1) as (I1 & I2 & I3 & I4 & I5).
    { rewrite Hp1, length_app. cbn [length]. lia. }
    split; [exact I1|].
    split; [rewrite I2, Hp1, <- app_assoc; reflexivity|].
    split; [rewrite I3; reflexivity|].
    split; [rewrite I4; reflexivity | rewrite I5; reflexivity].
Qed.

Lemma tx_kick_keeps hal_ok c :
  s_tx_ring (tx_kick hal_ok c).1 = s_tx_ring c /\
  s_tx_rd (tx_kick hal_ok c).1 = s_tx_rd c /\
  s_tx_wr (tx_kick hal_ok c).1 = s_tx_wr c.
Proof.
  unfold tx_kick. cbv zeta.
  destruct (negb (s_tx_busy c =? 0)); [repeat split|].
  destruct (s_tx_rd c =? s_tx_wr c); [repeat split|].
  destruct hal_ok; repeat split.
Qed.

Lemma tx_kick_pending hal_ok c :
  tx_pending (tx_kick hal_ok c).1 = tx_pending c /\
  (tx_ok c -> tx_ok (tx_kick hal_ok c).1).
Proof.
  destruct (tx_kick_keeps hal_ok c) as (E1 & E2 & E3).
  unfold tx_pending, tx_ok. rewrite E1, E2, E3. split; [reflexivity | tauto].
Qed.

(** X20. [tx_enqueue_bytes], for a message whose length fits its 16-bit
    [len], is all or nothing and keeps the queue in order: the free space reported by [tx_ring_free] and the bytes queued always
    add up to 511; a message that fits is appended whole behind the bytes
    already queued, the read index is not moved; a message that does not
    fit leaves the state untouched and starts no transfer. *)
Theorem tx_enqueue_all_or_nothing (hal_ok : bool) (data : list Z) (c : ComState) :
  tx_ok c -> Z.of_nat (length data) < 65536 ->
  let out := tx_enqueue_bytes hal_ok data c in
  Z.of_nat (length (tx_pending c)) + tx_ring_free c = 511 /\
  (Z.of_nat (length data) <= tx_ring_free c ->
   tx_pending out.1 = tx_pending c ++ data /\ tx_ok out.1 /\
   s_tx_rd out.1 = s_tx_rd c) /\
  (tx_ring_free c < Z.of_nat (length data) -> out = (c, None)).
Proof.
  intros Hc _. cbv zeta. pose proof (tx_ring_free_eq c Hc) as Hfree.
  split; [lia|]. unfold tx_enqueue_bytes. cbv zeta.
  destruct (Z.eqb_spec (Z.of_nat (length data)) 0) as [H0|H0].
  - split.
    + intros _. destruct data; [|discriminate]. rewrite app_nil_r.
      repeat split; apply Hc.
    + intros _. reflexivity.
  - destruct (Z.ltb_spec (tx_ring_free c) (Z.of_nat (length data))) as [Hlt|Hge].
    + split; [lia | reflexivity].
    + split; [|lia]. intros _.
      destruct (tx_copy_spec data c Hc ltac:(lia)) as (C1 & C2 & C3 & _).
      destruct (tx_kick_pending hal_ok (tx_copy data c)) as [K1 K2].
      destruct (tx_kick_keeps hal_ok (tx_copy data c)) as (_ & K3 & _).
      rewrite K1, K3. repeat split; try assumption; apply (K2 C1).
Qed.

Lemma tx_enqueue_all_or_nothing_witness :
  let c := {| s_rx_ring := zeros APP_COM_RX_RING_SIZE; s_rx_wr := 0; s_rx_rd := 0;
              s_line := zeros APP_COM_LINE_MAX; s_line_len := 0;
              s_tx_ring := zeros APP_COM_TX_RING_SIZE; s_tx_wr := 510; s_tx_rd := 500;
              s_tx_busy := 0; s_tx_last_len := 0;
              s_rx_mode := APP_COM_RX_MODE_BYTE |} in
  Z.of_nat (length (tx_pending c)) + tx_ring_free c = 511.
Proof.
  cbv zeta. refine (proj1 (tx_enqueue_all_or_nothing true [80; 79; 78; 71] _ _ _)).
  - unfold tx_ok. cbn [s_tx_ring s_tx_rd s_tx_wr]. unfold APP_COM_TX_RING_SIZE.
    split; [reflexivity | lia].
  - cbn [length]. lia.
Defined.

(** X21. A transfer started by [tx_kick] on an idle transmitter with bytes
    queued hands the HAL the oldest queued bytes, in order: as many as lie
    contiguously before the end of the ring array. While that transfer is
    in flight no other is started, and [AppCom_OnUartTxCplt] removes exactly
    the bytes of the transfer from the queue. *)
Theorem tx_transfer_is_queue_prefix (hal_ok : bool) (c : ComState) :
  tx_ok c -> s_tx_busy c = 0 -> tx_pending c <> [] ->
  let len := Z.min (Z.of_nat (length (tx_pending c))) (APP_COM_TX_RING_SIZE - s_tx_rd c) in
  let k := tx_kick true c in
  let d := AppCom_OnUartTxCplt hal_ok k.1 in
  0 < len /\
  k.2 = Some (s_tx_rd c, len) /\
  tx_chunk c (s_tx_rd c, len) = take (Z.to_nat len) (tx_pending c) /\
  tx_kick hal_ok k.1 = (k.1, None) /\
  tx_pending d.1 = drop (Z.to_nat len) (tx_pending c) /\
  tx_ok d.1.
Proof.
  intros Hc Hbusy Hne. cbv zeta.
  pose proof (tx_pending_length c Hc) as Hlen.
  pose proof Hc as (Hl & Hrd & Hwr).
  assert (Hneq : s_tx_rd c <> s_tx_wr c).
  { intros E. apply Hne. unfold tx_pending.
    apply (ring_pending_empty APP_COM_TX_RING_SIZE); try assumption. reflexivity. }
  unfold APP_COM_TX_RING_SIZE in *.
  rewrite mod_diff in Hlen by lia.
  set (len := Z.min (Z.of_nat (length (tx_pending c))) (512 - s_tx_rd c)).
  assert (Ek : tx_kick true c = (set_tx c (s_tx_ring c) (s_tx_wr c) (s_tx_rd c) 1 len,
                                 Some (s_tx_rd c, len))).
  { unfold tx_kick. cbv zeta. rewrite Hbusy. cbn [Z.eqb negb].
    destruct (Z.eqb_spec (s_tx_rd c) (s_tx_wr c)); [contradiction|].
    unfold APP_COM_TX_RING_SIZE, to_uint16, to_uint32.
    assert (El : (if s_tx_wr c >? s_tx_rd c
                  then (s_tx_wr c - s_tx_rd c) mod 65536
                  else ((512 - s_tx_rd c) mod 4294967296) mod 65536) = len).
    { unfold len. rewrite Hlen.
      destruct (Z.gtb_spec (s_tx_wr c) (s_tx_rd c)); ring_cases; try lia;
        Z.div_mod_to_equations; lia. }
    rewrite El. reflexivity. }
  assert (Hlen0 : 0 < len <= Z.of_nat (length (tx_pending c)) /\ s_tx_rd c + len <= 512).
  { unfold len. rewrite Hlen. ring_cases; lia. }
  rewrite Ek. cbn [fst snd].
  split; [lia|]. split; [reflexivity|].
  split.
  { unfold tx_chunk, tx_pending. cbn [fst snd].
    apply (ring_pending_take 512); rewrite ?Z2Nat.id by lia; try lia.
    rewrite mod_diff by lia. lia. }
  split.
  { unfold tx_kick. cbn [set_tx s_tx_busy Z.eqb negb]. reflexivity. }
  unfold AppCom_OnUartTxCplt. cbv zeta. cbn [set_tx s_tx_last_len s_tx_rd s_tx_wr s_tx_ring].
  destruct (Z.gtb_spec len 0); [|lia].
  match goal with
  | |- context [tx_kick hal_ok ?c1] =>
      destruct (tx_kick_pending hal_ok c1) as [K1 K2]; rewrite K1;
      assert (Hc1 : tx_ok c1)
  end.
  { unfold tx_ok. cbn [set_tx s_tx_ring s_tx_rd s_tx_wr].
    unfold APP_COM_TX_RING_SIZE, to_uint16, to_uint32.
    rewrite (Z.mod_small (s_tx_rd c + len) 4294967296) by lia.
    rewrite Z.rem_mod_nonneg by lia.
    pose proof (Z.mod_pos_bound (s_tx_rd c + len) 512 ltac:(lia)).
    rewrite Z.mod_small by lia. repeat split; try assumption; lia. }
  split; [|exact (K2 Hc1)].
  unfold tx_pending. cbn [set_tx s_tx_ring s_tx_rd s_tx_wr].
  unfold APP_COM_TX_RING_SIZE, to_uint16, to_uint32.
  rewrite (Z.mod_small (s_tx_rd c + len) 4294967296) by lia.
  rewrite Z.rem_mod_nonneg by lia.
  pose proof (Z.mod_pos_bound (s_tx_rd c + len) 512 ltac:(lia)).
  rewrite (Z.mod_small (_ mod 512) 65536) by lia.
  rewrite <- (Z2Nat.id len) at 1 by lia.
  apply ring_pending_drop; try lia.
  rewrite Z2Nat.id, mod_diff by lia. lia.
Qed.

Lemma tx_transfer_is_queue_prefix_witness :
  let c := {| s_rx_ring := zeros APP_COM_RX_RING_SIZE; s_rx_wr := 0; s_rx_rd := 0;
              s_line := zeros APP_COM_LINE_MAX; s_line_len := 0;
              s_tx_ring := zeros APP_COM_TX_RING_SIZE; s_tx_wr := 4; s_tx_rd := 500;
              s_tx_busy := 0; s_tx_last_len := 0;
              s_rx_mode := APP_COM_RX_MODE_BYTE |} in
  (tx_kick true c).2 =
    Some (s_tx_rd c,
          Z.min (Z.of_nat (length (tx_pending c))) (APP_COM_TX_RING_SIZE - s_tx_rd c)).
Proof.
  cbv zeta.
  refine (proj1 (proj2 (tx_transfer_is_queue_prefix true _ _ _ _))).
  - unfold tx_ok. cbn [s_tx_ring s_tx_rd s_tx_wr]. unfold APP_COM_TX_RING_SIZE.
    split; [reflexivity | lia].
  - reflexivity.
  - vm_compute. discriminate.
Defined.

End ByteRings.

(** ** UART communication: reception and line assembly *)

Section LineAssembly.

Lemma rx_pending_length c :
  rx_ok c ->
  Z.of_nat (length (rx_pending c)) = (s_rx_wr c - s_rx_rd c) mod APP_COM_RX_RING_SIZE.
Proof.
  intros _. unfold rx_pending. rewrite ring_pending_length.
  apply Z2Nat.id. apply Z.mod_pos_bound. reflexivity.
Qed.

Lemma rx_store_spec b c :
  rx_ok c ->
  rx_ok (rx_store b c) /\
  rx_pending (rx_store b c) =
    (if Z.of_nat (length (rx_pending c)) <? 1023 then rx_pending c ++ [b]
     else rx_pending c) /\
  s_rx_rd (rx_store b c) = s_rx_rd c /\
  s_rx_mode (rx_store b c) = s_rx_mode c /\
  s_line (rx_store b c) = s_line c /\
  s_line_len (rx_store b c) = s_line_len c.
Proof.
  intros Hc. pose proof (rx_pending_length c Hc) as Hlen.
  pose proof Hc as (Hl & Hrd & Hwr & Hll & Hln).
  unfold rx_store. cbv zeta. rewrite ring_next_eq by exact Hwr.
  pose proof (ring_pending_full APP_COM_RX_RING_SIZE (s_rx_rd c) (s_rx_wr c)
                ltac:(reflexivity) Hrd Hwr) as Hfull.
  pose proof (Z.mod_pos_bound (s_rx_wr c - s_rx_rd c) APP_COM_RX_RING_SIZE
                ltac:(reflexivity)) as Hu.
  pose proof (Z.mod_pos_bound (s_rx_wr c + 1) APP_COM_RX_RING_SIZE
                ltac:(reflexivity)) as Hw1.
  unfold APP_COM_RX_RING_SIZE in Hfull, Hu.
  destruct (Z.eqb_spec ((s_rx_wr c + 1) mod APP_COM_RX_RING_SIZE) (s_rx_rd c)) as [E|E];
    cbn [negb].
  - apply Hfull in E.
    destruct (Z.ltb_spec (Z.of_nat (length (rx_pending c))) 1023);
      [unfold APP_COM_RX_RING_SIZE in Hlen; lia|].
    repeat split; try reflexivity; apply Hc.
  - assert (Hroom : (s_rx_wr c - s_rx_rd c) mod 1024 < 1023).
    { destruct (Z.eq_dec ((s_rx_wr c - s_rx_rd c) mod 1024) 1023) as [E'|]; [|lia].
      apply Hfull in E'. contradiction. }
    destruct (Z.ltb_spec (Z.of_nat (length (rx_pending c))) 1023);
      [|unfold APP_COM_RX_RING_SIZE in Hlen; lia].
    split.
    { unfold rx_ok. cbn [set_rx s_rx_ring s_rx_rd s_rx_wr s_line s_line_len].
      unfold arr_set. rewrite length_insert. repeat split; try assumption; lia. }
    split.
    { unfold rx_pending. cbn [set_rx s_rx_ring s_rx_rd s_rx_wr].
      apply ring_pending_push; try assumption; reflexivity. }
    repeat split.
Qed.

Lemma rx_store_burst_spec rx_dma count : forall i c,
  rx_ok c -> 0 <= i -> i + Z.of_nat count <= Z.of_nat (length rx_dma) ->
  let out := rx_store_burst count i rx_dma c in
  rx_ok out /\
  rx_pending out =
    rx_pending c ++
      take (Z.to_nat (1023 - Z.of_nat (length (rx_pending c))))
           (take count (drop (Z.to_nat i) rx_dma)) /\
  s_rx_rd out = s_rx_rd c /\ s_rx_mode out = s_rx_mode c /\
  s_line out = s_line c /\ s_line_len out = s_line_len c.
Proof.
  induction count as [|count IH]; intros i c Hc Hi Hfit; cbv zeta.
  - cbn [rx_store_burst]. change (take 0 (drop (Z.to_nat i) rx_dma)) with (@nil Z).
    rewrite take_nil, app_nil_r.
    repeat split; try reflexivity; apply Hc.
  - cbn [rx_store_burst].
    destruct (rx_store_spec (arr_get rx_dma i) c Hc) as (S1 & S2 & S3 & S4 & S5 & S6).
    specialize (IH (i + 1) (rx_store (arr_get rx_dma i) c) S1 ltac:(lia) ltac:(lia)).
    cbv zeta in IH. destruct IH as (I1 & I2 & I3 & I4 & I5 & I6).
    split; [exact I1|].
    split; [|rewrite I3, I4, I5, I6; repeat split; assumption].
    rewrite I2, S2.
    assert (Hd : drop (Z.to_nat i) rx_dma =
                 arr_get rx_dma i :: drop (Z.to_nat (i + 1)) rx_dma).
    { replace (Z.to_nat (i + 1)) with (S (Z.to_nat i)) by lia.
      apply drop_S. unfold arr_get.
      destruct (rx_dma !! Z.to_nat i) eqn:E; [reflexivity|].
      apply lookup_ge_None in E. lia. }
    rewrite Hd. cbn [take].
    pose proof (rx_pending_length c Hc) as Hlen.
    pose proof (Z.mod_pos_bound (s_rx_wr c - s_rx_rd c) APP_COM_RX_RING_SIZE
                  ltac:(reflexivity)) as Hu.
    unfold APP_COM_RX_RING_SIZE in Hlen, Hu.
    destruct (Z.ltb_spec (Z.of_nat (length (rx_pending c))) 1023).
    + rewrite length_app. cbn [length].
      replace (Z.to_nat (1023 - Z.of_nat (length (rx_pending c))))
        with (S (Z.to_nat (1023 - Z.of_nat (length (rx_pending c) + 1)))) by lia.
      cbn [take]. rewrite <- app_assoc. reflexivity.
    + replace (Z.to_nat (1023 - Z.of_nat (length (rx_pending c)))) with 0%nat by lia.
      reflexivity.
Qed.

(** X22. The receive callbacks never overwrite unread bytes. In byte mode
    [AppCom_OnUartRxCplt] appends the received byte to the queue of unread
    bytes if fewer than 1023 are queued and drops it otherwise; in the idle
    modes [AppCom_OnUartRxEvent] appends the burst (at most 512 bytes)
    as far as it fits in the 1023 places and drops the rest. Neither moves
    the read index or touches the line buffer, and each leaves the other
    mode's traffic alone. *)
Theorem rx_callbacks_append_or_drop (rx_byte size : Z) (rx_dma : list Z) (c : ComState) :
  rx_ok c -> length rx_dma = Z.to_nat APP_COM_RX_DMA_SIZE -> 0 <= size ->
  let room := Z.to_nat (1023 - Z.of_nat (length (rx_pending c))) in
  let c1 := AppCom_OnUartRxCplt rx_byte c in
  let c2 := AppCom_OnUartRxEvent rx_dma size c in
  rx_pending c1 =
    (if s_rx_mode c is APP_COM_RX_MODE_BYTE
     then rx_pending c ++ take room [rx_byte] else rx_pending c) /\
  rx_pending c2 =
    (if s_rx_mode c is APP_COM_RX_MODE_BYTE then rx_pending c
     else rx_pending c ++ take room (take (Z.to_nat size) rx_dma)) /\
  rx_ok c1 /\ rx_ok c2 /\
  s_rx_rd c1 = s_rx_rd c /\ s_rx_rd c2 = s_rx_rd c /\
  line_so_far c1 = line_so_far c /\ line_so_far c2 = line_so_far c.
Proof.
  intros Hc Hdma Hsize. cbv zeta.
  pose proof (rx_pending_length c Hc) as Hlen.
  pose proof (Z.mod_pos_bound (s_rx_wr c - s_rx_rd c) APP_COM_RX_RING_SIZE
                ltac:(reflexivity)) as Hu.
  unfold APP_COM_RX_RING_SIZE in Hlen, Hu.
  destruct (rx_store_spec rx_byte c Hc) as (S1 & S2 & S3 & S4 & S5 & S6).
  set (n := if size >? APP_COM_RX_DMA_SIZE then APP_COM_RX_DMA_SIZE else size).
  assert (Hn : 0 <= n <= 512 /\ take (Z.to_nat n) rx_dma = take (Z.to_nat size) rx_dma).
  { unfold n, APP_COM_RX_DMA_SIZE in *.
    destruct (Z.gtb_spec size 512); [|split; [lia | reflexivity]].
    split; [lia|]. rewrite !take_ge by lia. reflexivity. }
  destruct Hn as [Hn En].
  destruct (rx_store_burst_spec rx_dma (Z.to_nat n) 0 c Hc ltac:(lia))
    as (B1 & B2 & B3 & B4 & B5 & B6).
  { rewrite Hdma. unfold APP_COM_RX_DMA_SIZE. lia. }
  change (drop (Z.to_nat 0) rx_dma) with rx_dma in B2. rewrite En in B2.
  assert (E1 : rx_pending (rx_store rx_byte c) =
               rx_pending c ++
                 take (Z.to_nat (1023 - Z.of_nat (length (rx_pending c)))) [rx_byte]).
  { rewrite S2. destruct (Z.ltb_spec (Z.of_nat (length (rx_pending c))) 1023).
    - replace (Z.to_nat (1023 - Z.of_nat (length (rx_pending c))))
        with (S (Z.to_nat (1022 - Z.of_nat (length (rx_pending c))))) by lia.
      cbn [take]. rewrite take_nil. reflexivity.
    - replace (Z.to_nat (1023 - Z.of_nat (length (rx_pending c)))) with 0%nat by lia.
      rewrite app_nil_r. reflexivity. }
  unfold AppCom_OnUartRxCplt, AppCom_OnUartRxEvent, line_so_far. cbv zeta. fold n.
  destruct (s_rx_mode c);
    rewrite ?E1, ?B2, ?S3, ?S5, ?S6, ?B3, ?B5, ?B6;
    do 2 (split; [reflexivity|]); do 2 (split; [assumption|]);
    do 3 (split; [reflexivity|]); reflexivity.
Qed.

Lemma rx_callbacks_append_or_drop_witness :
  rx_pending (AppCom_OnUartRxEvent (zeros APP_COM_RX_DMA_SIZE) 5
                (idle_com APP_COM_RX_MODE_IDLE_DMA)) =
    rx_pending (idle_com APP_COM_RX_MODE_IDLE_DMA) ++
      take (Z.to_nat (1023 - Z.of_nat (length (rx_pending (idle_com APP_COM_RX_MODE_IDLE_DMA)))))
           (take (Z.to_nat 5) (zeros APP_COM_RX_DMA_SIZE)).
Proof.
  refine (proj1 (proj2 (rx_callbacks_append_or_drop 65 5 (zeros APP_COM_RX_DMA_SIZE)
                          (idle_com APP_COM_RX_MODE_IDLE_DMA) _ _ _))).
  - unfold rx_ok. cbn [idle_com s_rx_ring s_rx_rd s_rx_wr s_line s_line_len].
    unfold APP_COM_RX_RING_SIZE, APP_COM_LINE_MAX.
    split; [reflexivity|]. split; [lia|]. split; [lia|]. split; [reflexivity | lia].
  - reflexivity.
  - lia.
Defined.

Lemma c_string_app_nul l1 l2 : c_string (l1 ++ 0 :: l2) = c_string l1.
Proof.
  induction l1 as [|b l1 IH]; cbn [c_string app].
  - reflexivity.
  - destruct (b =? 0); [reflexivity | now rewrite IH].
Qed.

Lemma c_string_no_nul l : Forall (fun b => b <> 0) l -> c_string l = l.
Proof.
  induction 1 as [|b l Hb _ IH]; cbn [c_string]; [reflexivity|].
  destruct (Z.eqb_spec b 0); [contradiction | now rewrite IH].
Qed.

Lemma poll_loop_spec edit fuel : forall c lines,
  (forall buf, length (edit buf) = length buf) ->
  rx_ok c -> (length (rx_pending c) <= fuel)%nat ->
  let out := poll_loop edit fuel c lines in
  let asm := assemble (line_so_far c) (rx_pending c) in
  rx_ok out.1 /\ s_rx_rd out.1 = s_rx_wr c /\ s_rx_wr out.1 = s_rx_wr c /\
  s_rx_ring out.1 = s_rx_ring c /\
  line_so_far out.1 = asm.1 /\
  out.2 = lines ++ map c_string asm.2.
Proof.
  induction fuel as [|fuel IH]; intros c lines Hedit Hc Hfuel; cbv zeta.
  - assert (E : rx_pending c = []) by (destruct (rx_pending c); [reflexivity | cbn in Hfuel; lia]).
    rewrite E. cbn [poll_loop assemble fst snd map]. rewrite app_nil_r.
    pose proof Hc as (Hl & Hrd & Hwr & Hll & Hln).
    apply (ring_pending_empty APP_COM_RX_RING_SIZE) in E; try assumption; [|reflexivity].
    repeat (split; [first [assumption | reflexivity]|]). reflexivity.
  - pose proof Hc as (Hl & Hrd & Hwr & Hll & Hln).
    cbn [poll_loop]. cbv zeta.
    destruct (Z.eqb_spec (s_rx_rd c) (s_rx_wr c)) as [E|E].
    + assert (E' : rx_pending c = [])
        by (apply (ring_pending_empty APP_COM_RX_RING_SIZE); try assumption; reflexivity).
      rewrite E'. cbn [assemble fst snd map]. rewrite app_nil_r.
      repeat (split; [first [assumption | reflexivity]|]). reflexivity.
    + assert (Hpop : rx_pending c =
                     arr_get (s_rx_ring c) (s_rx_rd c) ::
                     rx_pending (set_rx c (s_rx_ring c) (s_rx_wr c) (ring_next (s_rx_rd c)))).
      { unfold rx_pending. cbn [set_rx s_rx_ring s_rx_rd s_rx_wr].
        rewrite ring_next_eq by exact Hrd.
        apply ring_pending_pop; try assumption. reflexivity. }
      set (b := arr_get (s_rx_ring c) (s_rx_rd c)) in *.
      set (c1 := set_rx c (s_rx_ring c) (s_rx_wr c) (ring_next (s_rx_rd c))) in *.
      assert (Hc1 : rx_ok c1).
      { unfold rx_ok, c1. cbn [set_rx s_rx_ring s_rx_rd s_rx_wr s_line s_line_len].
        rewrite ring_next_eq by exact Hrd.
        split; [exact Hl|]. split; [apply Z.mod_pos_bound; reflexivity|].
        split; [exact Hwr|]. split; [exact Hll | exact Hln]. }
      assert (Hfuel1 : (length (rx_pending c1) <= fuel)%nat)
        by (rewrite Hpop in Hfuel; cbn [length] in Hfuel; lia).
      assert (Hcur : Z.of_nat (length (line_so_far c)) = s_line_len c).
      { unfold line_so_far. rewrite length_take, Hll.
        unfold APP_COM_LINE_MAX in *. lia. }
      rewrite Hpop. cbn [assemble]. unfold APP_COM_LINE_MAX in *.
      destruct (Z.eqb_spec b 10) as [Eb10|Eb10].
      * set (line := arr_set (s_line c1) (s_line_len c1) 0).
        assert (Hline : c_string line = c_string (line_so_far c)).
        { unfold line, arr_set, line_so_far. cbn [c1 set_rx s_line s_line_len].
          rewrite insert_take_drop by lia. apply c_string_app_nul. }
        assert (Hlen_line : length line = 160%nat)
          by (unfold line, arr_set; rewrite length_insert; exact Hll).
        specialize (IH (set_line c1 (edit line) 0) (lines ++ [c_string line]) Hedit).
        cbv zeta in IH. destruct IH as (I1 & I2 & I3 & I4 & I5 & I6).
        { unfold rx_ok. cbn [set_line s_rx_ring s_rx_rd s_rx_wr s_line s_line_len].
          rewrite Hedit. destruct Hc1 as (? & ? & ? & ? & ?).
          unfold APP_COM_LINE_MAX.
          split; [|split; [|split; [|split]]]; try assumption; lia. }
        { exact Hfuel1. }
        cbn [fst snd map].
        split; [exact I1|]. split; [exact I2|]. split; [exact I3|]. split; [exact I4|].
        split; [exact I5|].
        rewrite I6, <- app_assoc, Hline. reflexivity.
      * destruct (Z.eqb_spec b 13) as [Eb13|Eb13].
        { specialize (IH c1 lines Hedit Hc1 Hfuel1). exact IH. }
        rewrite Hcur.
        assert (Eu : to_uint32 (s_line_len c1 + 1) = s_line_len c + 1)
          by (unfold to_uint32; cbn [c1 set_rx s_line_len]; apply Z.mod_small; lia).
        rewrite Eu.
        destruct (Z.ltb_spec (s_line_len c + 1) 160) as [Hroom|Hroom].
        { set (c2 := set_line c1 _ _).
          assert (Hc2 : rx_ok c2).
          { unfold rx_ok, c2. cbn [set_line s_rx_ring s_rx_rd s_rx_wr s_line s_line_len].
            unfold arr_set, to_uint16. rewrite length_insert.
            cbn [c1 set_rx s_line s_line_len]. rewrite Z.mod_small by lia.
            destruct Hc1 as (? & ? & ? & ? & ?).
            unfold APP_COM_LINE_MAX.
            split; [|split; [|split; [|split]]]; try assumption; lia. }
          assert (Hl2 : line_so_far c2 = line_so_far c ++ [b]).
          { unfold line_so_far, c2. cbn [set_line s_line s_line_len c1 set_rx].
            unfold arr_set, to_uint16. rewrite Z.mod_small by lia.
            replace (Z.to_nat (s_line_len c + 1)) with (S (Z.to_nat (s_line_len c))) by lia.
            rewrite (take_S_r _ _ b)
              by (apply list_lookup_insert_eq; lia).
            rewrite take_insert_ge by lia. reflexivity. }
          specialize (IH c2 lines Hedit Hc2 Hfuel1). cbv zeta in IH.
          rewrite Hl2 in IH. exact IH. }
        { set (c2 := set_line c1 _ _).
          assert (Hc2 : rx_ok c2).
          { unfold rx_ok, c2. cbn [set_line s_rx_ring s_rx_rd s_rx_wr s_line s_line_len].
            destruct Hc1 as (? & ? & ? & ? & ?).
            unfold APP_COM_LINE_MAX.
            split; [|split; [|split; [|split]]]; try assumption; lia. }
          specialize (IH c2 lines Hedit Hc2 Hfuel1). cbv zeta in IH.
          exact IH. }
Qed.

Lemma AppCom_Poll_spec edit c :
  (forall buf, length (edit buf) = length buf) -> rx_ok c ->
  let out := AppCom_Poll edit c in
  let asm := assemble (line_so_far c) (rx_pending c) in
  rx_ok out.1 /\ s_rx_rd out.1 = s_rx_wr out.1 /\ s_rx_wr out.1 = s_rx_wr c /\
  line_so_far out.1 = asm.1 /\ out.2 = map c_string asm.2.
Proof.
  intros Hedit Hc. cbv zeta. unfold AppCom_Poll.
  pose proof (rx_pending_length c Hc) as Hlen.
  pose proof (Z.mod_pos_bound (s_rx_wr c - s_rx_rd c) APP_COM_RX_RING_SIZE
                ltac:(reflexivity)) as Hu.
  destruct (poll_loop_spec edit (Z.to_nat APP_COM_RX_RING_SIZE) c [] Hedit Hc ltac:(lia))
    as (P1 & P2 & P3 & _ & P5 & P6).
  split; [exact P1|]. split; [rewrite P2, P3; reflexivity|].
  split; [exact P3|]. split; [exact P5 | exact P6].
Qed.

Lemma assemble_chars l : forall cur rest,
  Forall line_char l ->
  Z.of_nat (length cur) + Z.of_nat (length l) < APP_COM_LINE_MAX ->
  assemble cur (l ++ rest) = assemble (cur ++ l) rest.
Proof.
  induction l as [|b l IH]; intros cur rest Hl Hlen.
  - rewrite app_nil_r. reflexivity.
  - inversion Hl as [|? ? [Hb10 Hb13] Hl']; subst.
    cbn [app assemble]. cbn [length] in Hlen.
    destruct (Z.eqb_spec b 10); [contradiction|].
    destruct (Z.eqb_spec b 13); [contradiction|].
    destruct (Z.ltb_spec (Z.of_nat (length cur) + 1) APP_COM_LINE_MAX); [|lia].
    rewrite IH by (try assumption; rewrite length_app; cbn [length]; lia).
    rewrite <- app_assoc. reflexivity.
Qed.

Lemma assemble_wire cur l rest :
  Forall line_char l.2 ->
  Z.of_nat (length cur) + Z.of_nat (length l.2) < APP_COM_LINE_MAX ->
  assemble cur (wire l ++ rest) =
    ((assemble [] rest).1, (cur ++ l.2) :: (assemble [] rest).2).
Proof.
  intros Hl Hlen. unfold wire. rewrite <- app_assoc.
  rewrite assemble_chars by assumption.
  destruct l.1; reflexivity.
Qed.

Lemma clean_line_chars l : clean_line l -> Forall line_char l /\ Forall (fun b => b <> 0) l.
Proof.
  intros [H _]. split; eapply Forall_impl; try exact H; cbv beta; unfold line_char; tauto.
Qed.

Lemma assemble_lines ls tail :
  Forall (fun l => clean_line l.2) ls -> clean_line tail ->
  assemble [] (concat (map wire ls) ++ tail) = (tail, map snd ls).
Proof.
  intros Hls Htail. induction Hls as [|l ls Hl _ IH].
  - cbn [map concat app]. destruct (clean_line_chars tail Htail) as [Hc _].
    rewrite <- (app_nil_r tail) at 1.
    rewrite assemble_chars by (try assumption; destruct Htail; cbn [length]; lia).
    reflexivity.
  - cbn [map concat]. rewrite <- app_assoc.
    destruct (clean_line_chars _ Hl) as [Hc _].
    rewrite assemble_wire by (try assumption; destruct Hl; cbn [length]; lia).
    rewrite IH. reflexivity.
Qed.

(** X23. Line assembly by [AppCom_Poll]. When the unread bytes are a
    sequence of command lines, each ended by LF or by CR LF, followed by
    the beginning of a further line, and the line buffer is empty, one call
    hands the lines to [handle_line] one by one, in order, without their
    line ends; it empties the ring and leaves the unfinished line in the
    line buffer. This holds whatever [handle_line] does to the buffer it
    is given. *)
Theorem poll_delivers_lines (edit : list Z -> list Z) (c : ComState)
    (ls : list (bool * list Z)) (tail : list Z) :
  (forall buf, length (edit buf) = length buf) ->
  rx_ok c -> s_line_len c = 0 ->
  rx_pending c = concat (map wire ls) ++ tail ->
  Forall (fun l => clean_line l.2) ls -> clean_line tail ->
  let out := AppCom_Poll edit c in
  out.2 = map snd ls /\
  line_so_far out.1 = tail /\
  rx_pending out.1 = [] /\
  rx_ok out.1.
Proof.
  intros Hedit Hc Hlen Hp Hls Htail. cbv zeta.
  destruct (AppCom_Poll_spec edit c Hedit Hc) as (P1 & P2 & _ & P4 & P5).
  assert (Hcur : line_so_far c = []) by (unfold line_so_far; rewrite Hlen; reflexivity).
  rewrite Hcur, Hp, assemble_lines in P4, P5 by assumption. cbn [fst snd] in P4, P5.
  split.
  { rewrite P5. clear - Hls. induction Hls as [|l ls Hl _ IH]; [reflexivity|].
    cbn [map]. rewrite IH. f_equal.
    apply c_string_no_nul. apply (clean_line_chars _ Hl). }
  split; [exact P4|]. split; [|exact P1].
  destruct P1 as (_ & Hrd & Hwr & _).
  apply (ring_pending_empty APP_COM_RX_RING_SIZE); try assumption. reflexivity.
Qed.

Lemma poll_delivers_lines_witness :
  let c := set_rx (idle_com APP_COM_RX_MODE_BYTE)
             (arr_set (arr_set (arr_set (zeros APP_COM_RX_RING_SIZE) 0 80) 1 13) 2 10) 3 0 in
  (AppCom_Poll (fun buf => buf) c).2 = map snd [(true, [80])].
Proof.
  cbv zeta.
  refine (proj1 (poll_delivers_lines (fun buf => buf) _ [(true, [80])] [] _ _ _ _ _ _)).
  - reflexivity.
  - unfold rx_ok. cbn [set_rx idle_com s_rx_ring s_rx_rd s_rx_wr s_line s_line_len].
    unfold APP_COM_RX_RING_SIZE, APP_COM_LINE_MAX.
    split; [reflexivity|]. split; [lia|]. split; [lia|]. split; [reflexivity | lia].
  - reflexivity.
  - reflexivity.
  - constructor; [|constructor]. split; [|vm_compute; reflexivity].
    constructor; [|constructor]. repeat split; discriminate.
  - split; [constructor | vm_compute; reflexivity].
Defined.

(** X24. A line split over two calls of [AppCom_Poll] is put together: when
    the line buffer already holds the beginning of a line and the unread
    bytes are its rest and its line end, [handle_line] is called once,
    with the whole line. *)
Theorem poll_completes_partial_line (edit : list Z -> list Z) (c : ComState)
    (l : bool * list Z) :
  (forall buf, length (edit buf) = length buf) ->
  rx_ok c -> rx_pending c = wire l ->
  clean_line (line_so_far c ++ l.2) ->
  let out := AppCom_Poll edit c in
  out.2 = [line_so_far c ++ l.2] /\
  line_so_far out.1 = [] /\
  rx_pending out.1 = [].
Proof.
  intros Hedit Hc Hp Hclean. cbv zeta.
  destruct (AppCom_Poll_spec edit c Hedit Hc) as (P1 & P2 & _ & P4 & P5).
  destruct (clean_line_chars _ Hclean) as [Hch Hnn].
  destruct Hclean as [_ Hlen]. rewrite length_app in Hlen.
  rewrite Hp, <- (app_nil_r (wire l)), assemble_wire in P4, P5
    by (try lia; apply Forall_app in Hch; apply Hch).
  cbn [assemble fst snd map] in P4, P5.
  split; [rewrite P5, c_string_no_nul by exact Hnn; reflexivity|].
  split; [exact P4|].
  destruct P1 as (_ & Hrd & Hwr & _).
  apply (ring_pending_empty APP_COM_RX_RING_SIZE); try assumption. reflexivity.
Qed.

Lemma poll_completes_partial_line_witness :
  let c := set_line
             (set_rx (idle_com APP_COM_RX_MODE_BYTE)
                (arr_set (arr_set (zeros APP_COM_RX_RING_SIZE) 0 71) 1 10) 2 0)
             (arr_set (arr_set (arr_set (zeros APP_COM_LINE_MAX) 0 80) 1 73) 2 78) 3 in
  (AppCom_Poll (fun buf => buf) c).2 = [line_so_far c ++ [71]].
Proof.
  cbv zeta.
  refine (proj1 (poll_completes_partial_line (fun buf => buf) _ (false, [71]) _ _ _ _)).
  - reflexivity.
  - unfold rx_ok. cbn [set_line set_rx idle_com s_rx_ring s_rx_rd s_rx_wr s_line s_line_len].
    unfold APP_COM_RX_RING_SIZE, APP_COM_LINE_MAX.
    split; [reflexivity|]. split; [lia|]. split; [lia|]. split; [reflexivity | lia].
  - reflexivity.
  - split; [|vm_compute; reflexivity].
    vm_compute. repeat constructor; discriminate.
Defined.

(** X25. A line of 160 characters or more is not discarded as a whole:
    [AppCom_Poll] drops its first 160 characters when the 160th arrives and
    goes on collecting, so that what follows them up to the line end is
    handed to [handle_line] as if it were a line of its own. *)
Theorem poll_overlong_line_keeps_tail (edit : list Z -> list Z) (c : ComState)
    (head : list Z) (x : Z) (l : bool * list Z) :
  (forall buf, length (edit buf) = length buf) ->
  rx_ok c -> s_line_len c = 0 ->
  rx_pending c = head ++ x :: wire l ->
  length head = 159%nat -> Forall line_char head -> line_char x ->
  clean_line l.2 ->
  let out := AppCom_Poll edit c in
  out.2 = [l.2] /\ line_so_far out.1 = [].
Proof.
  intros Hedit Hc Hlen Hp Hh Hhc [Hx10 Hx13] Hclean. cbv zeta.
  destruct (AppCom_Poll_spec edit c Hedit Hc) as (_ & _ & _ & P4 & P5).
  assert (Hcur : line_so_far c = []) by (unfold line_so_far; rewrite Hlen; reflexivity).
  destruct (clean_line_chars _ Hclean) as [Hch Hnn].
  assert (E : assemble [] (head ++ x :: wire l) = ([], [l.2])).
  { rewrite assemble_chars
      by (try assumption; rewrite Hh; unfold APP_COM_LINE_MAX; cbn [length]; lia).
    cbn [app assemble].
    destruct (Z.eqb_spec x 10); [contradiction|].
    destruct (Z.eqb_spec x 13); [contradiction|].
    rewrite Hh.
    destruct (Z.ltb_spec (Z.of_nat 159 + 1) APP_COM_LINE_MAX) as [H|_];
      [unfold APP_COM_LINE_MAX in H; lia|].
    rewrite <- (app_nil_r (wire l)), assemble_wire
      by (try assumption; destruct Hclean; cbn [length]; lia).
    reflexivity. }
  rewrite Hcur, Hp, E in P4, P5. cbn [fst snd map] in P4, P5.
  split; [rewrite P5, c_string_no_nul by exact Hnn; reflexivity | exact P4].
Qed.

Lemma poll_overlong_line_keeps_tail_witness :
  let c := set_rx (idle_com APP_COM_RX_MODE_BYTE)
             (replicate 159 65 ++ [66; 67; 10] ++ zeros (APP_COM_RX_RING_SIZE - 162)) 162 0 in
  (AppCom_Poll (fun buf => buf) c).2 = [[67]].
Proof.
  cbv zeta.
  refine (proj1 (poll_overlong_line_keeps_tail (fun buf => buf) _ (replicate 159 65) 66
                   (false, [67]) _ _ _ _ _ _ _ _)).
  - reflexivity.
  - unfold rx_ok. cbn [set_rx idle_com s_rx_ring s_rx_rd s_rx_wr s_line s_line_len].
    unfold APP_COM_RX_RING_SIZE, APP_COM_LINE_MAX.
    split; [vm_compute; reflexivity|]. split; [lia|]. split; [lia|].
    split; [reflexivity | lia].
  - reflexivity.
  - vm_compute. reflexivity.
  - reflexivity.
  - apply Forall_replicate. split; discriminate.
  - split; discriminate.
  - split; [|vm_compute; reflexivity].
    constructor; [|constructor]. repeat split; discriminate.
Defined.

End LineAssembly.

(** ** Reverb: the modulation LFO *)

Section ReverbLfo.

(** X27. [triangle_lfo_offset_q8] for an amplitude of up to 131071
    samples: the phase advances by the step modulo 2^32; the offset is
    exactly [4 * amp * (triangle t - 64)] for the top byte [t] of the new
    phase, with no rounding and no 32-bit overflow; it always lies within
    [-256 * amp, 252 * amp], so neither of the two final limit checks ever
    applies. *)
Theorem lfo_offset_is_exact_triangle (phase step amp : Z) :
  0 <= phase < 4294967296 -> 0 <= amp <= 131071 ->
  let out := triangle_lfo_offset_q8 phase step amp in
  let t := out.1 / 2 ^ 24 in
  out.1 = (phase + step) mod 2 ^ 32 /\
  0 <= t < 256 /\
  out.2 = 4 * amp * (triangle t - 64) /\
  - (256 * amp) <= out.2 <= 252 * amp.
Proof.
  intros Hp Ha. cbv zeta. unfold triangle_lfo_offset_q8. cbv zeta. cbn [fst snd].
  unfold to_uint32. change (2 ^ 32) with 4294967296.
  pose proof (Z.mod_pos_bound (phase + step) 4294967296 ltac:(lia)) as Hph.
  set (ph := (phase + step) mod 4294967296) in *.
  rewrite Z.shiftr_div_pow2 by lia.
  assert (Ht : 0 <= ph / 2 ^ 24 < 256).
  { change (2 ^ 24) with 16777216. Z.div_mod_to_equations. lia. }
  assert (Et : to_uint8 (ph / 2 ^ 24) = ph / 2 ^ 24) by (apply Z.mod_small; exact Ht).
  rewrite !Et.
  set (t := ph / 2 ^ 24) in *.
  assert (Etri : (if t <? 128 then t else to_uint8 (255 - t)) = triangle t).
  { unfold triangle, to_uint8. destruct (Z.ltb_spec t 128); [reflexivity|].
    apply Z.mod_small. lia. }
  rewrite !Etri.
  assert (Htri : 0 <= triangle t <= 127).
  { unfold triangle. destruct (Z.ltb_spec t 128); lia. }
  set (tri := triangle t) in *.
  assert (Eoff : sub32 tri 64 = tri - 64) by (apply to_int32_id; unfold in_int32; lia).
  assert (Elim : mul32 amp 256 = amp * 256) by (apply to_int32_id; unfold in_int32; lia).
  rewrite !Eoff, !Elim.
  assert (Hprod : -64 * amp <= (tri - 64) * amp <= 63 * amp) by nia.
  assert (Emul : mul32 (tri - 64) (amp * 256) = (tri - 64) * amp * 4 * 64).
  { unfold mul32. rewrite to_int32_id by (unfold in_int32; lia). lia. }
  rewrite !Emul, !Z.quot_mul by lia.
  assert (Eneg : neg32 (amp * 256) = - (amp * 256))
    by (apply to_int32_id; unfold in_int32; lia).
  rewrite !Eneg.
  destruct (Z.gtb_spec ((tri - 64) * amp * 4) (amp * 256)); [lia|].
  destruct (Z.ltb_spec ((tri - 64) * amp * 4) (- (amp * 256))); [lia|].
  split; [reflexivity|]. split; [exact Ht|]. split; lia.
Qed.

Lemma lfo_offset_is_exact_triangle_witness :
  (triangle_lfo_offset_q8 4278190080 33554432 24).2 =
    4 * 24 * (triangle ((triangle_lfo_offset_q8 4278190080 33554432 24).1 / 2 ^ 24) - 64).
Proof.
  refine (proj1 (proj2 (proj2 (lfo_offset_is_exact_triangle 4278190080 33554432 24 _ _))));
    lia.
Defined.

End ReverbLfo.
